(** * platypush sound plugin: a shallow embedding of [platypush/plugins/sound.py]

    The development follows the source file top to bottom:

    - the arithmetic of Python's [float], as an interface [PyFloat] with two
      instances: the ideal one over the real numbers (used where the source
      calls [**], [math.log] and [numpy.sin], which have no bit-exact model),
      and IEEE binary64 (used for the cursor arithmetic of [play], which only
      needs [+ - * /], comparisons and [int()]);
    - class [Sound]: [__init__], [note_to_freq], [freq_to_note], [get_wave];
    - class [SoundPlugin]: the two state machines, [play] with its audio
      callback, [record], [recordplay], as programs of a state-and-exception
      monad over a world shared with the other threads. *)

From Stdlib Require Import ZArith Reals Lra Lia List.
From Stdlib Require Uint63 PrimFloat FloatOps FloatAxioms SpecFloat.
From stdpp Require Import base strings gmap.
Import ListNotations.

Local Open Scope Z_scope.

(** ** Exceptions of the source and of its collaborators *)

Inductive exn : Type :=
| RuntimeError          (* raised by [Sound.__init__] and [play] *)
| ValueError            (* math domain error, negative [num] in linspace, ... *)
| OverflowError         (* [2.0 ** y] out of range, [int(inf)] *)
| AssertionError        (* the two [assert]s of the playback callback *)
| CallbackAbort         (* [sd.CallbackAbort] *)
| QueueFull             (* [queue.Full] *)
| QueueEmpty            (* [queue.Empty] *)
| IndexError            (* [sounds[0]] on an empty list *)
| ZeroDivisionError     (* [frequency / A_frequency] with a zero reference *)
| ExternalError (code : nat). (* anything a collaborator raises: PortAudio, OS *)

Definition exn_eqb (a b : exn) : bool :=
  match a, b with
  | RuntimeError, RuntimeError | ValueError, ValueError
  | OverflowError, OverflowError | AssertionError, AssertionError
  | CallbackAbort, CallbackAbort | QueueFull, QueueFull
  | QueueEmpty, QueueEmpty | IndexError, IndexError
  | ZeroDivisionError, ZeroDivisionError => true
  | ExternalError m, ExternalError n => Nat.eqb m n
  | _, _ => false
  end.

(** ** Python floats *)

(** The operations the source applies to [float] values.  [f_int] is [int(x)]
    (truncation toward zero, failing on nan and inf; [f_isnan] tells the two
    failures apart), [f_bool] is truthiness ([x != 0]), [f_log x b] is
    [math.log(x, b)], [f_pow] is [**]. *)
Class PyFloat (F : Type) : Type := {
  f_add : F -> F -> F;
  f_sub : F -> F -> F;
  f_mul : F -> F -> F;
  f_div : F -> F -> F;
  f_of_int : Z -> F;
  f_int : F -> option Z;
  f_isnan : F -> bool;
  f_bool : F -> bool;
  f_lt : F -> F -> bool;
  f_le : F -> F -> bool;
  f_pow : F -> F -> option F;
  f_log : F -> F -> option F;
  f_sin : F -> F;
  f_pi : F
}.

(** *** The ideal instance: real numbers

    Exact arithmetic in place of rounded arithmetic.  It does not compute what
    the program computes: [int()] of a value that binary64 rounds to an
    integer, and the results of [**] and [math.log], differ.  It is used only
    for statements that the rounding cannot affect: the value of an expression
    at an input where it is far from the next integer, the positions
    [numpy.linspace] is asked for, a bound that holds before and after
    rounding.  Statements about the cursor of [play] are made in binary64. *)

(** [int(x)] on a real: the integer part toward zero. *)
Definition Rtrunc (x : R) : Z :=
  if Rle_dec 0 x then Zfloor x else Zceil x.

Definition Rltb (x y : R) : bool := if Rlt_dec x y then true else false.
Definition Rleb (x y : R) : bool := if Rle_dec x y then true else false.
Definition Rtruthy (x : R) : bool := if Req_dec_T x 0 then false else true.

(** [math.log(x, b)] is [log(x) / log(b)] and raises outside its domain. *)
Definition Rlog (x b : R) : option R :=
  if Rlt_dec 0 x then Some (ln x / ln b)%R else None.

#[export] Instance R_float : PyFloat R := {
  f_add := Rplus;
  f_sub := Rminus;
  f_mul := Rmult;
  f_div := Rdiv;
  f_of_int := IZR;
  f_int := fun x => Some (Rtrunc x);
  f_isnan := fun _ => false;
  f_bool := Rtruthy;
  f_lt := Rltb;
  f_le := Rleb;
  f_pow := fun x y => Some (Rpower x y);
  f_log := Rlog;
  f_sin := sin;
  f_pi := PI
}.

(** *** The machine instance: IEEE binary64 *)

Module Binary64.
Import PrimFloat.

(** [float(z)] for a Python int: the nearest binary64 number, ties to even,
    for every [z].  From 2^1024 on the value here is an infinity, where
    CPython raises OverflowError; the ints of the source ([midi_note],
    [blocksize], [samplerate]) are taken to be within the range of a float.
    [a / b] on two such ints is modelled as [float(a) / float(b)], which is
    CPython's true division as long as both are below 2^53 in magnitude. *)
Definition of_Z (z : Z) : float :=
  FloatOps.SF2Prim
    (SpecFloat.binary_normalize FloatOps.prec FloatOps.emax z 0 false).

(** [int(x)]: drop the fractional bits of the mantissa. *)
Definition to_Z (x : float) : option Z :=
  match FloatOps.Prim2SF x with
  | SpecFloat.S754_zero _ => Some 0
  | SpecFloat.S754_finite s m e =>
      let a := if 0 <=? e then Z.shiftl (Z.pos m) e
               else Z.shiftr (Z.pos m) (- e) in
      Some (if s then - a else a)
  | SpecFloat.S754_infinity _ => None
  | SpecFloat.S754_nan => None
  end.

Definition truthy (x : float) : bool := negb (PrimFloat.eqb x PrimFloat.zero).

(** The C library functions behind [**], [math.log] and [numpy.sin]; they
    are not part of the repository and differ between platforms. *)
Record Libm : Type := {
  libm_pow : float -> float -> option float;
  libm_log : float -> float -> option float;
  libm_sin : float -> float;
}.

(** [numpy.pi] *)
Definition pi : float := 0x1.921fb54442d18p+1%float.

Definition ops (m : Libm) : PyFloat float := {|
  f_add := PrimFloat.add;
  f_sub := PrimFloat.sub;
  f_mul := PrimFloat.mul;
  f_div := PrimFloat.div;
  f_of_int := of_Z;
  f_int := to_Z;
  f_isnan := PrimFloat.is_nan;
  f_bool := truthy;
  f_lt := PrimFloat.ltb;
  f_le := PrimFloat.leb;
  f_pow := libm_pow m;
  f_log := libm_log m;
  f_sin := libm_sin m;
  f_pi := pi
|}.

End Binary64.

(** ** class Sound *)

Definition STANDARD_A_MIDI_NOTE : Z := 69.
Definition _DEFAULT_BLOCKSIZE : Z := 2048.
Definition _DEFAULT_BUFSIZE : Z := 20.
Definition _DEFAULT_SAMPLERATE : Z := 44100.

Record Sound (F : Type) : Type := mkSound {
  midi_note : Z;
  frequency : F;
  gain : F;
  duration : option F
}.
Arguments mkSound {F}.
Arguments midi_note {F}.
Arguments frequency {F}.
Arguments gain {F}.
Arguments duration {F}.

Section SoundClass.
Context {F : Type} `{PyFloat F}.

Definition STANDARD_A_FREQUENCY : F := f_of_int 440.

(** [(2.0 ** ((midi_note - 69) / 12.0)) * A_frequency] *)
Definition note_to_freq (midi_note : Z) (A_frequency : F) : exn + F :=
  match f_pow (f_of_int 2)
              (f_div (f_of_int (midi_note - STANDARD_A_MIDI_NOTE))
                     (f_of_int 12)) with
  | Some p => inr (f_mul p A_frequency)
  | None => inl OverflowError
  end.

(** [int(x)]: ValueError on a nan, OverflowError on an infinity. *)
Definition py_int (x : F) : exn + Z :=
  match f_int x with
  | Some z => inr z
  | None => inl (if f_isnan x then ValueError else OverflowError)
  end.

(** [int(12.0 * math.log(frequency/A_frequency, 2) + 69)].  The division
    raises ZeroDivisionError for a zero [A_frequency], [math.log] raises
    ValueError outside its domain, [int] raises on an infinity or a nan. *)
Definition freq_to_note (frequency : F) (A_frequency : F) : exn + Z :=
  if f_bool A_frequency then
    match f_log (f_div frequency A_frequency) (f_of_int 2) with
    | None => inl ValueError
    | Some l =>
        py_int (f_add (f_mul (f_of_int 12) l) (f_of_int STANDARD_A_MIDI_NOTE))
    end
  else inl ZeroDivisionError.

(** Truthiness of the two optional constructor arguments: [None], [0] and
    [0.0] are all false. *)
Definition truthy_int (x : option Z) : bool :=
  match x with Some n => negb (n =? 0) | None => false end.

Definition truthy_float (x : option F) : bool :=
  match x with Some v => f_bool v | None => false end.

Definition Sound_init (midi_note : option Z) (frequency : option F)
    (gain : F) (duration : option F) (A_frequency : F) : exn + Sound F :=
  if truthy_int midi_note && truthy_float frequency then inl RuntimeError
  else if truthy_int midi_note then
    match midi_note with
    | Some n =>
        match note_to_freq n A_frequency with
        | inr fr => inr (mkSound n fr gain duration)
        | inl e => inl e
        end
    | None => inl RuntimeError
    end
  else if truthy_float frequency then
    match frequency with
    | Some fr =>
        match freq_to_note fr A_frequency with
        | inr n => inr (mkSound n fr gain duration)
        | inl e => inl e
        end
    | None => inl RuntimeError
    end
  else inl RuntimeError.

(** [numpy.linspace(start, stop, num)] with its default [endpoint=True]:
    [arange(num) * step + start] with [step = (stop - start) / (num - 1)],
    and the last sample set to [stop]. *)
Definition set_last (l : list F) (v : F) : list F :=
  match l with
  | [] => []
  | _ => removelast l ++ [v]
  end.

Definition linspace (start stop : F) (num : Z) : list F :=
  let y := map (fun i => f_of_int (Z.of_nat i)) (seq 0 (Z.to_nat num)) in
  let div := num - 1 in
  let delta := f_sub stop start in
  let y :=
    if 0 <? div then
      let step := f_div delta (f_of_int div) in
      if f_bool step then map (fun v => f_mul v step) y
      else map (fun v => f_mul (f_div v (f_of_int div)) delta) y
    else map (fun v => f_mul v delta) y in
  let y := map (fun v => f_add v start) y in
  if 1 <? num then set_last y stop else y.

(** [x = np.linspace(t_start, t_end, int((t_end-t_start)*samplerate))] *)
Definition get_wave_x (t_start t_end : F) (samplerate : Z)
  : exn + list F :=
  match py_int (f_mul (f_sub t_end t_start) (f_of_int samplerate)) with
  | inl e => inl e
  | inr num => if num <? 0 then inl ValueError
               else inr (linspace t_start t_end num)
  end.

(** [self.gain * np.sin(2 * np.pi * self.frequency * x)] *)
Definition get_wave (self : Sound F) (t_start t_end : F) (samplerate : Z)
  : exn + list F :=
  match get_wave_x t_start t_end samplerate with
  | inl e => inl e
  | inr x =>
      inr (map (fun xi =>
                  f_mul (gain self)
                    (f_sin (f_mul (f_mul (f_mul (f_of_int 2) f_pi)
                                         (frequency self)) xi))) x)
  end.

End SoundClass.

(** ** class SoundPlugin: data *)

Module PlaybackState.
Inductive t : Type := STOPPED | PLAYING | PAUSED.
Definition eqb (a b : t) : bool :=
  match a, b with
  | STOPPED, STOPPED | PLAYING, PLAYING | PAUSED, PAUSED => true
  | _, _ => false
  end.
End PlaybackState.

Module RecordingState.
Inductive t : Type := STOPPED | RECORDING | PAUSED.
Definition eqb (a b : t) : bool :=
  match a, b with
  | STOPPED, STOPPED | RECORDING, RECORDING | PAUSED, PAUSED => true
  | _, _ => false
  end.
End RecordingState.

(** The attributes [__init__] stores and nothing changes afterwards. *)
Record SoundPlugin : Type := {
  input_device : option Z;
  output_device : option Z;
  input_blocksize : Z;
  output_blocksize : Z;
  playback_bufsize : Z
}.

(** A sound file on disk, already decoded: what [soundfile] reads from it
    and writes to it. *)
Record AudioFile (F : Type) : Type := {
  af_samplerate : Z;
  af_channels : Z;
  af_frames : list F
}.
Arguments Build_AudioFile {F}.
Arguments af_samplerate {F}.
Arguments af_channels {F}.
Arguments af_frames {F}.

Inductive FsNode (F : Type) : Type :=
| RegularFile (a : AudioFile F)
| Directory.
Arguments RegularFile {F}.
Arguments Directory {F}.

(** An open [sf.SoundFile] object. *)
Record SoundFile (F : Type) : Type := {
  sf_name : string;
  sf_samplerate : Z;
  sf_channels : Z;
  sf_unread : list F;
  sf_closed : bool
}.
Arguments Build_SoundFile {F}.
Arguments sf_name {F}.
Arguments sf_samplerate {F}.
Arguments sf_channels {F}.
Arguments sf_unread {F}.
Arguments sf_closed {F}.

(** [sd.CallbackFlags] *)
Record CallbackFlags : Type := {
  input_underflow : bool;
  input_overflow : bool;
  output_underflow : bool;
  output_overflow : bool;
  priming_output : bool
}.

Definition no_flags : CallbackFlags :=
  {| input_underflow := false; input_overflow := false;
     output_underflow := false; output_overflow := false;
     priming_output := false |}.

(** [bool(status)] *)
Definition flags_bool (s : CallbackFlags) : bool :=
  input_underflow s || input_overflow s || output_underflow s
  || output_overflow s || priming_output s.

(** One invocation of the stream callback by the PortAudio thread: the frame
    count, the status flags and the device buffer it hands over (captured
    samples for an input stream, stale contents for an output stream). *)
Record DriverCall (F : Type) : Type := {
  dc_frames : Z;
  dc_status : CallbackFlags;
  dc_buffer : list F
}.
Arguments Build_DriverCall {F}.
Arguments dc_frames {F}.
Arguments dc_status {F}.
Arguments dc_buffer {F}.

(** The actions another thread can invoke on the plugin while a call runs. *)
Inductive Ctl : Type :=
| CtlPausePlayback | CtlStopPlayback | CtlPauseRecording | CtlStopRecording.

(** An element of the [sounds] argument: a [Sound] object, or a dict holding
    the keyword arguments of one. *)
Record SoundDict (F : Type) : Type := {
  d_midi_note : option Z;
  d_frequency : option F;
  d_gain : option F;
  d_duration : option F
}.
Arguments Build_SoundDict {F}.
Arguments d_midi_note {F}.
Arguments d_frequency {F}.
Arguments d_gain {F}.
Arguments d_duration {F}.

Inductive SoundItem (F : Type) : Type :=
| ItemSound (s : Sound F)
| ItemDict (d : SoundDict F).
Arguments ItemSound {F}.
Arguments ItemDict {F}.

Inductive SoundsArg (F : Type) : Type :=
| SoundsList (l : list (SoundItem F))
| SoundsStr (s : string).
Arguments SoundsList {F}.
Arguments SoundsStr {F}.

Inductive Event (F : Type) : Type :=
| Log (msg : string)
| Sleep (milliseconds : Z)
| SoundFileOpen (name : string) (exclusive : bool)
| SoundFileClose (name : string)
| BufferRead (frames : nat)
| GetWave (t_start t_end : F) (frames : nat)
| QueuePut (frames : nat)
| StreamOpen (samplerate blocksize : Z) (device : option Z) (channels : Z)
| StreamClose
| DeviceWrite (block : list F)
| Unlink (name : string)
| FileWrite (frames : nat)
| FileFlush.
Arguments Log {F}.
Arguments Sleep {F}.
Arguments SoundFileOpen {F}.
Arguments SoundFileClose {F}.
Arguments BufferRead {F}.
Arguments GetWave {F}.
Arguments QueuePut {F}.
Arguments StreamOpen {F}.
Arguments StreamClose {F}.
Arguments DeviceWrite {F}.
Arguments Unlink {F}.
Arguments FileWrite {F}.
Arguments FileFlush {F}.

(** Everything outside the calling thread: the other threads' actions by
    scheduling slot, the failures of collaborators, and the library functions
    whose results the source only passes along. *)
Record Env (F : Type) : Type := {
  env_ctl : nat -> list Ctl;
  env_driver : nat -> option (DriverCall F);
  env_fault : nat -> option exn;
  env_abspath : string -> string;
  env_mktemp : string;
  env_default_device : string -> option Z;
  env_default_samplerate : option Z -> Z;
  env_json_loads : string -> option (list (SoundItem F));
  env_time : nat -> F
}.
Arguments env_ctl {F}.
Arguments env_driver {F}.
Arguments env_fault {F}.
Arguments env_abspath {F}.
Arguments env_mktemp {F}.
Arguments env_default_device {F}.
Arguments env_default_samplerate {F}.
Arguments env_json_loads {F}.
Arguments env_time {F}.

(** The store the threads share: the plugin's mutable attributes, the file
    system, and the objects of the running call that its callback closes
    over ([f], [q], [completed_callback_event], the stream). *)
Record World (F : Type) : Type := mkWorld {
  playback_state : PlaybackState.t;
  playback_paused_changed : bool;
  recording_state : RecordingState.t;
  recording_paused_changed : bool;
  fs : gmap string (FsNode F);
  f : option (SoundFile F);
  q : list (list F);
  q_maxsize : Z;
  outdata : list F;
  stream_active : bool;
  completed_callback_event : bool;
  clock : nat;
  trace : list (Event F)
}.
Arguments mkWorld {F}.
Arguments playback_state {F}.
Arguments playback_paused_changed {F}.
Arguments recording_state {F}.
Arguments recording_paused_changed {F}.
Arguments fs {F}.
Arguments f {F}.
Arguments q {F}.
Arguments q_maxsize {F}.
Arguments outdata {F}.
Arguments stream_active {F}.
Arguments completed_callback_event {F}.
Arguments clock {F}.
Arguments trace {F}.

Section WorldUpdates.
Context {F : Type}.
Implicit Type w : World F.

Definition set_playback_state v w :=
  mkWorld v (playback_paused_changed w) (recording_state w)
    (recording_paused_changed w) (fs w) (f w) (q w) (q_maxsize w)
    (outdata w) (stream_active w) (completed_callback_event w) (clock w)
    (trace w).
Definition set_playback_paused_changed v w :=
  mkWorld (playback_state w) v (recording_state w)
    (recording_paused_changed w) (fs w) (f w) (q w) (q_maxsize w)
    (outdata w) (stream_active w) (completed_callback_event w) (clock w)
    (trace w).
Definition set_recording_state v w :=
  mkWorld (playback_state w) (playback_paused_changed w) v
    (recording_paused_changed w) (fs w) (f w) (q w) (q_maxsize w)
    (outdata w) (stream_active w) (completed_callback_event w) (clock w)
    (trace w).
Definition set_recording_paused_changed v w :=
  mkWorld (playback_state w) (playback_paused_changed w) (recording_state w)
    v (fs w) (f w) (q w) (q_maxsize w)
    (outdata w) (stream_active w) (completed_callback_event w) (clock w)
    (trace w).
Definition set_fs v w :=
  mkWorld (playback_state w) (playback_paused_changed w) (recording_state w)
    (recording_paused_changed w) v (f w) (q w) (q_maxsize w)
    (outdata w) (stream_active w) (completed_callback_event w) (clock w)
    (trace w).
Definition set_f v w :=
  mkWorld (playback_state w) (playback_paused_changed w) (recording_state w)
    (recording_paused_changed w) (fs w) v (q w) (q_maxsize w)
    (outdata w) (stream_active w) (completed_callback_event w) (clock w)
    (trace w).
Definition set_q v w :=
  mkWorld (playback_state w) (playback_paused_changed w) (recording_state w)
    (recording_paused_changed w) (fs w) (f w) v (q_maxsize w)
    (outdata w) (stream_active w) (completed_callback_event w) (clock w)
    (trace w).
Definition set_q_maxsize v w :=
  mkWorld (playback_state w) (playback_paused_changed w) (recording_state w)
    (recording_paused_changed w) (fs w) (f w) (q w) v
    (outdata w) (stream_active w) (completed_callback_event w) (clock w)
    (trace w).
Definition set_outdata v w :=
  mkWorld (playback_state w) (playback_paused_changed w) (recording_state w)
    (recording_paused_changed w) (fs w) (f w) (q w) (q_maxsize w)
    v (stream_active w) (completed_callback_event w) (clock w)
    (trace w).
Definition set_stream_active v w :=
  mkWorld (playback_state w) (playback_paused_changed w) (recording_state w)
    (recording_paused_changed w) (fs w) (f w) (q w) (q_maxsize w)
    (outdata w) v (completed_callback_event w) (clock w)
    (trace w).
Definition set_completed_callback_event v w :=
  mkWorld (playback_state w) (playback_paused_changed w) (recording_state w)
    (recording_paused_changed w) (fs w) (f w) (q w) (q_maxsize w)
    (outdata w) (stream_active w) v (clock w)
    (trace w).
Definition set_clock v w :=
  mkWorld (playback_state w) (playback_paused_changed w) (recording_state w)
    (recording_paused_changed w) (fs w) (f w) (q w) (q_maxsize w)
    (outdata w) (stream_active w) (completed_callback_event w) v
    (trace w).
Definition emit (e : Event F) w :=
  mkWorld (playback_state w) (playback_paused_changed w) (recording_state w)
    (recording_paused_changed w) (fs w) (f w) (q w) (q_maxsize w)
    (outdata w) (stream_active w) (completed_callback_event w) (clock w)
    (trace w ++ [e]).

End WorldUpdates.

(** ** The monad of the model: state, exceptions, and running out of fuel *)

Inductive outcome (A : Type) : Type :=
| Return (a : A)
| Raise (e : exn)
| OutOfFuel.
Arguments Return {A}.
Arguments Raise {A}.
Arguments OutOfFuel {A}.

Definition M (F A : Type) : Type := World F -> outcome A * World F.

Section Monad.
Context {F : Type}.

Definition ret {A} (a : A) : M F A := fun w => (Return a, w).

Definition bind {A B} (m : M F A) (k : A -> M F B) : M F B :=
  fun w =>
    match m w with
    | (Return a, w') => k a w'
    | (Raise e, w') => (Raise e, w')
    | (OutOfFuel, w') => (OutOfFuel, w')
    end.

Definition raise {A} (e : exn) : M F A := fun w => (Raise e, w).
Definition out_of_fuel {A} : M F A := fun w => (OutOfFuel, w).
Definition gets {A} (g : World F -> A) : M F A := fun w => (Return (g w), w).
Definition modify (g : World F -> World F) : M F unit :=
  fun w => (Return tt, g w).

(** [try: m  except e: handler(e)]; [handler] returns [None] for the
    exceptions the [except] clause does not name. *)
Definition try_except {A} (m : M F A) (handler : exn -> option (M F A))
  : M F A :=
  fun w =>
    match m w with
    | (Raise e, w') =>
        match handler e with
        | Some h => h w'
        | None => (Raise e, w')
        end
    | r => r
    end.

(** [try: m  finally: fin].  The [finally] block runs whenever [m] returns
    or raises; an exception of [fin] replaces the pending one. *)
Definition try_finally {A} (m : M F A) (fin : M F unit) : M F A :=
  fun w =>
    match m w with
    | (OutOfFuel, w') => (OutOfFuel, w')
    | (r, w') =>
        match fin w' with
        | (Return _, w'') => (r, w'')
        | (Raise e, w'') => (Raise e, w'')
        | (OutOfFuel, w'') => (OutOfFuel, w'')
        end
    end.

End Monad.

Declare Scope py_scope.
Delimit Scope py_scope with py.
Notation "x <- m ;; k" := (bind m (fun x => k))
  (at level 100, m at next level, right associativity) : py_scope.
Notation "m ;;; k" := (bind m (fun _ => k))
  (at level 100, right associativity) : py_scope.
Local Open Scope py_scope.

(** ** class SoundPlugin: methods *)

Record PlayArgs (F : Type) : Type := {
  p_file : option string;
  p_sounds : option (SoundsArg F);
  p_device : option Z;
  p_blocksize : option Z;
  p_bufsize : Z;
  p_samplerate : option Z;
  p_channels : option Z
}.
Arguments Build_PlayArgs {F}.
Arguments p_file {F}.
Arguments p_sounds {F}.
Arguments p_device {F}.
Arguments p_blocksize {F}.
Arguments p_bufsize {F}.
Arguments p_samplerate {F}.
Arguments p_channels {F}.

(** The arguments of [record] and [recordplay]; [latency], [subtype] and
    [dtype] are passed to the stream and file constructors untouched. *)
Record RecordArgs (F : Type) : Type := {
  r_file : option string;
  r_duration : option F;
  r_device : option Z;
  r_sample_rate : option Z;
  r_blocksize : option Z;
  r_channels : Z
}.
Arguments Build_RecordArgs {F}.
Arguments r_file {F}.
Arguments r_duration {F}.
Arguments r_device {F}.
Arguments r_sample_rate {F}.
Arguments r_blocksize {F}.
Arguments r_channels {F}.

Record RecordplayArgs (F : Type) : Type := {
  rp_duration : option F;
  rp_input_device : option Z;
  rp_output_device : option Z;
  rp_sample_rate : option Z;
  rp_blocksize : option Z;
  rp_channels : Z
}.
Arguments Build_RecordplayArgs {F}.
Arguments rp_duration {F}.
Arguments rp_input_device {F}.
Arguments rp_output_device {F}.
Arguments rp_sample_rate {F}.
Arguments rp_blocksize {F}.
Arguments rp_channels {F}.

Definition truthy_str (s : option string) : bool :=
  match s with Some v => negb (String.eqb v "") | None => false end.

Definition truthy_sounds {F} (s : option (SoundsArg F)) : bool :=
  match s with
  | Some (SoundsList l) => negb (Nat.eqb (length l) 0)
  | Some (SoundsStr v) => negb (String.eqb v "")
  | None => false
  end.

Definition is_QueueFull (e : exn) : bool :=
  match e with QueueFull => true | _ => false end.

Definition is_QueueEmpty (e : exn) : bool :=
  match e with QueueEmpty => true | _ => false end.

Section Plugin.
Context {F : Type} `{PyFloat F}.
Variable env : Env F.
Variable self : SoundPlugin.

Definition log (msg : string) : M F unit := modify (emit (Log msg)).

(** *** The two state machines *)

Definition start_playback : M F unit :=
  modify (set_playback_state PlaybackState.PLAYING).

Definition stop_playback : M F unit :=
  modify (set_playback_state PlaybackState.STOPPED);;;
  log "Playback stopped".

Definition pause_playback : M F unit :=
  st <- gets playback_state;;
  match st with
  | PlaybackState.PAUSED =>
      modify (set_playback_state PlaybackState.PLAYING);;;
      log "Playback paused state toggled";;;
      modify (set_playback_paused_changed true)
  | PlaybackState.PLAYING =>
      modify (set_playback_state PlaybackState.PAUSED);;;
      log "Playback paused state toggled";;;
      modify (set_playback_paused_changed true)
  | PlaybackState.STOPPED => ret tt
  end.

Definition start_recording : M F unit :=
  modify (set_recording_state RecordingState.RECORDING).

Definition stop_recording : M F unit :=
  modify (set_recording_state RecordingState.STOPPED);;;
  log "Recording stopped".

Definition pause_recording : M F unit :=
  st <- gets recording_state;;
  match st with
  | RecordingState.PAUSED =>
      modify (set_recording_state RecordingState.RECORDING);;;
      log "Recording paused state toggled";;;
      modify (set_recording_paused_changed true)
  | RecordingState.RECORDING =>
      modify (set_recording_state RecordingState.PAUSED);;;
      log "Recording paused state toggled";;;
      modify (set_recording_paused_changed true)
  | RecordingState.STOPPED => ret tt
  end.

(** *** Scheduling *)

Definition run_ctl (c : Ctl) : M F unit :=
  match c with
  | CtlPausePlayback => pause_playback
  | CtlStopPlayback => stop_playback
  | CtlPauseRecording => pause_recording
  | CtlStopRecording => stop_recording
  end.

Fixpoint run_ctls (l : list Ctl) : M F unit :=
  match l with
  | [] => ret tt
  | c :: r => run_ctl c;;; run_ctls r
  end.

(** One scheduling slot: the clock advances and the other threads' calls
    of this slot take effect. *)
Definition ctl_step : M F unit :=
  fun w => run_ctls (env_ctl env (clock w)) (set_clock (S (clock w)) w).

(** The locked reads.  Whatever the other threads did since the last look
    is visible to them. *)
Definition _get_playback_state : M F PlaybackState.t :=
  ctl_step;;; gets playback_state.

Definition _get_recording_state : M F RecordingState.t :=
  ctl_step;;; gets recording_state.

(** A call into sounddevice, soundfile or PortAudio, which may fail. *)
Definition collaborator : M F unit :=
  fun w =>
    match env_fault env (clock w) with
    | Some e => (Raise e, set_clock (S (clock w)) w)
    | None => (Return tt, set_clock (S (clock w)) w)
    end.

(** [Event.wait()]: returns at once when the flag is set, otherwise lets
    the other threads run ([idle]) until one of them sets it. *)
Fixpoint event_wait (idle : M F unit) (flag : World F -> bool)
    (fuel : nat) : M F unit :=
  fun w =>
    if flag w then (Return tt, w)
    else
      match fuel with
      | O => (OutOfFuel, w)
      | S k => (idle;;; event_wait idle flag k) w
      end.

(** [while self._get_playback_state() == PlaybackState.PAUSED:
       self.playback_paused_changed.wait()] *)
Fixpoint wait_while_playback_paused (idle : M F unit) (fuel n : nat)
  : M F unit :=
  match n with
  | O => out_of_fuel
  | S k =>
      st <- _get_playback_state;;
      if PlaybackState.eqb st PlaybackState.PAUSED then
        event_wait idle playback_paused_changed fuel;;;
        wait_while_playback_paused idle fuel k
      else ret tt
  end.

Fixpoint wait_while_recording_paused (idle : M F unit) (fuel n : nat)
  : M F unit :=
  match n with
  | O => out_of_fuel
  | S k =>
      st <- _get_recording_state;;
      if RecordingState.eqb st RecordingState.PAUSED then
        event_wait idle recording_paused_changed fuel;;;
        wait_while_recording_paused idle fuel k
      else ret tt
  end.

(** *** queue.Queue *)

Definition q_full (w : World F) : bool :=
  (0 <? q_maxsize w) && (q_maxsize w <=? Z.of_nat (length (q w))).

Definition q_put_nowait (data : list F) : M F unit :=
  fun w =>
    if q_full w then (Raise QueueFull, w)
    else (Return tt, emit (QueuePut (length data)) (set_q (q w ++ [data]) w)).

(** [q.put(data, timeout=timeout)]: when the queue is full the other
    threads run for the length of the timeout, then the put is retried. *)
Definition q_put (idle : M F unit) (data : list F) : M F unit :=
  fun w => if q_full w then (idle;;; q_put_nowait data) w
           else q_put_nowait data w.

Definition q_get_nowait : M F (list F) :=
  fun w =>
    match q w with
    | [] => (Raise QueueEmpty, w)
    | d :: r => (Return d, set_q r w)
    end.

(** *** play: the callback *)

(** [(b'\x00' if file else 0.) * n], as samples *)
Definition silence (n : nat) : list F := repeat (f_of_int 0) n.

Definition audio_callback (blocksize : Z) (frames : Z)
    (status : CallbackFlags) (fuel : nat) : M F unit :=
  st <- _get_playback_state;;
  if PlaybackState.eqb st PlaybackState.STOPPED then raise CallbackAbort
  else
    wait_while_playback_paused ctl_step fuel fuel;;;
    if negb (frames =? blocksize) then raise AssertionError
    else if output_underflow status then
      (* [outdata = ... * len(outdata)] rebinds the parameter name: the
         device buffer itself is left as it was *)
      log "Output underflow: increase blocksize?"
    else if flags_bool status then raise AssertionError
    else
      data <- try_except q_get_nowait
                (fun e => if is_QueueEmpty e
                          then Some (log "Buffer is empty: increase buffersize?";;;
                                     raise CallbackAbort)
                          else None);;
      out <- gets outdata;;
      if (length data <? length out)%nat then
        modify (set_outdata (data ++ silence (length out - length data)))
      else if (length data =? length out)%nat then
        modify (set_outdata data)
      else raise ValueError.

(** The PortAudio thread: if the stream is running and the driver is due,
    it hands a buffer to the callback; an exception out of the callback
    stops the stream, which fires [finished_callback]. *)
Definition driver_step (blocksize : Z) (fuel : nat) : M F unit :=
  fun w =>
    if stream_active w then
      match env_driver env (clock w) with
      | None => (Return tt, w)
      | Some c =>
          match audio_callback blocksize (dc_frames c) (dc_status c) fuel
                  (set_outdata (dc_buffer c) w) with
          | (Return _, w') => (Return tt, emit (DeviceWrite (outdata w')) w')
          | (Raise _, w') =>
              (Return tt,
               set_completed_callback_event true (set_stream_active false w'))
          | (OutOfFuel, w') => (OutOfFuel, w')
          end
      end
    else (Return tt, w).

(** What runs while the thread of [play] is blocked. *)
Definition others (blocksize : Z) (fuel : nat) : M F unit :=
  ctl_step;;; driver_step blocksize fuel.

(** *** play: the caller's thread *)

Definition sleep (milliseconds : Z) : M F unit :=
  modify (emit (Sleep milliseconds));;; ctl_step.

(** [sd.query_hostapis()[0].get('default_' + category + '_device')] *)
Definition _get_default_device (category : string) : M F (option Z) :=
  collaborator;;; ret (env_default_device env category).

(** [if device is None: device = self.<configured>] and
    [if device is None: device = self._get_default_device(category)] *)
Definition device_or_default (given configured : option Z)
    (category : string) : M F (option Z) :=
  match given with
  | Some d => ret (Some d)
  | None =>
      match configured with
      | Some d => ret (Some d)
      | None => _get_default_device category
      end
  end.

(** [sf.SoundFile(file)] *)
Definition SoundFile_open (name : string) : M F unit :=
  collaborator;;;
  files <- gets fs;;
  match files !! name with
  | Some (RegularFile a) =>
      modify (emit (SoundFileOpen name false));;;
      modify (set_f (Some (Build_SoundFile name (af_samplerate a)
                             (af_channels a) (af_frames a) false)))
  | _ => raise (ExternalError 2)
  end.

(** [f.buffer_read(blocksize, dtype='float32')] *)
Definition buffer_read (h : SoundFile F) (blocksize : Z) : M F (list F) :=
  collaborator;;;
  let n := Z.to_nat blocksize in
  modify (emit (BufferRead (length (firstn n (sf_unread h)))));;;
  modify (set_f (Some (Build_SoundFile (sf_name h) (sf_samplerate h)
                         (sf_channels h) (skipn n (sf_unread h))
                         (sf_closed h))));;;
  ret (firstn n (sf_unread h)).

(** [min(a, b)] of Python: [b] only when [b < a]. *)
Definition py_min (a b : F) : F := if f_lt b a then b else a.

(** The statements both loops of [play] use to get the next block; [None]
    stands for their [break]. *)
Definition next_block (sounds : list (Sound F)) (blocksize samplerate : Z)
    (t : F) : M F (option (list F) * F) :=
  fh <- gets f;;
  match fh with
  | Some h =>
      data <- buffer_read h blocksize;;
      if (length data =? 0)%nat then ret (None, t) else ret (Some data, t)
  | None =>
      match sounds with
      | [] => raise IndexError
      | sound :: _ =>
          let blocktime := f_div (f_of_int blocksize) (f_of_int samplerate) in
          let next_t :=
            match duration sound with
            | Some d => py_min (f_add t blocktime) d
            | None => f_add t blocktime
            end in
          match get_wave sound t next_t samplerate with
          | inl e => raise e
          | inr data =>
              modify (emit (GetWave t next_t (length data)));;;
              match duration sound with
              | Some d =>
                  if f_le d next_t then ret (None, next_t)
                  else ret (Some data, next_t)
              | None => ret (Some data, next_t)
              end
          end
      end
  end.

(** [for _ in range(bufsize)]: the audio queue pre-fill loop; returns the
    cursor [t]. *)
Fixpoint prefill (n : nat) (sounds : list (Sound F))
    (blocksize samplerate : Z) (t : F) (fuel : nat) : M F F :=
  match n with
  | O => ret t
  | S k =>
      r <- next_block sounds blocksize samplerate t;;
      match r with
      | (None, t') => ret t'
      | (Some data, t') =>
          wait_while_playback_paused (others blocksize fuel) fuel fuel;;;
          st <- _get_playback_state;;
          if PlaybackState.eqb st PlaybackState.STOPPED
          then raise CallbackAbort
          else q_put_nowait data;;;
               prefill k sounds blocksize samplerate t' fuel
      end
  end.

(** [while True] inside [with stream]: the producer loop. *)
Fixpoint producer_loop (n : nat) (sounds : list (Sound F))
    (blocksize samplerate : Z) (t : F) (fuel : nat) : M F unit :=
  match n with
  | O => out_of_fuel
  | S k =>
      wait_while_playback_paused (others blocksize fuel) fuel fuel;;;
      r <- next_block sounds blocksize samplerate t;;
      match r with
      | (None, _) => ret tt
      | (Some data, t') =>
          st <- _get_playback_state;;
          if PlaybackState.eqb st PlaybackState.STOPPED
          then raise CallbackAbort
          else
            try_except (q_put (others blocksize fuel) data)
              (fun e =>
                 if is_QueueFull e then
                   Some (st' <- _get_playback_state;;
                         if negb (PlaybackState.eqb st' PlaybackState.PAUSED)
                         then raise QueueFull else ret tt)
                 else None);;;
            producer_loop k sounds blocksize samplerate t' fuel
      end
  end.

(** The [Sound] constructor applied to the dicts of [sounds], in order. *)
Definition Sound_of_item (i : SoundItem F) : M F (Sound F) :=
  match i with
  | ItemSound s => ret s
  | ItemDict d =>
      match Sound_init (d_midi_note d) (d_frequency d)
              (default (f_of_int 1) (d_gain d)) (d_duration d)
              STANDARD_A_FREQUENCY with
      | inr s => ret s
      | inl e => raise e
      end
  end.

Fixpoint Sound_of_items (l : list (SoundItem F)) : M F (list (Sound F)) :=
  match l with
  | [] => ret []
  | i :: r =>
      s <- Sound_of_item i;;
      rest <- Sound_of_items r;;
      ret (s :: rest)
  end.

Definition load_sounds (sounds : option (SoundsArg F))
  : M F (list (Sound F)) :=
  if truthy_sounds sounds then
    match sounds with
    | Some (SoundsStr s) =>
        match env_json_loads env s with
        | Some l => Sound_of_items l
        | None => raise ValueError
        end
    | Some (SoundsList l) => Sound_of_items l
    | None => ret []
    end
  else ret [].

(** [stream = streamtype(...)] and [with stream: body] *)
Definition with_stream {A} (samplerate blocksize : Z) (device : option Z)
    (channels : Z) (body : M F A) : M F A :=
  collaborator;;;
  modify (emit (StreamOpen samplerate blocksize device channels));;;
  collaborator;;;
  modify (set_stream_active true);;;
  try_finally body
    (modify (set_stream_active false);;; modify (emit StreamClose)).

(** [if f and not f.closed: f.close()] *)
Definition close_f : M F unit :=
  fh <- gets f;;
  match fh with
  | Some h =>
      if sf_closed h then ret tt
      else
        modify (emit (SoundFileClose (sf_name h)));;;
        modify (set_f (Some (Build_SoundFile (sf_name h) (sf_samplerate h)
                               (sf_channels h) (sf_unread h) true)))
  | None => ret tt
  end.

(** Lines 311-315: what [play] does about a session that is still going. *)
Definition stop_before_play (file : option string) : M F unit :=
  st <- _get_playback_state;;
  if negb (PlaybackState.eqb st PlaybackState.STOPPED) then
    if truthy_str file then
      log "Stopping playback before playing";;;
      stop_playback;;;
      sleep 2000
    else ret tt
  else ret tt.

(** The body of the [try] statement of [play]. *)
Definition play_try (a : PlayArgs F) (file : option string)
    (blocksize : Z) (device : option Z) (fuel : nat) : M F unit :=
  (match file with
   | Some name => if truthy_str file then SoundFile_open name else ret tt
   | None => ret tt
   end);;;
  fh <- gets f;;
  let samplerate :=
    if truthy_int (p_samplerate a) then default 0 (p_samplerate a)
    else match fh with
         | Some h => sf_samplerate h
         | None => _DEFAULT_SAMPLERATE
         end in
  let channels :=
    if truthy_int (p_channels a) then default 0 (p_channels a)
    else match fh with
         | Some h => sf_channels h
         | None => 1
         end in
  start_playback;;;
  log "Started playback";;;
  sounds <- load_sounds (p_sounds a);;
  t <- prefill (Z.to_nat (p_bufsize a)) sounds blocksize samplerate
         (f_of_int 0) fuel;;
  with_stream samplerate blocksize device channels
    (producer_loop fuel sounds blocksize samplerate t fuel;;;
     event_wait (others blocksize fuel) completed_callback_event fuel).

(** Lines 320-325 of [play]: the event is cleared and the objects of the new
    session are made. *)
Definition play_setup (a : PlayArgs F) : M F unit :=
  modify (set_playback_paused_changed false);;;
  modify (set_completed_callback_event false);;;
  modify (set_q []);;;
  modify (set_q_maxsize (p_bufsize a));;;
  modify (set_f None).

(** Lines 317-470 of [play]: all that follows the check of lines 311-315. *)
Definition play_session (a : PlayArgs F) (fuel : nat) : M F unit :=
  let blocksize := default (output_blocksize self) (p_blocksize a) in
  play_setup a;;;
  let file :=
    if truthy_str (p_file a) then option_map (env_abspath env) (p_file a)
    else p_file a in
  device <- device_or_default (p_device a) (output_device self) "output";;
  try_finally
    (try_except (play_try a file blocksize device fuel)
       (fun e => if is_QueueFull e
                 then Some (log "Playback timeout: audio callback failed?")
                 else None))
    (close_f;;; stop_playback).

Definition play (a : PlayArgs F) (fuel : nat) : M F unit :=
  if negb (truthy_str (p_file a)) && negb (truthy_sounds (p_sounds a))
  then raise RuntimeError
  else stop_before_play (p_file a);;; play_session a fuel.

(** *** record *)

Definition time_time : M F F := gets (fun w => env_time env (clock w)).

(** [q.get(block=True, timeout=...)]: on an empty queue the other threads
    run for the length of the timeout, then [queue.Empty] is raised. *)
Definition q_get_timeout (idle : M F unit) : M F (list F) :=
  fun w =>
    match q w with
    | [] => (idle;;; q_get_nowait) w
    | _ => q_get_nowait w
    end.

(** [q.get()]: blocks until a block is there. *)
Fixpoint q_get (idle : M F unit) (fuel : nat) : M F (list F) :=
  fun w =>
    match q w with
    | [] =>
        match fuel with
        | O => (OutOfFuel, w)
        | S k => (idle;;; q_get idle k) w
        end
    | _ => q_get_nowait w
    end.

(** The callback of [record]; [indata] is the buffer the driver delivers. *)
Definition record_audio_callback (indata : list F) (status : CallbackFlags)
    (fuel : nat) : M F unit :=
  wait_while_recording_paused ctl_step fuel fuel;;;
  (if flags_bool status then log "Recording callback status" else ret tt);;;
  q_put_nowait indata.

Definition record_driver_step (fuel : nat) : M F unit :=
  fun w =>
    if stream_active w then
      match env_driver env (clock w) with
      | None => (Return tt, w)
      | Some c =>
          match record_audio_callback (dc_buffer c) (dc_status c) fuel w with
          | (Return _, w') => (Return tt, w')
          | (Raise _, w') => (Return tt, set_stream_active false w')
          | (OutOfFuel, w') => (OutOfFuel, w')
          end
      end
    else (Return tt, w).

Definition record_others (fuel : nat) : M F unit :=
  ctl_step;;; record_driver_step fuel.

(** [os.path.isfile(file)] *)
Definition isfile (files : gmap string (FsNode F)) (name : string) : bool :=
  match files !! name with
  | Some (RegularFile _) => true
  | _ => false
  end.

(** [os.unlink(file)] *)
Definition unlink (name : string) : M F unit :=
  modify (emit (Unlink name));;;
  modify (fun w => set_fs (delete name (fs w)) w).

(** [sf.SoundFile(file, mode='x', samplerate=..., channels=...)]: creates
    the file and fails when the name is taken. *)
Definition SoundFile_create (name : string) (samplerate channels : Z)
  : M F unit :=
  collaborator;;;
  files <- gets fs;;
  match files !! name with
  | Some _ => raise (ExternalError 17)
  | None =>
      modify (emit (SoundFileOpen name true));;;
      modify (fun w =>
                set_fs (<[name := RegularFile
                                    (Build_AudioFile samplerate channels [])]>
                          (fs w)) w);;;
      modify (set_f (Some (Build_SoundFile name samplerate channels [] false)))
  end.

(** [f.write(data)] appends to the file on disk. *)
Definition SoundFile_write (name : string) (data : list F) : M F unit :=
  collaborator;;;
  modify (emit (FileWrite (length data)));;;
  modify (fun w =>
            match fs w !! name with
            | Some (RegularFile a) =>
                set_fs (<[name := RegularFile
                                    (Build_AudioFile (af_samplerate a)
                                       (af_channels a)
                                       (af_frames a ++ data))]> (fs w)) w
            | _ => w
            end).

Definition SoundFile_flush : M F unit :=
  collaborator;;; modify (emit FileFlush).

(** [with sf.SoundFile(...) as f: body] *)
Definition with_SoundFile {A} (name : string) (samplerate channels : Z)
    (body : M F A) : M F A :=
  SoundFile_create name samplerate channels;;;
  try_finally body close_f.

(** [while state != STOPPED and (duration is None or
           time.time() - recording_started_time < duration)] *)
Definition keep_recording (dur : option F) (started : F)
  : M F bool :=
  st <- _get_recording_state;;
  if RecordingState.eqb st RecordingState.STOPPED then ret false
  else
    match dur with
    | None => ret true
    | Some d => now <- time_time;; ret (f_lt (f_sub now started) d)
    end.

Fixpoint record_loop (n : nat) (name : string) (dur : option F)
    (started : F) (fuel : nat) : M F unit :=
  match n with
  | O => out_of_fuel
  | S k =>
      go <- keep_recording dur started;;
      if go then
        wait_while_recording_paused (record_others fuel) fuel fuel;;;
        data <- match dur with
                | Some _ => q_get_timeout (record_others fuel)
                | None => q_get (record_others fuel) fuel
                end;;
        SoundFile_write name data;;;
        record_loop k name dur started fuel
      else ret tt
  end.

(** Lines 506-508 of [record]. *)
Definition stop_before_record : M F unit :=
  st <- _get_recording_state;;
  if negb (RecordingState.eqb st RecordingState.STOPPED) then
    stop_recording;;; sleep 2000
  else ret tt.

(** Lines 506-520 of [record]: up to and including the removal of an
    existing file; returns the file name in use. *)
Definition record_prepare (a : RecordArgs F) : M F string :=
  stop_before_record;;;
  modify (set_recording_paused_changed false);;;
  let name :=
    match r_file a with
    | Some v => if truthy_str (r_file a) then env_abspath env v
                else env_mktemp env
    | None => env_mktemp env
    end in
  files <- gets fs;;
  (if isfile files name then
     log "Removing existing audio file";;; unlink name
   else ret tt);;;
  ret name.

(** Lines 522-582 of [record]. *)
Definition record_session (a : RecordArgs F) (name : string) (fuel : nat)
  : M F unit :=
  device <- device_or_default (r_device a) (input_device self) "input";;
  sample_rate <- match r_sample_rate a with
                 | Some sr => ret sr
                 | None =>
                     collaborator;;;
                     ret (env_default_samplerate env device)
                 end;;
  let blocksize := default (input_blocksize self) (r_blocksize a) in
  modify (set_q []);;;
  modify (set_q_maxsize 0);;;
  try_finally
    (try_except
       (with_SoundFile name sample_rate (r_channels a)
          (with_stream sample_rate blocksize device (r_channels a)
             (start_recording;;;
              log "Started recording";;;
              started <- time_time;;
              record_loop fuel name (r_duration a) started fuel);;;
           SoundFile_flush))
       (fun e => if is_QueueEmpty e
                 then Some (log "Recording timeout: audio callback failed?")
                 else None))
    stop_recording.

Definition record (a : RecordArgs F) (fuel : nat) : M F unit :=
  name <- record_prepare a;;
  record_session a name fuel.

(** *** recordplay *)

(** The callback of [recordplay]: [outdata[:] = indata]. *)
Definition recordplay_audio_callback (indata : list F)
    (status : CallbackFlags) (fuel : nat) : M F unit :=
  wait_while_recording_paused ctl_step fuel fuel;;;
  (if flags_bool status then log "Recording callback status" else ret tt);;;
  modify (set_outdata indata).

Definition recordplay_driver_step (fuel : nat) : M F unit :=
  fun w =>
    if stream_active w then
      match env_driver env (clock w) with
      | None => (Return tt, w)
      | Some c =>
          match recordplay_audio_callback (dc_buffer c) (dc_status c)
                  fuel w with
          | (Return _, w') => (Return tt, emit (DeviceWrite (outdata w')) w')
          | (Raise _, w') => (Return tt, set_stream_active false w')
          | (OutOfFuel, w') => (OutOfFuel, w')
          end
      end
    else (Return tt, w).

Definition recordplay_others (fuel : nat) : M F unit :=
  ctl_step;;; recordplay_driver_step fuel.

Fixpoint recordplay_loop (n : nat) (dur : option F) (started : F)
    (fuel : nat) : M F unit :=
  match n with
  | O => out_of_fuel
  | S k =>
      go <- keep_recording dur started;;
      if go then
        wait_while_recording_paused (recordplay_others fuel) fuel fuel;;;
        modify (emit (Sleep 100));;;
        recordplay_others fuel;;;
        recordplay_loop k dur started fuel
      else ret tt
  end.

(** Lines 619-621 of [recordplay]. *)
Definition stop_playback_before_recordplay : M F unit :=
  st <- _get_playback_state;;
  if negb (PlaybackState.eqb st PlaybackState.STOPPED) then
    stop_playback;;; sleep 2000
  else ret tt.

(** Lines 623-625 are the statements of lines 506-508 of [record]. *)
Definition recordplay (a : RecordplayArgs F) (fuel : nat) : M F unit :=
  stop_playback_before_recordplay;;;
  stop_before_record;;;
  modify (set_playback_paused_changed false);;;
  modify (set_recording_paused_changed false);;;
  input <- device_or_default (rp_input_device a) (input_device self)
             "input";;
  output <- device_or_default (rp_output_device a) (output_device self)
              "output";;
  sample_rate <- match rp_sample_rate a with
                 | Some sr => ret sr
                 | None =>
                     collaborator;;;
                     ret (env_default_samplerate env input)
                 end;;
  let blocksize := default (output_blocksize self) (rp_blocksize a) in
  try_finally
    (try_except
       (with_stream sample_rate blocksize output (rp_channels a)
          (start_recording;;;
           start_playback;;;
           log "Started recording pass-through";;;
           started <- time_time;;
           recordplay_loop fuel (rp_duration a) started fuel))
       (fun e => if is_QueueEmpty e
                 then Some (log "Recording timeout: audio callback failed?")
                 else None))
    (stop_playback;;; stop_recording).

(** [get_state] *)
Definition get_state : M F (PlaybackState.t * RecordingState.t) :=
  p <- _get_playback_state;;
  r <- _get_recording_state;;
  ret (p, r).

End Plugin.

(** ** Definitions that follow the specification's wording

    They are compared below with what the source computes. *)

(** Rounding to the nearest integer. *)
Definition round_nearest (x : R) : Z := Zfloor (x + / 2).

(** "midiNote = round(69 + 12*log2(frequency/440))" *)
Definition spec_freq_to_note (frequency : R) : Z :=
  round_nearest (69 + 12 * (ln (frequency / 440) / ln 2)).

(** "Produces gain * sin(2 pi frequency t) sampled uniformly over
    [tStart, tEnd) at sampleRate; block length =
    round((tEnd-tStart)*sampleRate)" *)
Definition spec_get_wave (s : Sound R) (t_start t_end : R) (samplerate : Z)
  : list R :=
  map (fun i => gain s * sin (2 * PI * frequency s
                              * (t_start + INR i / IZR samplerate)))%R
      (seq 0 (Z.to_nat (round_nearest ((t_end - t_start) * IZR samplerate)))).

(** ** Reading a trace *)

(** The samples handed to the audio queue, over a whole trace. *)
Fixpoint enqueued_frames {F} (tr : list (Event F)) : nat :=
  match tr with
  | [] => 0
  | QueuePut n :: r => n + enqueued_frames r
  | _ :: r => enqueued_frames r
  end.

(** The [t_end] of every synthesis call of a trace. *)
Fixpoint synthesis_t_ends {F} (tr : list (Event F)) : list F :=
  match tr with
  | [] => []
  | GetWave _ t_end _ :: r => t_end :: synthesis_t_ends r
  | _ :: r => synthesis_t_ends r
  end.

(** The sound file object of the call is closed (or there is none). *)
Definition f_closed {F} (w : World F) : Prop :=
  match f w with
  | Some h => sf_closed h = true
  | None => True
  end.

(** ** The public operations, taken together *)

Inductive Operation (F : Type) : Type :=
| OpPlay (a : PlayArgs F)
| OpRecord (a : RecordArgs F)
| OpRecordplay (a : RecordplayArgs F).
Arguments OpPlay {F}.
Arguments OpRecord {F}.
Arguments OpRecordplay {F}.

Definition run_operation {F} `{PyFloat F} (env : Env F) (self : SoundPlugin)
    (op : Operation F) (fuel : nat) : M F unit :=
  match op with
  | OpPlay a => play env self a fuel
  | OpRecord a => record env self a fuel
  | OpRecordplay a => recordplay env self a fuel
  end.

(** The state machines an operation drives are stopped and its sound file
    is closed.  For [record] the file object is the one its [with] statement
    made; a call that never got to make one leaves [f] alone. *)
Definition settled {F} (op : Operation F) (w w' : World F) : Prop :=
  match op with
  | OpPlay _ =>
      playback_state w' = PlaybackState.STOPPED /\ f_closed w'
  | OpRecord _ =>
      recording_state w' = RecordingState.STOPPED
      /\ (f_closed w' \/ f w' = f w)
  | OpRecordplay _ =>
      playback_state w' = PlaybackState.STOPPED
      /\ recording_state w' = RecordingState.STOPPED
  end.

(** The two ways [play] can raise before it enters its [try] statement
    without having stopped anything, in a call without a file: no source at
    all, where the call ends in the world it started in; or the lookup of
    the default output device itself raises, where the call ends with the
    exception and in the world of that lookup, made right after the check
    of the running session and the setup of lines 320-325. *)
Definition failed_before_try {F} `{PyFloat F} (env : Env F)
    (self : SoundPlugin) (op : Operation F) (w : World F)
    (o : outcome unit) (w' : World F) : Prop :=
  match op with
  | OpPlay a =>
      truthy_str (p_file a) = false
      /\ ((truthy_sounds (p_sounds a) = false
           /\ o = Raise RuntimeError /\ w' = w)
          \/ (p_device a = None /\ output_device self = None
              /\ exists w0 e,
                   (stop_before_play env (p_file a);;; play_setup a) w
                   = (Return tt, w0)
                   /\ _get_default_device env "output" w0 = (Raise e, w')
                   /\ o = Raise e))
  | OpRecord _ => False
  | OpRecordplay _ => False
  end.

(** ** Reasoning about programs of the monad *)

(** [post m w Q]: whenever [m], started in [w], returns or raises, [Q] holds
    of the outcome and the final world. *)
Definition post {F A} (m : M F A) (w : World F)
    (Q : outcome A -> World F -> Prop) : Prop :=
  forall o w', m w = (o, w') -> o <> OutOfFuel -> Q o w'.

(** What a step of the other threads, and any call that starts no session,
    can do to the world: a stopped machine stays stopped, the sound file
    object and the disk are untouched, the trace only grows. *)
Record frame {F} (w w' : World F) : Prop := {
  frame_playback :
    playback_state w = PlaybackState.STOPPED ->
    playback_state w' = PlaybackState.STOPPED;
  frame_recording :
    recording_state w = RecordingState.STOPPED ->
    recording_state w' = RecordingState.STOPPED;
  frame_f : f w' = f w;
  frame_fs : fs w' = fs w;
  frame_trace : exists l, trace w' = trace w ++ l
}.

(** [m] neither reads nor writes the disk. *)
Definition fs_blind {F A} (m : M F A) : Prop :=
  forall v w, m (set_fs v w) = (fst (m w), set_fs v (snd (m w))).

Ltac unfold_monad :=
  unfold bind, ret, raise, modify, gets, log, out_of_fuel in *.

(** ** Concrete inputs *)

Module Fixtures.

(** The plugin as [__init__] configures it by default. *)
Definition plugin : SoundPlugin :=
  {| input_device := None; output_device := None;
     input_blocksize := _DEFAULT_BLOCKSIZE;
     output_blocksize := _DEFAULT_BLOCKSIZE;
     playback_bufsize := _DEFAULT_BUFSIZE |}.

(** No other thread acts, nothing fails, no stream callback is due. *)
Definition quiet : Env R :=
  {| env_ctl := fun _ => [];
     env_driver := fun _ => None;
     env_fault := fun _ => None;
     env_abspath := fun s => s;
     env_mktemp := "platypush_recording_.wav";
     env_default_device := fun _ => Some 0;
     env_default_samplerate := fun _ => 44100;
     env_json_loads := fun _ => None;
     env_time := fun n => INR n |}.

(** As [quiet], with the driver asking for two frames in every slot. *)
Definition driven : Env R :=
  {| env_ctl := fun _ => [];
     env_driver := fun _ => Some (Build_DriverCall 2 no_flags [0%R; 0%R]);
     env_fault := fun _ => None;
     env_abspath := fun s => s;
     env_mktemp := "platypush_recording_.wav";
     env_default_device := fun _ => Some 0;
     env_default_samplerate := fun _ => 44100;
     env_json_loads := fun _ => None;
     env_time := fun n => INR n |}.

Definition idle_world : World R :=
  mkWorld PlaybackState.STOPPED false RecordingState.STOPPED false
    ∅ None [] 0 [] false false 0 [].

(** A session is playing; the device buffer holds two stale samples. *)
Definition playing_world : World R :=
  set_outdata [1%R; 1%R]
    (set_playback_state PlaybackState.PLAYING idle_world).

Definition three_frames : AudioFile R :=
  Build_AudioFile 8000 1 [1%R; 1%R; 1%R].

(** A session is playing and [a.wav] is on disk. *)
Definition playing_world_with_file : World R :=
  set_fs {[ "a.wav"%string := RegularFile three_frames ]} playing_world.

(** [rec.wav] is on disk, nothing is running. *)
Definition idle_world_with_file : World R :=
  set_fs {[ "rec.wav"%string := RegularFile three_frames ]} idle_world.

Definition a440 : Sound R := mkSound 69 440%R 1%R (Some 1%R).

(** [Sound(frequency=1.0)]: one hertz, full gain. *)
Definition one_hertz : Sound R := mkSound (-36) 1%R 1%R None.

(** [play()] *)
Definition play_nothing : PlayArgs R :=
  Build_PlayArgs None None None None _DEFAULT_BUFSIZE None None.

(** [play(sounds=[{}])]: a descriptor with neither note nor frequency *)
Definition play_bad_descriptor : PlayArgs R :=
  Build_PlayArgs None
    (Some (SoundsList [ItemDict (Build_SoundDict None None None None)]))
    None None _DEFAULT_BUFSIZE None None.

(** [play(file='a.wav', sounds=[a440], blocksize=2)] *)
Definition play_both : PlayArgs R :=
  Build_PlayArgs (Some "a.wav"%string) (Some (SoundsList [ItemSound a440]))
    None (Some 2) _DEFAULT_BUFSIZE None None.

(** [play(file='a.wav', sounds=[{}], blocksize=2)] *)
Definition play_file_and_bad_sounds : PlayArgs R :=
  Build_PlayArgs (Some "a.wav"%string)
    (Some (SoundsList [ItemDict (Build_SoundDict None None None None)]))
    None (Some 2) _DEFAULT_BUFSIZE None None.

(** [play(sounds=[a440])] *)
Definition play_sounds : PlayArgs R :=
  Build_PlayArgs None (Some (SoundsList [ItemSound a440]))
    None None _DEFAULT_BUFSIZE None None.

(** As [quiet], with every call into the sound libraries failing. *)
Definition no_device : Env R :=
  {| env_ctl := fun _ => [];
     env_driver := fun _ => None;
     env_fault := fun _ => Some (ExternalError 1);
     env_abspath := fun s => s;
     env_mktemp := "platypush_recording_.wav";
     env_default_device := fun _ => None;
     env_default_samplerate := fun _ => 44100;
     env_json_loads := fun _ => None;
     env_time := fun n => INR n |}.

(** A stand-in for the C library in closed examples over binary64: [**]
    and [math.log] fail and [sin] is the first term of its series. *)
Definition small_angle : Binary64.Libm :=
  {| Binary64.libm_pow := fun _ _ => None;
     Binary64.libm_log := fun _ _ => None;
     Binary64.libm_sin := fun x => x |}.

(** As [driven], with the call into the sound library in slot 12 failing:
    for [play_both] on [playing_world_with_file] that is the start of the
    stream. *)
Definition start_fails : Env R :=
  {| env_ctl := fun _ => [];
     env_driver := fun _ => Some (Build_DriverCall 2 no_flags [0%R; 0%R]);
     env_fault := fun n => if Nat.eqb n 12 then Some (ExternalError 1) else None;
     env_abspath := fun s => s;
     env_mktemp := "platypush_recording_.wav";
     env_default_device := fun _ => Some 0;
     env_default_samplerate := fun _ => 44100;
     env_json_loads := fun _ => None;
     env_time := fun n => INR n |}.

(** The driver delivers two captured samples in every slot and another
    thread calls [stop_recording] in slot 12. *)
Definition stopped_later : Env R :=
  {| env_ctl := fun n => if (n =? 12)%nat then [CtlStopRecording] else [];
     env_driver := fun _ => Some (Build_DriverCall 2 no_flags [1%R; 0%R]);
     env_fault := fun _ => None;
     env_abspath := fun s => s;
     env_mktemp := "platypush_recording_.wav";
     env_default_device := fun _ => Some 0;
     env_default_samplerate := fun _ => 44100;
     env_json_loads := fun _ => None;
     env_time := fun n => INR n |}.

(** [record(file='rec.wav')] *)
Definition record_over : RecordArgs R :=
  Build_RecordArgs (Some "rec.wav"%string) None None None None 1.

(** The binary64 side: a 440 Hz tone of one second. *)
Definition tone : Sound PrimFloat.float :=
  mkSound 69 (Binary64.of_Z 440) (Binary64.of_Z 1) (Some (Binary64.of_Z 1)).

Definition quiet64 : Env PrimFloat.float :=
  {| env_ctl := fun _ => [];
     env_driver := fun _ => None;
     env_fault := fun _ => None;
     env_abspath := fun s => s;
     env_mktemp := "platypush_recording_.wav";
     env_default_device := fun _ => Some 0;
     env_default_samplerate := fun _ => 44100;
     env_json_loads := fun _ => None;
     env_time := fun n => Binary64.of_Z (Z.of_nat n) |}.

(** As [quiet64], with the driver asking for [frames] frames per slot. *)
Definition driven64 (frames : Z) : Env PrimFloat.float :=
  {| env_ctl := fun _ => [];
     env_driver := fun _ =>
       Some (Build_DriverCall frames no_flags
               (repeat (Binary64.of_Z 0) (Z.to_nat frames)));
     env_fault := fun _ => None;
     env_abspath := fun s => s;
     env_mktemp := "platypush_recording_.wav";
     env_default_device := fun _ => Some 0;
     env_default_samplerate := fun _ => 44100;
     env_json_loads := fun _ => None;
     env_time := fun n => Binary64.of_Z (Z.of_nat n) |}.

Definition idle_world64 : World PrimFloat.float :=
  mkWorld PlaybackState.STOPPED false RecordingState.STOPPED false
    ∅ None [] 0 [] false false 0 [].

(** [play(sounds=[tone], samplerate=8000, blocksize=..., bufsize=...)] *)
Definition play_tone (blocksize : option Z) (bufsize : Z)
  : PlayArgs PrimFloat.float :=
  Build_PlayArgs None (Some (SoundsList [ItemSound tone])) None blocksize
    bufsize (Some 8000) None.

End Fixtures.

(** ** The binary64 sessions of [play] *)

(** Every float of the list is at most [bound]. *)
Definition all_le (bound : PrimFloat.float) (l : list PrimFloat.float) : bool :=
  forallb (fun x => PrimFloat.leb x bound) l.

(** [play] on the default plugin, from the idle world, with the C library
    [m] behind the float operations. *)
Definition session (m : Binary64.Libm) (env : Env PrimFloat.float)
    (a : PlayArgs PrimFloat.float) (fuel : nat)
  : outcome unit * World PrimFloat.float :=
  @play _ (Binary64.ops m) env Fixtures.plugin a fuel Fixtures.idle_world64.

(** ** Definitions used by the theorems on the classes and the sessions *)

(** ** More of class Sound *)

(** The value of the wave at the instant [x]:
    [self.gain * np.sin(2 * np.pi * self.frequency * x)] for one element. *)
Definition wave_sample {F} `{PyFloat F} (self : Sound F) (x : F) : F :=
  f_mul (gain self)
    (f_sin (f_mul (f_mul (f_mul (f_of_int 2) f_pi) (frequency self)) x)).

(** ** What the control actions can do *)

(** The effect on the world of any number of [pause_*] and [stop_*] calls:
    a stopped machine stays stopped, an event that is set stays set, and
    nothing but the two machines, the two events and the log changes. *)
Record control_effect {F} (w w' : World F) : Prop := {
  ce_playback :
    playback_state w = PlaybackState.STOPPED ->
    playback_state w' = PlaybackState.STOPPED;
  ce_recording :
    recording_state w = RecordingState.STOPPED ->
    recording_state w' = RecordingState.STOPPED;
  ce_playback_event :
    playback_paused_changed w = true -> playback_paused_changed w' = true;
  ce_recording_event :
    recording_paused_changed w = true -> recording_paused_changed w' = true;
  ce_q : q w' = q w;
  ce_q_maxsize : q_maxsize w' = q_maxsize w;
  ce_outdata : outdata w' = outdata w;
  ce_stream_active : stream_active w' = stream_active w;
  ce_completed :
    completed_callback_event w' = completed_callback_event w;
  ce_f : f w' = f w;
  ce_fs : fs w' = fs w
}.

(** [m] keeps the property [I] of the world and raises only exceptions of
    [E]: started where [I] holds, whenever it returns or raises, [I] holds
    again and the exception, if any, is in [E]. *)
Definition keeps {F A} (I : World F -> Prop) (E : exn -> Prop) (m : M F A)
  : Prop :=
  forall w, I w ->
    post m w (fun o w' => I w' /\ forall e, o = Raise e -> E e).

(** [I] does not depend on the state machines, the events, the device
    buffer or the trace, and survives a tick of the clock, taking a block
    from the queue and the end of the stream. *)
Record stable {F} (I : World F -> Prop) : Prop := {
  st_playback_state : forall v w, I w -> I (set_playback_state v w);
  st_playback_paused_changed :
    forall v w, I w -> I (set_playback_paused_changed v w);
  st_recording_state : forall v w, I w -> I (set_recording_state v w);
  st_recording_paused_changed :
    forall v w, I w -> I (set_recording_paused_changed v w);
  st_outdata : forall v w, I w -> I (set_outdata v w);
  st_completed_callback_event :
    forall v w, I w -> I (set_completed_callback_event v w);
  st_clock : forall w, I w -> I (set_clock (S (clock w)) w);
  st_emit : forall e w, I w -> I (emit e w);
  st_q_pop : forall d r w, q w = d :: r -> I w -> I (set_q r w);
  st_stream_off : forall w, I w -> I (set_stream_active false w)
}.

(** [I] does not depend on the sound file object. *)
Definition file_stable {F} (I : World F -> Prop) : Prop :=
  forall v w, I w -> I (set_f v w).

(** [I] does not depend on the queue. *)
Record queue_stable {F} (I : World F -> Prop) : Prop := {
  st_q : forall v w, I w -> I (set_q v w);
  st_q_maxsize : forall v w, I w -> I (set_q_maxsize v w)
}.

(** The name [record] writes to (lines 512-516): the absolute path of
    [file], or a fresh temporary name. *)
Definition record_file {F} (env : Env F) (a : RecordArgs F) : string :=
  match r_file a with
  | Some v => if truthy_str (r_file a) then env_abspath env v
              else env_mktemp env
  | None => env_mktemp env
  end.

(** The disk of [w] is [v] but for the entry [name]. *)
Definition same_but {F} (name : string) (v : gmap string (FsNode F))
    (w : World F) : Prop :=
  forall k, k <> name -> fs w !! k = v !! k.

(** Every exception. *)
Definition any_exn : exn -> Prop := fun _ => True.

(** The queue has the bound [b] and, when [b] is a bound at all, room for
    [n] more blocks. *)
Definition queue_room {F} (n : nat) (b : Z) (w : World F) : Prop :=
  q_maxsize w = b
  /\ (b <= 0 \/ Z.of_nat (length (q w)) + Z.of_nat n <= b).

(** Every exception but [queue.Full]. *)
Definition not_QueueFull (e : exn) : Prop := is_QueueFull e = false.

(** [w'] is [w] at a later time. *)
Definition later {F} (w w' : World F) : Prop :=
  exists c, w' = set_clock c w.

(** * Theorems *)

(** ** Real-number facts behind the ideal instance *)

Section RealFacts.
Local Open Scope R_scope.

Lemma Rtrunc_eq (z : Z) (x : R) :
  (0 <= z)%Z -> IZR z <= x < IZR z + 1 -> Rtrunc x = z.
Proof.
  intros Hz Hx. unfold Rtrunc.
  assert (0 <= IZR z) by (apply IZR_le; exact Hz).
  destruct (Rle_dec 0 x) as [_|n]; [apply Zfloor_eq; exact Hx | exfalso; lra].
Qed.

Lemma Rtrunc_IZR (z : Z) : Rtrunc (IZR z) = z.
Proof.
  unfold Rtrunc. destruct (Rle_dec 0 (IZR z)).
  - apply ZfloorZ.
  - unfold Zceil. rewrite <- opp_IZR, ZfloorZ. lia.
Qed.

Lemma Rtruthy_0 : Rtruthy 0 = false.
Proof. unfold Rtruthy. destruct (Req_dec_T 0 0); [reflexivity | congruence]. Qed.

Lemma Rtruthy_nonzero (x : R) : x <> 0 -> Rtruthy x = true.
Proof.
  intros Hx. unfold Rtruthy.
  destruct (Req_dec_T x 0); [contradiction | reflexivity].
Qed.

Lemma ln_2_pos : 0 < ln 2.
Proof. rewrite <- ln_1. apply ln_increasing; lra. Qed.

(** [k / n < log2 r] as soon as [2^k < r^n], and the other way round. *)
Lemma log2_gt (r : R) (k n : nat) :
  0 < r -> (0 < n)%nat -> 2 ^ k < r ^ n -> INR k / INR n < ln r / ln 2.
Proof.
  intros Hr Hn Hp.
  assert (Hl := ln_2_pos).
  assert (HN : 0 < INR n) by (apply lt_0_INR; exact Hn).
  assert (H2 : ln (2 ^ k) < ln (r ^ n)).
  { apply ln_increasing; [apply pow_lt; lra | exact Hp]. }
  rewrite !ln_pow in H2 by lra.
  apply (Rmult_lt_reg_r (INR n * ln 2)); [nra|].
  replace (INR k / INR n * (INR n * ln 2)) with (INR k * ln 2) by (field; lra).
  replace (ln r / ln 2 * (INR n * ln 2)) with (INR n * ln r) by (field; lra).
  exact H2.
Qed.

Lemma log2_lt (r : R) (k n : nat) :
  0 < r -> (0 < n)%nat -> r ^ n < 2 ^ k -> ln r / ln 2 < INR k / INR n.
Proof.
  intros Hr Hn Hp.
  assert (Hl := ln_2_pos).
  assert (HN : 0 < INR n) by (apply lt_0_INR; exact Hn).
  assert (H2 : ln (r ^ n) < ln (2 ^ k)).
  { apply ln_increasing; [apply pow_lt; lra | exact Hp]. }
  rewrite !ln_pow in H2 by lra.
  apply (Rmult_lt_reg_r (INR n * ln 2)); [nra|].
  replace (INR k / INR n * (INR n * ln 2)) with (INR k * ln 2) by (field; lra).
  replace (ln r / ln 2 * (INR n * ln 2)) with (INR n * ln r) by (field; lra).
  exact H2.
Qed.

Lemma pow_ratio (a b : R) (n : nat) : (a / b) ^ n = a ^ n / b ^ n.
Proof. unfold Rdiv. rewrite Rpow_mult_distr, pow_inv. reflexivity. Qed.

Lemma Rlt_div_r (a b c : R) : 0 < c -> a * c < b -> a < b / c.
Proof.
  intros Hc Hab. apply (Rmult_lt_reg_r c); [exact Hc|].
  unfold Rdiv. rewrite Rmult_assoc, Rinv_l, Rmult_1_r by lra. exact Hab.
Qed.

Lemma Rlt_div_l (a b c : R) : 0 < c -> a < b * c -> a / c < b.
Proof.
  intros Hc Hab. apply (Rmult_lt_reg_r c); [exact Hc|].
  unfold Rdiv. rewrite Rmult_assoc, Rinv_l, Rmult_1_r by lra. exact Hab.
Qed.

(** 460 Hz lies between A4 and A#4, nearer to A#4:
    [12 * log2(460/440)] is about 0.77. *)
Lemma log2_460_440 : / 2 < 12 * (ln (460 / 440) / ln 2) < 1.
Proof.
  assert (Hr : 0 < 460 / 440) by lra.
  split.
  - assert (Hg := log2_gt (460 / 440) 1 24 Hr ltac:(lia)).
    simpl INR in Hg.
    assert (Hp : 2 ^ 1 < (460 / 440) ^ 24).
    { rewrite pow_ratio. apply Rlt_div_r; [apply pow_lt; lra|].
      rewrite !pow_IZR, <- mult_IZR. apply IZR_lt. reflexivity. }
    specialize (Hg Hp). lra.
  - assert (Hg := log2_lt (460 / 440) 1 12 Hr ltac:(lia)).
    simpl INR in Hg.
    assert (Hp : (460 / 440) ^ 12 < 2 ^ 1).
    { rewrite pow_ratio. apply Rlt_div_l; [apply pow_lt; lra|].
      rewrite !pow_IZR, <- mult_IZR. apply IZR_lt. reflexivity. }
    specialize (Hg Hp). lra.
Qed.

End RealFacts.

(** ** class Sound (C1, C7, C9) *)

(** Over the reals the round trip of C1 is exact for every integer note:
    the value handed to [int()] is the note itself, so truncation does no
    harm.  In binary64 the value can land just below the note. *)
Lemma note_freq_round_trip_ideal (n : Z) (A : R) :
  (0 < A)%R ->
  match note_to_freq (F := R) n A with
  | inr fr => freq_to_note fr A
  | inl e => inl e
  end = inr n.
Proof.
  intros HA. unfold note_to_freq, freq_to_note, STANDARD_A_MIDI_NOTE. cbn.
  rewrite (Rtruthy_nonzero A) by lra.
  assert (Hp : (0 < Rpower 2 (IZR (n - 69) / 12))%R)
    by (unfold Rpower; apply exp_pos).
  assert (E : (Rpower 2 (IZR (n - 69) / 12) * A / A)%R
              = Rpower 2 (IZR (n - 69) / 12)) by (field; lra).
  rewrite E. unfold Rlog.
  destruct (Rlt_dec 0 (Rpower 2 (IZR (n - 69) / 12))) as [_|c];
    [|contradiction].
  f_equal. rewrite ln_Rpower.
  assert (Hl := ln_2_pos).
  replace (12 * (IZR (n - 69) / 12 * ln 2 / ln 2) + 69)%R with (IZR n).
  - apply Rtrunc_IZR.
  - rewrite minus_IZR. field. lra.
Qed.

(** The two ideal sounds of the fixtures are what the constructor makes of
    [Sound(midi_note=69, duration=1.0)] and of [Sound(frequency=1.0)]. *)
Lemma a440_constructed :
  Sound_init (Some 69) None 1%R (Some 1%R) STANDARD_A_FREQUENCY
  = inr Fixtures.a440.
Proof.
  unfold Sound_init, note_to_freq, STANDARD_A_FREQUENCY, STANDARD_A_MIDI_NOTE.
  change (69 - 69)%Z with 0%Z. cbn. unfold Fixtures.a440. do 2 f_equal.
  replace (0 / 12)%R with 0%R by lra.
  rewrite Rpower_O by lra. lra.
Qed.

Lemma one_hertz_constructed :
  Sound_init None (Some 1%R) 1%R None STANDARD_A_FREQUENCY
  = inr Fixtures.one_hertz.
Proof.
  unfold Sound_init, freq_to_note, STANDARD_A_FREQUENCY, STANDARD_A_MIDI_NOTE.
  cbn. rewrite !Rtruthy_nonzero by lra. unfold Rlog.
  destruct (Rlt_dec 0 (1 / 440)) as [_|n]; [|exfalso; apply n; lra].
  unfold Fixtures.one_hertz. do 2 f_equal.
  assert (Hl := ln_2_pos).
  assert (E : ln (1 / 440) = (- ln 440)%R).
  { unfold Rdiv. rewrite Rmult_1_l. apply ln_Rinv. lra. }
  assert (Hlo := log2_gt 440 105 12 ltac:(lra) ltac:(lia)).
  assert (Hhi := log2_lt 440 106 12 ltac:(lra) ltac:(lia)).
  assert (P1 : (2 ^ 105 < 440 ^ 12)%R)
    by (rewrite !pow_IZR; apply IZR_lt; reflexivity).
  assert (P2 : (440 ^ 12 < 2 ^ 106)%R)
    by (rewrite !pow_IZR; apply IZR_lt; reflexivity).
  specialize (Hlo P1). specialize (Hhi P2).
  rewrite !INR_IZR_INZ in Hlo, Hhi.
  change (Z.of_nat 105) with 105%Z in Hlo.
  change (Z.of_nat 106) with 106%Z in Hhi.
  change (Z.of_nat 12) with 12%Z in Hlo, Hhi.
  unfold Rtrunc.
  destruct (Rle_dec 0 (12 * (ln (1 / 440) / ln 2) + 69)) as [Hc|_].
  - exfalso. rewrite E in Hc.
    replace (12 * (- ln 440 / ln 2) + 69)%R
      with (69 - 12 * (ln 440 / ln 2))%R in Hc by (field; lra).
    lra.
  - apply Zceil_eq. rewrite E.
    replace (12 * (- ln 440 / ln 2) + 69)%R
      with (69 - 12 * (ln 440 / ln 2))%R by (field; lra).
    lra.
Qed.

(** C1, where the code departs from it: [freq_to_note] truncates.  For
    460 Hz the value [12*log2(460/440) + 69] is about 69.77; the source
    returns 69, the nearest note, which the claim and the docstring of
    [freq_to_note] ask for, is 70. *)
Theorem freq_to_note_truncates :
  freq_to_note (F := R) 460%R STANDARD_A_FREQUENCY = inr 69
  /\ spec_freq_to_note 460 = 70.
Proof.
  assert (Hb := log2_460_440).
  split.
  - unfold freq_to_note, STANDARD_A_FREQUENCY, STANDARD_A_MIDI_NOTE. cbn.
    rewrite Rtruthy_nonzero by lra. unfold Rlog.
    destruct (Rlt_dec 0 (460 / 440)) as [_|n]; [|exfalso; apply n; lra].
    f_equal. apply Rtrunc_eq; [lia|]. lra.
  - unfold spec_freq_to_note, round_nearest. apply Zfloor_eq. lra.
Qed.

(** C9: [Sound(midi_note=0)] raises, and more generally a [midi_note] of 0
    is handled exactly like an absent one, whatever the other arguments;
    likewise a [frequency] of 0.0 is handled like an absent one, in the
    ideal and in the binary64 instance. *)
Theorem Sound_init_zero_is_absent :
  (forall (F : Type) (ops : PyFloat F) (fr : option F) (g : F)
          (d : option F) (A : F),
      Sound_init (Some 0) None g d A = inl RuntimeError
      /\ Sound_init (Some 0) fr g d A = Sound_init None fr g d A)
  /\ (forall (mn : option Z) (g : R) (d : option R) (A : R),
         Sound_init mn (Some 0%R) g d A = Sound_init mn None g d A)
  /\ (forall (m : Binary64.Libm) (mn : option Z) (g : PrimFloat.float)
             (d : option PrimFloat.float) (A : PrimFloat.float),
         @Sound_init _ (Binary64.ops m) mn (Some PrimFloat.zero) g d A
         = @Sound_init _ (Binary64.ops m) mn None g d A).
Proof.
  split; [|split].
  - intros F ops fr g d A. split; [reflexivity|].
    unfold Sound_init. cbn. destruct (truthy_float fr); reflexivity.
  - intros mn g d A. unfold Sound_init. cbn. rewrite Rtruthy_0.
    destruct (truthy_int mn); reflexivity.
  - intros m mn g d A. unfold Sound_init. cbn.
    destruct (truthy_int mn); reflexivity.
Qed.

Section Wave.
Local Open Scope R_scope.

(** The sample instants of [get_wave(t_start=0, t_end=1, samplerate=4)]:
    a step of 1/3, and [t_end] itself as the last one. *)
Lemma get_wave_x_0_1_4 :
  get_wave_x (F := R) 0 1 4
  = inr [0 * (1 / 3) + 0; 1 * (1 / 3) + 0; 2 * (1 / 3) + 0; 1].
Proof.
  unfold get_wave_x, py_int. cbn [f_int f_mul f_sub f_of_int R_float].
  replace (Rtrunc ((1 - 0) * 4)) with 4%Z
    by (symmetry; apply Rtrunc_eq; [lia | lra]).
  change (4 <? 0)%Z with false. cbv iota. unfold linspace.
  change (4 - 1)%Z with 3%Z. change (0 <? 3)%Z with true.
  change (1 <? 4)%Z with true. cbv iota.
  cbn [f_bool f_div f_sub f_mul f_add f_of_int R_float].
  rewrite Rtruthy_nonzero by lra.
  cbn. replace (1 - 0) with 1 by lra. reflexivity.
Qed.

(** C7, where the code departs from it.  For a one-hertz sound, one second
    and four samples per second, the source returns four samples of which
    the last is taken at [t_end] (value [sin(2 pi) = 0]), where sampling
    [0, 1) every 1/4 s ends at 3/4 s (value [sin(3 pi / 2) = -1]).  And for
    0.7 s at one sample per second the source returns no sample, since
    [int()] truncates, where rounding gives one. *)
Theorem get_wave_samples_t_end :
  (exists w, get_wave Fixtures.one_hertz 0 1 4 = inr w
             /\ length w = 4%nat
             /\ nth 3 w 0 = 0)
  /\ length (spec_get_wave Fixtures.one_hertz 0 1 4) = 4%nat
  /\ nth 3 (spec_get_wave Fixtures.one_hertz 0 1 4) 0 = -1
  /\ get_wave Fixtures.one_hertz 0 (7 / 10) 1 = inr []
  /\ length (spec_get_wave Fixtures.one_hertz 0 (7 / 10) 1) = 1%nat.
Proof.
  assert (R4 : round_nearest ((1 - 0) * 4) = 4%Z)
    by (apply Zfloor_eq; lra).
  assert (R1 : round_nearest ((7 / 10 - 0) * 1) = 1%Z)
    by (apply Zfloor_eq; lra).
  repeat split.
  - unfold get_wave. rewrite get_wave_x_0_1_4.
    eexists. split; [reflexivity|]. split; [reflexivity|].
    cbn. replace (2 * PI * 1 * 1) with (2 * PI) by lra.
    rewrite sin_2PI. lra.
  - unfold spec_get_wave. rewrite R4. reflexivity.
  - unfold spec_get_wave. rewrite R4. change (Z.to_nat 4) with 4%nat.
    cbn [seq map nth Fixtures.one_hertz gain frequency].
    replace (2 * PI * 1 * (0 + INR 3 / 4)) with (3 * (PI / 2))
      by (simpl INR; lra).
    rewrite sin_3PI2. lra.
  - unfold get_wave, get_wave_x, py_int. cbn [f_int f_mul f_sub f_of_int R_float].
    replace (Rtrunc ((7 / 10 - 0) * 1)) with 0%Z
      by (symmetry; apply Rtrunc_eq; [lia | lra]).
    reflexivity.
  - unfold spec_get_wave. rewrite R1. reflexivity.
Qed.

End Wave.

(** * Facts about the monad *)

Section MonadFacts.
Context {F : Type}.
Implicit Type w : World F.

Lemma post_ret {A} (a : A) w (Q : outcome A -> World F -> Prop) :
  Q (Return a) w -> post (ret a) w Q.
Proof. intros HQ o w' E _. injection E as <- <-. exact HQ. Qed.

Lemma post_raise {A} (e : exn) w (Q : outcome A -> World F -> Prop) :
  Q (Raise e) w -> post (raise e) w Q.
Proof. intros HQ o w' E _. injection E as <- <-. exact HQ. Qed.

Lemma post_modify (g : World F -> World F) w
    (Q : outcome unit -> World F -> Prop) :
  Q (Return tt) (g w) -> post (modify g) w Q.
Proof. intros HQ o w' E _. injection E as <- <-. exact HQ. Qed.

Lemma post_gets {A} (g : World F -> A) w
    (Q : outcome A -> World F -> Prop) :
  Q (Return (g w)) w -> post (gets g) w Q.
Proof. intros HQ o w' E _. injection E as <- <-. exact HQ. Qed.

Lemma post_eq {A} (m : M F A) w o1 w1 (Q : outcome A -> World F -> Prop) :
  m w = (o1, w1) -> Q o1 w1 -> post m w Q.
Proof. intros E HQ o w' E' _. rewrite E in E'. injection E' as <- <-. exact HQ. Qed.

Lemma post_conseq {A} (m : M F A) w (Q Q' : outcome A -> World F -> Prop) :
  post m w Q -> (forall o w', o <> OutOfFuel -> Q o w' -> Q' o w') ->
  post m w Q'.
Proof. intros Hm HQ o w' E Hne. apply HQ; [exact Hne|]. apply Hm; assumption. Qed.

Lemma post_bind {A B} (m : M F A) (k : A -> M F B) w
    (Q : outcome B -> World F -> Prop) :
  post m w (fun o w1 =>
              match o with
              | Return a => post (k a) w1 Q
              | Raise e => Q (Raise e) w1
              | OutOfFuel => True
              end) ->
  post (bind m k) w Q.
Proof.
  intros Hm o w' E Hne. unfold bind in E.
  destruct (m w) as [[a|e|] w1] eqn:Em.
  - exact (Hm _ _ Em ltac:(discriminate) _ _ E Hne).
  - injection E as <- <-. exact (Hm _ _ Em ltac:(discriminate)).
  - injection E as <- <-. congruence.
Qed.

(** Whatever the body did, the world on exit is the one [fin] leaves. *)
Lemma post_try_finally {A} (m : M F A) (fin : M F unit) w
    (P : World F -> Prop) :
  post m w (fun _ w1 => post fin w1 (fun _ w2 => P w2)) ->
  post (try_finally m fin) w (fun _ w' => P w').
Proof.
  intros Hm o w' E Hne. unfold try_finally in E.
  destruct (m w) as [[a|e|] w1] eqn:Em;
    [| |injection E as <- <-; congruence];
    (destruct (fin w1) as [[[]|e'|] w2] eqn:Ef; injection E as <- <-;
     [| |congruence]);
    eapply (Hm _ _ Em ltac:(discriminate) _ _ Ef); discriminate.
Qed.

(** An [except] clause that only logs keeps what the body established,
    if logging keeps it. *)
Lemma post_try_except {A} (m : M F A) (c : exn -> bool) (h : M F A) w
    (P : World F -> Prop) :
  post m w (fun _ w1 => P w1) ->
  (forall w1, P w1 -> post h w1 (fun _ w2 => P w2)) ->
  post (try_except m (fun e => if c e then Some h else None)) w
       (fun _ w' => P w').
Proof.
  intros Hm Hh o w' E Hne. unfold try_except in E.
  destruct (m w) as [[a|e|] w1] eqn:Em.
  - injection E as <- <-. exact (Hm _ _ Em ltac:(discriminate)).
  - destruct (c e).
    + exact (Hh w1 (Hm _ _ Em ltac:(discriminate)) _ _ E Hne).
    + injection E as <- <-. exact (Hm _ _ Em ltac:(discriminate)).
  - injection E as <- <-. congruence.
Qed.

Lemma frame_refl w : frame w w.
Proof. split; auto. exists []. symmetry; apply app_nil_r. Qed.

Lemma frame_trans w1 w2 w3 : frame w1 w2 -> frame w2 w3 -> frame w1 w3.
Proof.
  intros [a1 b1 c1 d1 [l1 e1]] [a2 b2 c2 d2 [l2 e2]]. split; auto.
  - congruence.
  - congruence.
  - exists (l1 ++ l2). rewrite e2, e1, app_assoc. reflexivity.
Qed.

Lemma frame_emit (e : Event F) w : frame w (emit e w).
Proof. split; cbn; auto. eexists; reflexivity. Qed.

End MonadFacts.

(** * Facts about the scheduler and the state machines *)

Section Scheduling.
Context {F : Type} `{PyFloat F}.
Variable env : Env F.

Lemma run_ctl_frame c (w : World F) :
  exists w', run_ctl c w = (Return tt, w') /\ frame w w' /\ clock w' = clock w.
Proof.
  destruct c; unfold run_ctl, pause_playback, stop_playback,
    pause_recording, stop_recording; unfold_monad; cbn.
  - destruct (playback_state w) eqn:E; cbn; eexists; (split; [reflexivity|]);
      (split; [|reflexivity]); split; cbn; auto; try congruence;
      try (eexists; reflexivity); exists []; symmetry; apply app_nil_r.
  - eexists; split; [reflexivity|]. split; [|reflexivity].
    split; cbn; auto. eexists; reflexivity.
  - destruct (recording_state w) eqn:E; cbn; eexists; (split; [reflexivity|]);
      (split; [|reflexivity]); split; cbn; auto; try congruence;
      try (eexists; reflexivity); exists []; symmetry; apply app_nil_r.
  - eexists; split; [reflexivity|]. split; [|reflexivity].
    split; cbn; auto. eexists; reflexivity.
Qed.

Lemma run_ctls_frame l (w : World F) :
  exists w', run_ctls l w = (Return tt, w') /\ frame w w' /\ clock w' = clock w.
Proof.
  revert w. induction l as [|c r IH]; intros w; cbn.
  - exists w. split; [reflexivity|]. split; [apply frame_refl | reflexivity].
  - destruct (run_ctl_frame c w) as (w1 & E1 & F1 & C1).
    destruct (IH w1) as (w2 & E2 & F2 & C2).
    exists w2. unfold bind. rewrite E1, E2.
    split; [reflexivity|]. split; [eapply frame_trans; eauto | congruence].
Qed.

Lemma ctl_step_frame (w : World F) :
  exists w', ctl_step env w = (Return tt, w') /\ frame w w'
             /\ clock w' = S (clock w).
Proof.
  unfold ctl_step.
  destruct (run_ctls_frame (env_ctl env (clock w)) (set_clock (S (clock w)) w))
    as (w' & E & Fr & C).
  exists w'. split; [exact E|]. split; [|exact C].
  eapply frame_trans; [|exact Fr]. split; cbn; auto.
  exists []. symmetry; apply app_nil_r.
Qed.

(** With nothing scheduled in the slot, a step only advances the clock. *)
Lemma ctl_step_quiet (w : World F) :
  env_ctl env (clock w) = [] ->
  ctl_step env w = (Return tt, set_clock (S (clock w)) w).
Proof. intros E. unfold ctl_step. rewrite E. reflexivity. Qed.

Lemma get_playback_state_eq (w : World F) :
  _get_playback_state env w =
  (Return (playback_state (snd (ctl_step env w))), snd (ctl_step env w)).
Proof.
  destruct (ctl_step_frame w) as (w' & E & _).
  unfold _get_playback_state; unfold_monad. rewrite E. reflexivity.
Qed.

Lemma get_recording_state_eq (w : World F) :
  _get_recording_state env w =
  (Return (recording_state (snd (ctl_step env w))), snd (ctl_step env w)).
Proof.
  destruct (ctl_step_frame w) as (w' & E & _).
  unfold _get_recording_state; unfold_monad. rewrite E. reflexivity.
Qed.

Lemma ctl_step_snd_frame (w : World F) : frame w (snd (ctl_step env w)).
Proof. destruct (ctl_step_frame w) as (w' & E & Fr & _). rewrite E. exact Fr. Qed.

Lemma sleep_frame ms (w : World F) :
  exists w', sleep env ms w = (Return tt, w') /\ frame w w'
             /\ exists l, trace w' = trace w ++ Sleep ms :: l.
Proof.
  unfold sleep; unfold_monad.
  destruct (ctl_step_frame (emit (Sleep ms) w)) as (w' & E & Fr & C).
  exists w'. rewrite E. split; [reflexivity|]. split.
  - eapply frame_trans; [apply frame_emit | exact Fr].
  - destruct (frame_trace _ _ Fr) as [l El]. exists l. rewrite El. cbn.
    rewrite <- app_assoc. reflexivity.
Qed.

Lemma post_collaborator (w : World F) :
  post (collaborator env) w (fun _ w' => frame w w').
Proof.
  intros o w' E _. unfold collaborator in E.
  destruct (env_fault env (clock w)); injection E as <- <-;
    split; cbn; auto; exists []; symmetry; apply app_nil_r.
Qed.

Lemma post_device_or_default given configured category (w : World F) :
  post (device_or_default env given configured category) w
       (fun o w' => frame w w'
                    /\ (forall e, o = Raise e ->
                                  given = None /\ configured = None)).
Proof.
  unfold device_or_default.
  destruct given as [d|]; [apply post_ret; split; [apply frame_refl | discriminate]|].
  destruct configured as [d|]; [apply post_ret; split; [apply frame_refl | discriminate]|].
  unfold _get_default_device. apply post_bind.
  eapply post_conseq; [apply post_collaborator|].
  intros o w' _ Fr. destruct o as [[]|e|]; [|auto|exact I].
  apply post_ret. auto.
Qed.

End Scheduling.

(** * The state machines (C3) *)

Section StateMachines.
Context {F : Type}.

(** C3, as amended: [stop_playback] and [stop_recording], called in any
    state, return with the state at STOPPED and leave the paused-changed
    event exactly as it was: they do not set it. *)
Theorem stop_sets_stopped_and_leaves_event (w : World F) :
  (fst (stop_playback w) = Return tt
   /\ playback_state (snd (stop_playback w)) = PlaybackState.STOPPED
   /\ playback_paused_changed (snd (stop_playback w))
      = playback_paused_changed w)
  /\ (fst (stop_recording w) = Return tt
      /\ recording_state (snd (stop_recording w)) = RecordingState.STOPPED
      /\ recording_paused_changed (snd (stop_recording w))
         = recording_paused_changed w).
Proof. repeat split. Qed.

End StateMachines.

(** A thread waiting on a cleared event is still waiting after
    [stop_playback], for as long as nobody toggles the pause. *)
Lemma stop_playback_releases_nobody {F} `{PyFloat F} (env : Env F)
    (w : World F) (fuel : nat) :
  (forall n, env_ctl env n = []) ->
  playback_paused_changed w = false ->
  fst (event_wait (ctl_step env) playback_paused_changed fuel
         (snd (stop_playback w))) = OutOfFuel.
Proof.
  intros Hq Hf.
  assert (G : forall w0 : World F, playback_paused_changed w0 = false ->
              fst (event_wait (ctl_step env) playback_paused_changed fuel w0)
              = OutOfFuel).
  { induction fuel as [|k IH]; intros w0 H0; cbn; rewrite H0; [reflexivity|].
    unfold bind. rewrite ctl_step_quiet by apply Hq. apply IH. exact H0. }
  apply G. exact Hf.
Qed.

(** C3, as stated, fails: playback is running, the event is clear (as [play]
    leaves it), and after [stop_playback] the event is still clear; a thread
    waiting on it is not released. *)
Lemma stop_playback_does_not_signal :
  playback_paused_changed (snd (stop_playback Fixtures.playing_world)) = false
  /\ fst (event_wait (ctl_step Fixtures.quiet) playback_paused_changed 100
            (snd (stop_playback Fixtures.playing_world))) = OutOfFuel.
Proof. split; vm_compute; reflexivity. Qed.

(** * The playback callback (C4) *)

Section Callback.
Context {F : Type} `{PyFloat F}.
Variable env : Env F.

(** The world in which a callback that found the machine running, and not
    paused, gets to its own work: two state reads later. *)
Lemma audio_callback_running (w : World F) (fuel : nat) (k : M F unit) :
  env_ctl env (clock w) = [] ->
  env_ctl env (S (clock w)) = [] ->
  playback_state w = PlaybackState.PLAYING ->
  fuel <> O ->
  (st <- _get_playback_state env;;
   if PlaybackState.eqb st PlaybackState.STOPPED then raise CallbackAbort
   else wait_while_playback_paused env (ctl_step env) fuel fuel;;; k) w
  = k (set_clock (S (S (clock w))) w).
Proof.
  intros Q1 Q2 Hp Hfuel. unfold bind at 1.
  rewrite get_playback_state_eq, ctl_step_quiet by exact Q1.
  cbn [fst snd]. change (playback_state (set_clock _ w)) with (playback_state w).
  rewrite Hp. cbn [PlaybackState.eqb].
  destruct fuel as [|n]; [congruence|].
  cbn [wait_while_playback_paused]. unfold bind at 1. unfold bind at 1.
  rewrite get_playback_state_eq, ctl_step_quiet by exact Q2.
  cbn [fst snd]. change (playback_state (set_clock _ _)) with (playback_state w).
  rewrite Hp. reflexivity.
Qed.

(** C4, as amended: when the state is PLAYING, the status is clean and the
    queue is empty, the callback raises after its two state reads, without
    waiting, and leaves the output buffer and the queue as they were, so no
    silence is written.  Called with the block size as its frame count it
    logs a warning and raises CallbackAbort; called with any other frame
    count it fails the assertion of line 342 before it looks at the queue. *)
Theorem audio_callback_empty_queue_aborts (w : World F) (blocksize frames : Z)
    (status : CallbackFlags) (fuel : nat) :
  env_ctl env (clock w) = [] ->
  env_ctl env (S (clock w)) = [] ->
  playback_state w = PlaybackState.PLAYING ->
  q w = [] ->
  flags_bool status = false ->
  fuel <> O ->
  audio_callback env blocksize frames status fuel w =
  (if frames =? blocksize
   then (Raise CallbackAbort,
         emit (Log "Buffer is empty: increase buffersize?")
           (set_clock (S (S (clock w))) w))
   else (Raise AssertionError, set_clock (S (S (clock w))) w))
  /\ outdata (snd (audio_callback env blocksize frames status fuel w))
     = outdata w
  /\ q (snd (audio_callback env blocksize frames status fuel w)) = [].
Proof.
  intros Q1 Q2 Hp Hq Hs Hfuel.
  assert (Hu : output_underflow status = false).
  { unfold flags_bool in Hs. destruct (input_underflow status),
      (input_overflow status), (output_underflow status); cbn in Hs;
      congruence. }
  assert (E : audio_callback env blocksize frames status fuel w =
              if frames =? blocksize
              then (Raise CallbackAbort,
                    emit (Log "Buffer is empty: increase buffersize?")
                      (set_clock (S (S (clock w))) w))
              else (Raise AssertionError, set_clock (S (S (clock w))) w)).
  { unfold audio_callback. rewrite audio_callback_running by assumption.
    destruct (frames =? blocksize); cbn [negb]; [|reflexivity].
    rewrite Hu, Hs.
    unfold bind at 1, try_except, q_get_nowait.
    change (q (set_clock _ _)) with (q w). rewrite Hq.
    cbn [is_QueueEmpty]. reflexivity. }
  rewrite E. split; [reflexivity|].
  destruct (frames =? blocksize); split; solve [reflexivity | exact Hq].
Qed.

End Callback.

(** The callback does reach an empty queue in state PLAYING. *)
Lemma audio_callback_empty_queue_aborts_witness :
  audio_callback Fixtures.quiet 2 2 no_flags 10 Fixtures.playing_world =
  (if 2 =? 2
   then (Raise CallbackAbort,
         emit (Log "Buffer is empty: increase buffersize?")
           (set_clock 2 Fixtures.playing_world))
   else (Raise AssertionError, set_clock 2 Fixtures.playing_world))
  /\ outdata (snd (audio_callback Fixtures.quiet 2 2 no_flags 10
                     Fixtures.playing_world))
     = outdata Fixtures.playing_world
  /\ q (snd (audio_callback Fixtures.quiet 2 2 no_flags 10
               Fixtures.playing_world)) = [].
Proof.
  apply (audio_callback_empty_queue_aborts Fixtures.quiet
           Fixtures.playing_world 2 2 no_flags 10);
    solve [reflexivity | discriminate].
Defined.

(** C4, as stated, fails: on an empty queue the callback aborts and the two
    stale samples of the output buffer are still there, not silence. *)
Lemma audio_callback_writes_no_silence :
  fst (audio_callback Fixtures.quiet 2 2 no_flags 10 Fixtures.playing_world)
  = Raise CallbackAbort
  /\ outdata (snd (audio_callback Fixtures.quiet 2 2 no_flags 10
                     Fixtures.playing_world)) = [1%R; 1%R]
  /\ outdata (snd (audio_callback Fixtures.quiet 2 2 no_flags 10
                     Fixtures.playing_world)) <> silence 2.
Proof.
  split; [vm_compute; reflexivity|]. split; [vm_compute; reflexivity|].
  intros E. vm_compute in E. injection E as E _.
  change (1%R = 0%R) in E. lra.
Qed.

(** * play: the check of the session that is still going *)

Section PlayPrologue.
Context {F : Type} `{PyFloat F}.
Variable env : Env F.
Variable self : SoundPlugin.

Lemma stop_before_play_eq file (w : World F) :
  stop_before_play env file w =
  let w1 := snd (ctl_step env w) in
  if negb (PlaybackState.eqb (playback_state w1) PlaybackState.STOPPED)
     && truthy_str file
  then sleep env 2000
         (emit (Log "Playback stopped")
            (set_playback_state PlaybackState.STOPPED
               (emit (Log "Stopping playback before playing") w1)))
  else (Return tt, w1).
Proof.
  unfold stop_before_play. unfold bind at 1.
  rewrite get_playback_state_eq. cbn zeta.
  destruct (PlaybackState.eqb (playback_state (snd (ctl_step env w)))
              PlaybackState.STOPPED); cbn [negb andb]; [reflexivity|].
  destruct (truthy_str file); reflexivity.
Qed.

Lemma eqb_STOPPED_false (s : PlaybackState.t) :
  s <> PlaybackState.STOPPED ->
  PlaybackState.eqb s PlaybackState.STOPPED = false.
Proof. destruct s; [congruence | reflexivity | reflexivity]. Qed.

Lemma eqb_STOPPED_true (s : PlaybackState.t) :
  PlaybackState.eqb s PlaybackState.STOPPED = true ->
  s = PlaybackState.STOPPED.
Proof. destruct s; [reflexivity | discriminate | discriminate]. Qed.

Lemma stop_before_play_returns file (w : World F) :
  exists w1, stop_before_play env file w = (Return tt, w1)
             /\ f w1 = f w
             /\ (truthy_str file = true ->
                 playback_state w1 = PlaybackState.STOPPED).
Proof.
  rewrite stop_before_play_eq. cbn zeta.
  assert (Fr := ctl_step_snd_frame env w).
  destruct (PlaybackState.eqb (playback_state (snd (ctl_step env w)))
              PlaybackState.STOPPED) eqn:Es; cbn [negb andb].
  - eexists. split; [reflexivity|]. split; [apply (frame_f _ _ Fr)|].
    intros _. apply eqb_STOPPED_true. exact Es.
  - destruct (truthy_str file).
    + match goal with |- context [sleep env 2000 ?w0] =>
        destruct (sleep_frame env 2000 w0) as (w2 & E2 & Fr2 & _) end.
      exists w2. split; [exact E2|]. split.
      * rewrite (frame_f _ _ Fr2). cbn. apply (frame_f _ _ Fr).
      * intros _. apply (frame_playback _ _ Fr2). reflexivity.
    + eexists. split; [reflexivity|]. split; [apply (frame_f _ _ Fr)|].
      discriminate.
Qed.

End PlayPrologue.

(** * Exit paths (C6) *)

Section Exits.
Context {F : Type} `{PyFloat F}.
Variable env : Env F.
Variable self : SoundPlugin.

Lemma post_close_f (w : World F) :
  post close_f w (fun o w' => o = Return tt /\ f_closed w'
                              /\ playback_state w' = playback_state w
                              /\ recording_state w' = recording_state w).
Proof.
  unfold close_f. apply post_bind, post_gets.
  destruct (f w) as [h|] eqn:Ef.
  - destruct (sf_closed h) eqn:Ec.
    + apply post_ret. unfold f_closed. rewrite Ef. auto.
    + apply post_bind, post_modify, post_modify. unfold f_closed. cbn. auto.
  - apply post_ret. unfold f_closed. rewrite Ef. auto.
Qed.

Lemma post_stop_playback (w : World F) :
  post stop_playback w
       (fun o w' => o = Return tt
                    /\ playback_state w' = PlaybackState.STOPPED
                    /\ recording_state w' = recording_state w
                    /\ f w' = f w).
Proof.
  unfold stop_playback. apply post_bind, post_modify.
  unfold log. apply post_modify. cbn. auto.
Qed.

Lemma post_stop_recording (w : World F) :
  post stop_recording w
       (fun o w' => o = Return tt
                    /\ recording_state w' = RecordingState.STOPPED
                    /\ playback_state w' = playback_state w
                    /\ f w' = f w).
Proof.
  unfold stop_recording. apply post_bind, post_modify.
  unfold log. apply post_modify. cbn. auto.
Qed.

Lemma f_closed_eq (w w' : World F) : f w' = f w -> f_closed w -> f_closed w'.
Proof. unfold f_closed. intros ->. auto. Qed.

Lemma play_protected_exits (a : PlayArgs F) file blocksize device (fuel : nat)
    (w : World F) :
  post (try_finally
          (try_except (play_try env a file blocksize device fuel)
             (fun e => if is_QueueFull e
                       then Some (log "Playback timeout: audio callback failed?")
                       else None))
          (close_f;;; stop_playback)) w
       (fun _ w' => playback_state w' = PlaybackState.STOPPED /\ f_closed w').
Proof.
  apply post_try_finally with
    (P := fun w' => playback_state w' = PlaybackState.STOPPED /\ f_closed w').
  intros o1 w4 _ _. apply post_bind.
  eapply post_conseq; [apply post_close_f|].
  intros o2 w5 _ (-> & C5 & _).
  eapply post_conseq; [apply post_stop_playback|].
  intros o3 w6 _ (_ & S6 & _ & F6). split; [exact S6|].
  eapply f_closed_eq; eauto.
Qed.

Lemma play_exits (a : PlayArgs F) (fuel : nat) (w : World F) :
  post (play env self a fuel) w
       (fun o w' => settled (OpPlay a) w w'
                    \/ failed_before_try env self (OpPlay a) w o w').
Proof.
  unfold play.
  destruct (negb (truthy_str (p_file a)) && negb (truthy_sounds (p_sounds a)))
    eqn:V.
  - apply post_raise. right. cbn.
    apply andb_true_iff in V as [V1 V2].
    apply negb_true_iff in V1, V2. auto.
  - destruct (stop_before_play_returns env (p_file a) w) as (w1 & E1 & _ & S1).
    intros o w' Eq Hne.
    assert (E0 : (stop_before_play env (p_file a);;; play_setup a) w
                 = (Return tt, snd (play_setup a w1))).
    { unfold bind at 1. rewrite E1. reflexivity. }
    unfold bind at 1 in Eq. rewrite E1 in Eq.
    unfold play_session in Eq. cbn zeta in Eq. unfold bind at 1 in Eq.
    change (play_setup a w1) with (Return tt, snd (play_setup a w1)) in Eq.
    cbv iota beta in Eq. unfold bind at 1 in Eq.
    assert (Hd := post_device_or_default env (p_device a) (output_device self)
                    "output" (snd (play_setup a w1))).
    destruct (device_or_default env (p_device a) (output_device self) "output"
                (snd (play_setup a w1))) as [[device|e|] w3] eqn:Ed.
    + left. exact (play_protected_exits a _ _ device fuel w3 _ _ Eq Hne).
    + injection Eq as <- <-.
      destruct (Hd _ _ Ed ltac:(discriminate)) as [Fr _].
      destruct (truthy_str (p_file a)) eqn:Tf.
      * left. split.
        -- apply (frame_playback _ _ Fr). cbn. apply S1. reflexivity.
        -- unfold f_closed. rewrite (frame_f _ _ Fr). cbn. exact I.
      * right. cbn. split; [exact Tf|]. right.
        unfold device_or_default in Ed.
        destruct (p_device a); [discriminate|].
        destruct (output_device self); [discriminate|].
        split; [reflexivity|]. split; [reflexivity|].
        exists (snd (play_setup a w1)), e. auto.
    + injection Eq as <- <-. congruence.
Qed.

Lemma stop_before_record_eq (w : World F) :
  stop_before_record env w =
  let w1 := snd (ctl_step env w) in
  if negb (RecordingState.eqb (recording_state w1) RecordingState.STOPPED)
  then sleep env 2000
         (emit (Log "Recording stopped")
            (set_recording_state RecordingState.STOPPED w1))
  else (Return tt, w1).
Proof.
  unfold stop_before_record. unfold bind at 1.
  rewrite get_recording_state_eq. cbn zeta.
  destruct (RecordingState.eqb (recording_state (snd (ctl_step env w)))
              RecordingState.STOPPED); reflexivity.
Qed.

Lemma rec_eqb_STOPPED_true (s : RecordingState.t) :
  RecordingState.eqb s RecordingState.STOPPED = true ->
  s = RecordingState.STOPPED.
Proof. destruct s; [reflexivity | discriminate | discriminate]. Qed.

Lemma stop_before_record_returns (w : World F) :
  exists w1, stop_before_record env w = (Return tt, w1)
             /\ frame w w1
             /\ recording_state w1 = RecordingState.STOPPED.
Proof.
  rewrite stop_before_record_eq. cbn zeta.
  assert (Fr := ctl_step_snd_frame env w).
  destruct (RecordingState.eqb (recording_state (snd (ctl_step env w)))
              RecordingState.STOPPED) eqn:Es; cbn [negb].
  - eexists. split; [reflexivity|]. split; [exact Fr|].
    apply rec_eqb_STOPPED_true. exact Es.
  - match goal with |- context [sleep env 2000 ?w0] =>
      destruct (sleep_frame env 2000 w0) as (w2 & E2 & Fr2 & _) end.
    exists w2. split; [exact E2|]. split.
    + eapply frame_trans; [exact Fr|]. eapply frame_trans; [|exact Fr2].
      split; cbn; auto; try congruence. eexists; reflexivity.
    + apply (frame_recording _ _ Fr2). reflexivity.
Qed.

Lemma stop_playback_before_recordplay_returns (w : World F) :
  exists w1, stop_playback_before_recordplay env w = (Return tt, w1)
             /\ frame w w1
             /\ playback_state w1 = PlaybackState.STOPPED.
Proof.
  unfold stop_playback_before_recordplay. unfold bind at 1.
  rewrite get_playback_state_eq.
  assert (Fr := ctl_step_snd_frame env w).
  destruct (PlaybackState.eqb (playback_state (snd (ctl_step env w)))
              PlaybackState.STOPPED) eqn:Es; cbn [negb].
  - eexists. split; [reflexivity|]. split; [exact Fr|].
    apply eqb_STOPPED_true. exact Es.
  - change ((stop_playback;;; sleep env 2000) (snd (ctl_step env w)))
      with (sleep env 2000
              (emit (Log "Playback stopped")
                 (set_playback_state PlaybackState.STOPPED
                    (snd (ctl_step env w))))).
    match goal with |- context [sleep env 2000 ?w0] =>
      destruct (sleep_frame env 2000 w0) as (w2 & E2 & Fr2 & _) end.
    exists w2. split; [exact E2|]. split.
    + eapply frame_trans; [exact Fr|]. eapply frame_trans; [|exact Fr2].
      split; cbn; auto; try congruence. eexists; reflexivity.
    + apply (frame_playback _ _ Fr2). reflexivity.
Qed.

Lemma record_prepare_returns (a : RecordArgs F) (w : World F) :
  exists name w1, record_prepare env a w = (Return name, w1)
                  /\ f w1 = f w
                  /\ recording_state w1 = RecordingState.STOPPED.
Proof.
  unfold record_prepare.
  destruct (stop_before_record_returns w) as (w1 & E1 & F1 & S1).
  apply frame_f in F1.
  unfold bind at 1. rewrite E1. unfold_monad. cbn zeta.
  match goal with |- context [isfile ?m ?n] => destruct (isfile m n) end;
    cbn; eexists _, _; (split; [reflexivity|]); cbn; auto.
Qed.

Lemma post_SoundFile_create name samplerate channels (w : World F) :
  post (SoundFile_create env name samplerate channels) w
       (fun o w' => recording_state w = RecordingState.STOPPED ->
                    recording_state w' = RecordingState.STOPPED
                    /\ (forall e, o = Raise e -> f w' = f w)).
Proof.
  unfold SoundFile_create. apply post_bind.
  eapply post_conseq; [apply post_collaborator|].
  intros o w1 _ Fr. destruct o as [[]|e|]; [| |exact I].
  - apply post_bind, post_gets.
    destruct (fs w1 !! name).
    + apply post_raise. intros Hs. split.
      * apply (frame_recording _ _ Fr Hs).
      * intros _ _. apply (frame_f _ _ Fr).
    + do 2 (apply post_bind, post_modify). apply post_modify.
      intros Hs. split; [cbn; apply (frame_recording _ _ Fr Hs)|].
      discriminate.
  - intros Hs. split; [apply (frame_recording _ _ Fr Hs)|].
    intros _ _. apply (frame_f _ _ Fr).
Qed.

Lemma record_session_exits (a : RecordArgs F) (name : string) (fuel : nat)
    (w0 w : World F) :
  recording_state w = RecordingState.STOPPED ->
  f w = f w0 ->
  post (record_session env self a name fuel) w
       (fun _ w' => recording_state w' = RecordingState.STOPPED
                    /\ (f_closed w' \/ f w' = f w0)).
Proof.
  intros Hs Hf. unfold record_session. apply post_bind.
  eapply post_conseq; [apply post_device_or_default|].
  intros o w1 _ [Fr1 _]. destruct o as [device|e|]; [| |exact I].
  2:{ split; [apply (frame_recording _ _ Fr1 Hs)|]. right.
      rewrite (frame_f _ _ Fr1). exact Hf. }
  apply post_bind.
  assert (Hsr : post (match r_sample_rate a with
                      | Some sr => ret sr
                      | None => collaborator env;;;
                                ret (env_default_samplerate env device)
                      end) w1 (fun _ w2 => frame w1 w2)).
  { destruct (r_sample_rate a).
    - apply post_ret, frame_refl.
    - apply post_bind. eapply post_conseq; [apply post_collaborator|].
      intros o w2 _ Fr. destruct o as [[]|e|]; [|exact Fr|exact I].
      apply post_ret. exact Fr. }
  eapply post_conseq; [exact Hsr|]. clear Hsr.
  intros o w2 _ Fr2. destruct o as [sample_rate|e|]; [| |exact I].
  2:{ split; [apply (frame_recording _ _ Fr2), (frame_recording _ _ Fr1 Hs)|].
      right. rewrite (frame_f _ _ Fr2), (frame_f _ _ Fr1). exact Hf. }
  cbn zeta. do 2 (apply post_bind, post_modify).
  apply post_try_finally.
  eapply post_conseq.
  - apply post_try_except with (P := fun w' => f_closed w' \/ f w' = f w0).
    + unfold with_SoundFile. apply post_bind.
      eapply post_conseq; [apply post_SoundFile_create|].
      intros o w3 _ H3. destruct o as [[]|e|]; [| |exact I].
      * eapply post_conseq.
        -- apply post_try_finally with (P := fun w' => f_closed w').
           intros o4 w4 _ _. eapply post_conseq; [apply post_close_f|].
           intros o5 w5 _ (_ & C5 & _). exact C5.
        -- intros o4 w4 _ C4. left. exact C4.
      * right. cbn in H3.
        destruct (H3 (frame_recording _ _ Fr2 (frame_recording _ _ Fr1 Hs)))
          as [_ H3'].
        rewrite (H3' e eq_refl). cbn.
        rewrite (frame_f _ _ Fr2), (frame_f _ _ Fr1). exact Hf.
    + intros w3 P3. unfold log. apply post_modify. exact P3.
  - intros o w3 _ P3. eapply post_conseq; [apply post_stop_recording|].
    intros o4 w4 _ (_ & S4 & _ & F4). split; [exact S4|].
    destruct P3 as [C3|E3]; [left; eapply f_closed_eq; eauto | right; congruence].
Qed.

Lemma record_exits (a : RecordArgs F) (fuel : nat) (w : World F) :
  post (record env self a fuel) w (fun _ w' => settled (OpRecord a) w w').
Proof.
  unfold record. apply post_bind.
  destruct (record_prepare_returns a w) as (name & w1 & E1 & F1 & S1).
  eapply post_eq; [exact E1|].
  apply record_session_exits; assumption.
Qed.

Lemma recordplay_exits (a : RecordplayArgs F) (fuel : nat) (w : World F) :
  post (recordplay env self a fuel) w
       (fun _ w' => settled (OpRecordplay a) w w').
Proof.
  unfold recordplay, settled.
  destruct (stop_playback_before_recordplay_returns w) as (w1 & E1 & _ & P1).
  apply post_bind. eapply post_eq; [exact E1|].
  destruct (stop_before_record_returns w1) as (w2 & E2 & Fr2 & R2).
  apply post_bind. eapply post_eq; [exact E2|].
  assert (P2 := frame_playback _ _ Fr2 P1).
  do 2 (apply post_bind, post_modify).
  match goal with |- post _ ?w0 _ =>
    assert (P3 : playback_state w0 = PlaybackState.STOPPED) by exact P2;
    assert (R3 : recording_state w0 = RecordingState.STOPPED) by exact R2;
    generalize dependent w0 end.
  intros w3 P3 R3.
  apply post_bind. eapply post_conseq; [apply post_device_or_default|].
  intros o w4 _ [Fr4 _].
  assert (P4 := frame_playback _ _ Fr4 P3).
  assert (R4 := frame_recording _ _ Fr4 R3).
  destruct o as [input|e|]; [|auto|exact I].
  apply post_bind. eapply post_conseq; [apply post_device_or_default|].
  intros o w5 _ [Fr5 _].
  assert (P5 := frame_playback _ _ Fr5 P4).
  assert (R5 := frame_recording _ _ Fr5 R4).
  destruct o as [output|e|]; [|auto|exact I].
  apply post_bind.
  assert (Hsr : post (match rp_sample_rate a with
                      | Some sr => ret sr
                      | None => collaborator env;;;
                                ret (env_default_samplerate env input)
                      end) w5 (fun _ w6 => frame w5 w6)).
  { destruct (rp_sample_rate a).
    - apply post_ret, frame_refl.
    - apply post_bind. eapply post_conseq; [apply post_collaborator|].
      intros o w6 _ Fr. destruct o as [[]|e|]; [|exact Fr|exact I].
      apply post_ret. exact Fr. }
  eapply post_conseq; [exact Hsr|]. clear Hsr.
  intros o w6 _ Fr6. destruct o as [sample_rate|e|]; [| |exact I].
  2:{ split; [apply (frame_playback _ _ Fr6 P5)
             | apply (frame_recording _ _ Fr6 R5)]. }
  cbn zeta. apply post_try_finally.
  intros o7 w7 _ _. apply post_bind.
  eapply post_conseq; [apply post_stop_playback|].
  intros o8 w8 _ (-> & P8 & _ & _).
  eapply post_conseq; [apply post_stop_recording|].
  intros o9 w9 _ (_ & R9 & P9 & _). split; congruence.
Qed.

(** C6, as amended: on every exit path of [record] and [recordplay], and
    on every exit path of [play] but two, the state machines the operation
    drives are STOPPED and its sound file is closed.  The two are the
    failures of [play] before its [try] statement in a call without a
    file: no source at all, and the lookup of the default device raising;
    there no statement that stops the playback has run (see the examples
    below).  An exception raised inside
    the [try] statement is not among them: the call then ends in the world
    its [finally] block leaves, not in the world of the lookup. *)
Theorem every_exit_settles (op : Operation F) (fuel : nat)
    (w w' : World F) (o : outcome unit) :
  run_operation env self op fuel w = (o, w') ->
  o <> OutOfFuel ->
  settled op w w' \/ failed_before_try env self op w o w'.
Proof.
  intros E Hne. destruct op as [a|a|a]; cbn [run_operation] in E.
  - exact (play_exits a fuel w o w' E Hne).
  - left. exact (record_exits a fuel w o w' E Hne).
  - left. exact (recordplay_exits a fuel w o w' E Hne).
Qed.

End Exits.

(** A file, and sounds, played to the end while another session was on. *)
Lemma every_exit_settles_witness :
  settled (OpPlay Fixtures.play_both) Fixtures.playing_world_with_file
    (snd (play Fixtures.driven Fixtures.plugin Fixtures.play_both 10
            Fixtures.playing_world_with_file))
  \/ failed_before_try Fixtures.driven Fixtures.plugin
       (OpPlay Fixtures.play_both) Fixtures.playing_world_with_file
       (fst (play Fixtures.driven Fixtures.plugin Fixtures.play_both 10
               Fixtures.playing_world_with_file))
       (snd (play Fixtures.driven Fixtures.plugin Fixtures.play_both 10
               Fixtures.playing_world_with_file)).
Proof.
  apply (every_exit_settles Fixtures.driven Fixtures.plugin
           (OpPlay Fixtures.play_both) 10 Fixtures.playing_world_with_file).
  - apply surjective_pairing.
  - vm_compute. discriminate.
Defined.

(** C6, as stated, fails: [play()] without a source, called while a session
    is playing, raises and the playback state is still PLAYING. *)
Lemma play_without_source_leaves_playing :
  fst (play Fixtures.quiet Fixtures.plugin Fixtures.play_nothing 10
         Fixtures.playing_world) = Raise RuntimeError
  /\ playback_state
       (snd (play Fixtures.quiet Fixtures.plugin Fixtures.play_nothing 10
               Fixtures.playing_world)) = PlaybackState.PLAYING.
Proof. split; vm_compute; reflexivity. Qed.

(** The second exception of C6: [play(sounds=[a440])] while a session is
    playing, with no output device given or configured and the lookup of
    the default device raising: the call raises that error and the state is
    still PLAYING. *)
Example play_device_lookup_failure_leaves_playing :
  fst (play Fixtures.no_device Fixtures.plugin Fixtures.play_sounds 10
         Fixtures.playing_world) = Raise (ExternalError 1)
  /\ playback_state
       (snd (play Fixtures.no_device Fixtures.plugin Fixtures.play_sounds 10
               Fixtures.playing_world)) = PlaybackState.PLAYING.
Proof. split; vm_compute; reflexivity. Qed.

(** An error raised inside the [try] statement is no exception of C6:
    [play(sounds=[{}])] raises RuntimeError from the conversion of the
    descriptor and ends STOPPED. *)
Example play_bad_descriptor_settles :
  fst (play Fixtures.quiet Fixtures.plugin Fixtures.play_bad_descriptor 10
         Fixtures.playing_world) = Raise RuntimeError
  /\ playback_state
       (snd (play Fixtures.quiet Fixtures.plugin Fixtures.play_bad_descriptor
               10 Fixtures.playing_world)) = PlaybackState.STOPPED.
Proof. split; vm_compute; reflexivity. Qed.

(** * record and the file it finds (C10) *)

Section RecordFile.
Context {F : Type} `{PyFloat F}.
Variable env : Env F.
Variable self : SoundPlugin.

Lemma run_ctl_fs_blind c : fs_blind (run_ctl (F := F) c).
Proof.
  intros v w. destruct c; unfold run_ctl, pause_playback, stop_playback,
    pause_recording, stop_recording; unfold_monad; cbn;
    try destruct (playback_state w); try destruct (recording_state w);
    reflexivity.
Qed.

Lemma run_ctls_fs_blind l : fs_blind (run_ctls (F := F) l).
Proof.
  induction l as [|c r IH]; intros v w; [reflexivity|].
  cbn [run_ctls]. unfold bind. rewrite run_ctl_fs_blind.
  destruct (run_ctl c w) as [[[]|e|] w1]; cbn [fst snd];
    [apply IH | reflexivity | reflexivity].
Qed.

Lemma ctl_step_fs_blind : fs_blind (ctl_step env).
Proof.
  intros v w. unfold ctl_step.
  exact (run_ctls_fs_blind (env_ctl env (clock w)) v
           (set_clock (S (clock w)) w)).
Qed.

Lemma sleep_fs_blind ms : fs_blind (sleep env ms).
Proof.
  intros v w. unfold sleep; unfold_monad.
  exact (ctl_step_fs_blind v (emit (Sleep ms) w)).
Qed.

Lemma stop_before_record_fs_blind : fs_blind (stop_before_record env).
Proof.
  intros v w. rewrite !stop_before_record_eq. cbn zeta.
  rewrite (ctl_step_fs_blind v w). cbn [fst snd].
  change (recording_state (set_fs v ?x)) with (recording_state x).
  destruct (RecordingState.eqb (recording_state (snd (ctl_step env w)))
              RecordingState.STOPPED); cbn [negb]; [reflexivity|].
  exact (sleep_fs_blind 2000 v
           (emit (Log "Recording stopped")
              (set_recording_state RecordingState.STOPPED
                 (snd (ctl_step env w))))).
Qed.

Lemma truthy_str_Some (p : string) : p <> ""%string -> truthy_str (Some p) = true.
Proof.
  intros Hp. unfold truthy_str. destruct (String.eqb_spec p ""); [contradiction | reflexivity].
Qed.

(** What [record_prepare] comes to when the file is there. *)
Lemma record_prepare_unlinks (a : RecordArgs F) (w : World F) (p : string)
    (old : AudioFile F) :
  r_file a = Some p -> p <> ""%string ->
  fs w !! env_abspath env p = Some (RegularFile old) ->
  record_prepare env a w =
  (Return (env_abspath env p),
   set_fs (delete (env_abspath env p) (fs w))
     (emit (Unlink (env_abspath env p))
        (emit (Log "Removing existing audio file")
           (set_recording_paused_changed false
              (snd (stop_before_record env w)))))).
Proof.
  intros Hfile Hp Hfs. unfold record_prepare.
  destruct (stop_before_record_returns env w) as (w0 & E0 & Fr0 & _).
  rewrite E0. unfold bind at 1. rewrite E0. cbn [snd].
  rewrite Hfile, (truthy_str_Some p Hp). unfold_monad. cbn zeta.
  unfold isfile. cbn [fs set_recording_paused_changed].
  rewrite (frame_fs _ _ Fr0), Hfs. cbn. rewrite (frame_fs _ _ Fr0).
  reflexivity.
Qed.

(** C10: when [record] is called with a file name under which a regular
    file exists, the file is unlinked before the sound file is created and
    before the stream is opened: the session runs from a world in which
    the name is free, and what the old file held has no influence on the
    outcome or on the final state of the disk. *)
Theorem record_removes_existing_file (a : RecordArgs F) (fuel : nat)
    (w : World F) (p : string) (old : AudioFile F) :
  r_file a = Some p -> p <> ""%string ->
  fs w !! env_abspath env p = Some (RegularFile old) ->
  exists w1,
    record_prepare env a w = (Return (env_abspath env p), w1)
    /\ fs w1 !! env_abspath env p = None
    /\ (exists l, trace w1 = trace w ++ l
                             ++ [Log "Removing existing audio file";
                                 Unlink (env_abspath env p)])
    /\ record env self a fuel w
       = record_session env self a (env_abspath env p) fuel w1
    /\ forall other : AudioFile F,
         record env self a fuel
           (set_fs (<[env_abspath env p := RegularFile other]> (fs w)) w)
         = record env self a fuel w.
Proof.
  intros Hfile Hp Hfs.
  assert (E := record_prepare_unlinks a w p old Hfile Hp Hfs).
  eexists. split; [exact E|]. split; [|split; [|split]].
  - cbn. apply lookup_delete_eq.
  - destruct (stop_before_record_returns env w) as (w0 & E0 & Fr0 & _).
    rewrite E0. cbn. destruct (frame_trace _ _ Fr0) as [l El].
    exists l. rewrite El, <- !app_assoc. reflexivity.
  - unfold record. unfold bind at 1. rewrite E. reflexivity.
  - intros other. unfold record. unfold bind at 1.
    rewrite (record_prepare_unlinks a _ p other Hfile Hp)
      by (cbn; apply lookup_insert_eq).
    unfold bind at 1. rewrite E. cbv iota beta.
    rewrite (stop_before_record_fs_blind _ w). cbn [snd fs set_fs].
    rewrite delete_insert_eq. reflexivity.
Qed.

End RecordFile.

(** [record(file='rec.wav')] over an existing three-frame file. *)
Lemma record_removes_existing_file_witness :
  exists w1,
    record_prepare Fixtures.stopped_later Fixtures.record_over
      Fixtures.idle_world_with_file = (Return "rec.wav"%string, w1)
    /\ fs w1 !! "rec.wav"%string = None
    /\ (exists l, trace w1 = trace Fixtures.idle_world_with_file ++ l
                             ++ [Log "Removing existing audio file";
                                 Unlink "rec.wav"])
    /\ record Fixtures.stopped_later Fixtures.plugin Fixtures.record_over 20
         Fixtures.idle_world_with_file
       = record_session Fixtures.stopped_later Fixtures.plugin
           Fixtures.record_over "rec.wav" 20 w1
    /\ forall other : AudioFile R,
         record Fixtures.stopped_later Fixtures.plugin Fixtures.record_over 20
           (set_fs (<["rec.wav"%string := RegularFile other]>
                      (fs Fixtures.idle_world_with_file))
              Fixtures.idle_world_with_file)
         = record Fixtures.stopped_later Fixtures.plugin Fixtures.record_over
             20 Fixtures.idle_world_with_file.
Proof.
  apply (record_removes_existing_file Fixtures.stopped_later Fixtures.plugin
           Fixtures.record_over 20 Fixtures.idle_world_with_file
           "rec.wav" Fixtures.three_frames).
  - reflexivity.
  - discriminate.
  - vm_compute. reflexivity.
Defined.

(** How that call runs when two blocks are captured before another thread
    stops the recording: the file on disk ends up with the four captured
    samples and none of the three it held before. *)
Example record_over_existing_file_run :
  fst (record Fixtures.stopped_later Fixtures.plugin Fixtures.record_over 20
         Fixtures.idle_world_with_file) = Return tt
  /\ fs (snd (record Fixtures.stopped_later Fixtures.plugin
                Fixtures.record_over 20 Fixtures.idle_world_with_file))
     !! "rec.wav"%string
     = Some (RegularFile (Build_AudioFile 44100 1 [1%R; 0%R; 1%R; 0%R]))
  /\ trace (snd (record Fixtures.stopped_later Fixtures.plugin
                   Fixtures.record_over 20 Fixtures.idle_world_with_file))
     = [Log "Removing existing audio file"; Unlink "rec.wav";
        SoundFileOpen "rec.wav" true; StreamOpen 44100 2048 (Some 0) 1;
        Log "Started recording"; QueuePut 2; FileWrite 2;
        Log "Recording stopped"; QueuePut 2; FileWrite 2; StreamClose;
        FileFlush; SoundFileClose "rec.wav"; Log "Recording stopped"].
Proof. repeat split; vm_compute; reflexivity. Qed.

(** * The synthesized session in binary64 (C8) *)

(** C8, where the code departs from it.  One second of tone at 8000 Hz with
    a block size of 64, default buffer size, nothing interfering and the
    driver draining the queue: the call returns, 7935 samples were put on
    the queue in all, which is 65 short of 8000 and so more than one block
    away, while none of the 125 synthesis calls asked for a [t_end] beyond
    the duration.  The last block is synthesized and dropped by the [break]
    before the put, and block 63 has 63 samples because [int()] truncates
    [(t_end - t_start) * samplerate], which binary64 evaluates just below
    64. *)
Theorem play_tone_blocksize_64_loses_samples (m : Binary64.Libm) :
  let r := session m (Fixtures.driven64 64)
             (Fixtures.play_tone (Some 64) _DEFAULT_BUFSIZE) 200 in
  fst r = Return tt
  /\ Z.of_nat (enqueued_frames (trace (snd r))) = 7935
  /\ 64 < 8000 - 7935
  /\ all_le (Binary64.of_Z 1) (synthesis_t_ends (trace (snd r))) = true
  /\ length (synthesis_t_ends (trace (snd r))) = 125%nat.
Proof. cbv zeta. repeat split; try lia; vm_compute; reflexivity. Qed.

(** The same session when the whole tone fits the queue: all puts happen in
    the pre-fill loop, before the stream exists, and come to 7935 as well. *)
Lemma play_tone_blocksize_64_prefill_only (m : Binary64.Libm) :
  let r := session m (Fixtures.driven64 64)
             (Fixtures.play_tone (Some 64) 200) 200 in
  fst r = Return tt
  /\ Z.of_nat (enqueued_frames (trace (snd r))) = 7935.
Proof. cbv zeta. repeat split; vm_compute; reflexivity. Qed.

(** The shortfall is not confined to one sample: with a block size of 10
    the truncation empties or shortens many blocks, and 609 of the 8000
    samples are missing. *)
Lemma play_tone_blocksize_10_loses_samples (m : Binary64.Libm) :
  let r := session m (Fixtures.driven64 10)
             (Fixtures.play_tone (Some 10) _DEFAULT_BUFSIZE) 1000 in
  fst r = Return tt
  /\ Z.of_nat (enqueued_frames (trace (snd r))) = 7391.
Proof. cbv zeta. repeat split; vm_compute; reflexivity. Qed.

(** With the default block size of 2048 the claim of C8 does hold: three
    blocks are queued, 6144 samples, less than one block short of 8000. *)
Lemma play_tone_default_blocksize (m : Binary64.Libm) :
  let r := session m (Fixtures.driven64 2048)
             (Fixtures.play_tone None _DEFAULT_BUFSIZE) 200 in
  fst r = Return tt
  /\ Z.of_nat (enqueued_frames (trace (snd r))) = 6144
  /\ 8000 - 6144 <= 2048
  /\ all_le (Binary64.of_Z 1) (synthesis_t_ends (trace (snd r))) = true.
Proof. cbv zeta. repeat split; try lia; vm_compute; reflexivity. Qed.

(** * Further properties of class Sound *)

(** X1. The constructor raises RuntimeError exactly when [midi_note] and
    [frequency] are both truthy or both falsy; any other failure (overflow of
    the power, a frequency outside the domain of the logarithm, a zero
    reference frequency) is not a RuntimeError. *)
Theorem Sound_init_RuntimeError_iff {F} `{PyFloat F} (mn : option Z)
    (fr : option F) (g : F) (d : option F) (A : F) :
  Sound_init mn fr g d A = inl RuntimeError
  <-> truthy_int mn = truthy_float fr.
Proof.
  unfold Sound_init, note_to_freq, freq_to_note, py_int.
  destruct (truthy_int mn) eqn:Tm, (truthy_float fr) eqn:Tf; cbn [andb].
  - split; reflexivity.
  - destruct mn as [n|]; [|discriminate].
    destruct (f_pow _ _); split; discriminate.
  - destruct fr as [v|]; [|discriminate].
    destruct (f_bool A); [|split; discriminate].
    destruct (f_log _ _) as [l|];
      [destruct (f_int _); [|destruct (f_isnan _)]|]; split; discriminate.
  - split; reflexivity.
Qed.

(** ** get_wave *)

Section WaveShape.
Context {F : Type} `{PyFloat F}.

Lemma length_set_last (l : list F) (v : F) : length (set_last l v) = length l.
Proof.
  destruct l as [|a l]; [reflexivity|]. unfold set_last.
  rewrite (app_removelast_last a (l := a :: l)) at 2 by discriminate.
  rewrite !length_app. reflexivity.
Qed.

Lemma last_set_last (l : list F) (v d : F) :
  l <> [] -> List.last (set_last l v) d = v.
Proof.
  destruct l as [|a l]; [congruence|]. intros _. unfold set_last.
  apply last_last.
Qed.

Lemma length_linspace (start stop : F) (num : Z) :
  length (linspace start stop num) = Z.to_nat num.
Proof.
  unfold linspace.
  assert (L : forall y : list F,
             length y = Z.to_nat num ->
             length (if 1 <? num then set_last y stop else y) = Z.to_nat num).
  { intros y Hy. destruct (1 <? num); [rewrite length_set_last|]; exact Hy. }
  apply L. rewrite length_map.
  destruct (0 <? num - 1); [destruct (f_bool _)|];
    rewrite !length_map, length_seq; reflexivity.
Qed.

Lemma last_linspace (start stop d : F) (num : Z) :
  2 <= num -> List.last (linspace start stop num) d = stop.
Proof.
  intros Hn. unfold linspace.
  destruct (1 <? num) eqn:E; [|apply Z.ltb_ge in E; lia].
  apply last_set_last. intros En.
  apply (f_equal (@length F)) in En. rewrite length_map in En.
  assert (Z.to_nat num <> 0)%nat by lia.
  destruct (0 <? num - 1); [destruct (f_bool _)|];
    rewrite !length_map, length_seq in En; cbn in En; lia.
Qed.

(** X4. When [int((t_end - t_start) * samplerate)] is a number [num] that is
    not negative, [get_wave] returns exactly [num] samples, one per sample
    instant, and with two samples or more the last instant is [t_end]
    itself. *)
Theorem get_wave_block_shape (self : Sound F) (t_start t_end : F)
    (samplerate num : Z) :
  f_int (f_mul (f_sub t_end t_start) (f_of_int samplerate)) = Some num ->
  0 <= num ->
  exists x,
    get_wave_x t_start t_end samplerate = inr x
    /\ get_wave self t_start t_end samplerate = inr (map (wave_sample self) x)
    /\ length x = Z.to_nat num
    /\ length (map (wave_sample self) x) = Z.to_nat num
    /\ (2 <= num -> List.last x t_start = t_end).
Proof.
  intros Hi Hn. exists (linspace t_start t_end num).
  assert (Ex : get_wave_x t_start t_end samplerate
               = inr (linspace t_start t_end num)).
  { unfold get_wave_x, py_int. rewrite Hi.
    destruct (num <? 0) eqn:E; [apply Z.ltb_lt in E; lia | reflexivity]. }
  split; [exact Ex|]. split; [unfold get_wave; rewrite Ex; reflexivity|].
  split; [apply length_linspace|]. split.
  - rewrite length_map. apply length_linspace.
  - apply last_linspace.
Qed.

(** X5. [get_wave] raises exactly when [int((t_end - t_start) * samplerate)]
    fails or is negative: OverflowError when the product is an infinity,
    ValueError when it is a nan or when the number of samples is negative
    (an interval reversed by a sample or more). *)
Theorem get_wave_raises_iff (self : Sound F) (t_start t_end : F)
    (samplerate : Z) (e : exn) :
  get_wave self t_start t_end samplerate = inl e
  <-> match f_int (f_mul (f_sub t_end t_start) (f_of_int samplerate)) with
      | Some num => num < 0 /\ e = ValueError
      | None =>
          e = if f_isnan (f_mul (f_sub t_end t_start) (f_of_int samplerate))
              then ValueError else OverflowError
      end.
Proof.
  unfold get_wave, get_wave_x, py_int.
  destruct (f_int _) as [num|].
  - destruct (num <? 0) eqn:E.
    + apply Z.ltb_lt in E. split; [intros [= <-]; auto | intros [_ ->]; reflexivity].
    + apply Z.ltb_ge in E. split; [discriminate | intros [Hn _]; lia].
  - split; [intros [= <-]; reflexivity | intros ->; reflexivity].
Qed.

End WaveShape.

(** In binary64 the product for [get_wave(0., 1/3, 3)] rounds to 1.0, so
    the block has one sample, and the one for [get_wave(0., -1/3, 3)] rounds
    to -1.0, so the call raises; over the reals both blocks are empty. *)
Example get_wave_third_of_a_second (m : Binary64.Libm) :
  let third := PrimFloat.div (Binary64.of_Z 1) (Binary64.of_Z 3) in
  option_map (@length _)
    (match @get_wave _ (Binary64.ops m) Fixtures.tone (Binary64.of_Z 0)
             third 3 with inr b => Some b | inl _ => None end) = Some 1%nat
  /\ @get_wave _ (Binary64.ops m) Fixtures.tone (Binary64.of_Z 0)
       (PrimFloat.opp third) 3 = inl ValueError.
Proof. cbv zeta. split; vm_compute; reflexivity. Qed.

Section WaveIdeal.
Local Open Scope R_scope.

(** Four samples per second for one second. *)
Lemma get_wave_block_shape_witness :
  exists x,
    get_wave_x (F := R) 0 1 4 = inr x
    /\ get_wave Fixtures.one_hertz 0 1 4
       = inr (map (wave_sample Fixtures.one_hertz) x)
    /\ length x = Z.to_nat 4
    /\ length (map (wave_sample Fixtures.one_hertz) x) = Z.to_nat 4
    /\ ((2 <= 4)%Z -> List.last x 0 = 1).
Proof.
  apply (get_wave_block_shape Fixtures.one_hertz 0 1 4 4).
  - cbn. f_equal. apply Rtrunc_eq; [lia | lra].
  - lia.
Defined.

(** X6. No sample is larger in magnitude than the gain. *)
Theorem get_wave_within_gain (self : Sound R) (t_start t_end : R)
    (samplerate : Z) (block : list R) :
  get_wave self t_start t_end samplerate = inr block ->
  Forall (fun v => Rabs v <= Rabs (gain self)) block.
Proof.
  unfold get_wave. destruct (get_wave_x t_start t_end samplerate) as [e|x];
    [discriminate|].
  intros E. injection E as <-.
  induction x as [|xi x IH]; constructor; [|exact IH].
  cbn [f_mul f_sin R_float]. rewrite Rabs_mult.
  rewrite <- (Rmult_1_r (Rabs (gain self))) at 2.
  apply Rmult_le_compat_l; [apply Rabs_pos|].
  apply Rabs_le. apply SIN_bound.
Qed.

End WaveIdeal.

Lemma get_wave_within_gain_witness :
  Forall (fun v => (Rabs v <= Rabs (gain Fixtures.one_hertz))%R)
    (map (wave_sample Fixtures.one_hertz)
       [(0 * (1 / 3) + 0)%R; (1 * (1 / 3) + 0)%R; (2 * (1 / 3) + 0)%R; 1%R]).
Proof.
  apply (get_wave_within_gain Fixtures.one_hertz 0 1 4).
  unfold get_wave. rewrite get_wave_x_0_1_4. reflexivity.
Defined.

(** * Further properties of the state machines *)

Section Toggle.
Context {F : Type}.

(** X7. [pause_playback] does nothing at all in state STOPPED (no log, no
    event); in the two other states it switches to the other one and sets
    the event, a second call switches back, and the recording machine is
    not touched.  [pause_recording] is the mirror image. *)
Theorem pause_toggles (w : World F) :
  match playback_state w with
  | PlaybackState.STOPPED => pause_playback w = (Return tt, w)
  | s =>
      let w1 := snd (pause_playback w) in
      let w2 := snd (pause_playback w1) in
      playback_state w1 <> s
      /\ playback_state w1 <> PlaybackState.STOPPED
      /\ playback_paused_changed w1 = true
      /\ playback_state w2 = s
      /\ recording_state w2 = recording_state w
      /\ recording_paused_changed w2 = recording_paused_changed w
  end
  /\ match recording_state w with
     | RecordingState.STOPPED => pause_recording w = (Return tt, w)
     | s =>
         let w1 := snd (pause_recording w) in
         let w2 := snd (pause_recording w1) in
         recording_state w1 <> s
         /\ recording_state w1 <> RecordingState.STOPPED
         /\ recording_paused_changed w1 = true
         /\ recording_state w2 = s
         /\ playback_state w2 = playback_state w
         /\ playback_paused_changed w2 = playback_paused_changed w
     end.
Proof.
  split.
  - destruct (playback_state w) eqn:E; unfold pause_playback; unfold_monad;
      cbn; rewrite E; cbn; repeat split; congruence.
  - destruct (recording_state w) eqn:E; unfold pause_recording; unfold_monad;
      cbn; rewrite E; cbn; repeat split; congruence.
Qed.

Lemma control_effect_refl (w : World F) : control_effect w w.
Proof. split; auto. Qed.

Lemma control_effect_trans (w1 w2 w3 : World F) :
  control_effect w1 w2 -> control_effect w2 w3 -> control_effect w1 w3.
Proof. intros [] []. split; auto; congruence. Qed.

Lemma run_ctl_effect (c : Ctl) (w : World F) :
  fst (run_ctl c w) = Return tt /\ control_effect w (snd (run_ctl c w)).
Proof.
  destruct c; unfold run_ctl, pause_playback, stop_playback,
    pause_recording, stop_recording; unfold_monad; cbn;
    try destruct (playback_state w) eqn:E;
    try destruct (recording_state w) eqn:E';
    cbn; (split; [reflexivity|]); split; cbn; auto; congruence.
Qed.

Lemma run_ctls_effect (l : list Ctl) (w : World F) :
  fst (run_ctls l w) = Return tt /\ control_effect w (snd (run_ctls l w)).
Proof.
  revert w. induction l as [|c r IH]; intros w.
  - split; [reflexivity | apply control_effect_refl].
  - cbn [run_ctls]. unfold bind.
    destruct (run_ctl_effect c w) as [E1 C1].
    destruct (run_ctl c w) as [o1 w1]. cbn [fst snd] in E1, C1. subst o1.
    destruct (IH w1) as [E2 C2]. split; [exact E2|].
    eapply control_effect_trans; eassumption.
Qed.

(** X8. However many [pause_*] and [stop_*] calls the other threads make,
    they all return, none starts or resumes a stopped machine, none clears
    an event, and none touches the queue, the device buffer, the stream,
    the sound file or the disk. *)
Theorem control_actions_effect (l : list Ctl) (w : World F) :
  fst (run_ctls l w) = Return tt /\ control_effect w (snd (run_ctls l w)).
Proof. exact (run_ctls_effect l w). Qed.

End Toggle.

Section CtlStep.
Context {F : Type} `{PyFloat F}.
Variable env : Env F.

Lemma ctl_step_effect (w : World F) :
  control_effect w (snd (ctl_step env w))
  /\ clock (snd (ctl_step env w)) = S (clock w).
Proof.
  unfold ctl_step.
  destruct (run_ctls_effect (env_ctl env (clock w))
              (set_clock (S (clock w)) w)) as [_ C].
  split.
  - eapply control_effect_trans; [|exact C]. split; auto.
  - destruct (run_ctls_frame (env_ctl env (clock w))
                (set_clock (S (clock w)) w)) as (w' & E & _ & Cl).
    rewrite E. exact Cl.
Qed.

End CtlStep.

(** * Further properties of the stream callbacks *)

Section Callbacks.
Context {F : Type} `{PyFloat F}.
Variable env : Env F.

(** X9. When the state the callback reads is STOPPED it raises
    CallbackAbort at once: no block is taken from the queue and the output
    buffer is not written. *)
Theorem audio_callback_stopped_aborts (w : World F) (blocksize frames : Z)
    (status : CallbackFlags) (fuel : nat) :
  playback_state (snd (ctl_step env w)) = PlaybackState.STOPPED ->
  audio_callback env blocksize frames status fuel w
  = (Raise CallbackAbort, snd (ctl_step env w))
  /\ q (snd (ctl_step env w)) = q w
  /\ outdata (snd (ctl_step env w)) = outdata w.
Proof.
  intros Hs. destruct (ctl_step_effect env w) as [C _].
  split; [|split; [apply (ce_q _ _ C) | apply (ce_outdata _ _ C)]].
  unfold audio_callback. unfold bind at 1.
  rewrite get_playback_state_eq. cbn [fst snd]. rewrite Hs. reflexivity.
Qed.

(** X10. With the machine running, a callback for a frame count other than
    the block size fails its first assertion; the queue and the output
    buffer are as before. *)
Theorem audio_callback_wrong_frames (w : World F) (blocksize frames : Z)
    (status : CallbackFlags) (fuel : nat) :
  env_ctl env (clock w) = [] ->
  env_ctl env (S (clock w)) = [] ->
  playback_state w = PlaybackState.PLAYING ->
  fuel <> O ->
  frames <> blocksize ->
  audio_callback env blocksize frames status fuel w
  = (Raise AssertionError, set_clock (S (S (clock w))) w).
Proof.
  intros Q1 Q2 Hp Hfuel Hfr. unfold audio_callback.
  rewrite audio_callback_running by assumption.
  apply Z.eqb_neq in Hfr. rewrite Hfr. reflexivity.
Qed.

(** X11. With the machine running, a callback whose status reports an
    output underflow only logs a warning and returns: it takes no block
    from the queue and leaves the output buffer as the driver handed it
    over, whatever it held. *)
Theorem audio_callback_output_underflow (w : World F) (blocksize : Z)
    (status : CallbackFlags) (fuel : nat) :
  env_ctl env (clock w) = [] ->
  env_ctl env (S (clock w)) = [] ->
  playback_state w = PlaybackState.PLAYING ->
  fuel <> O ->
  output_underflow status = true ->
  audio_callback env blocksize blocksize status fuel w
  = (Return tt,
     emit (Log "Output underflow: increase blocksize?")
       (set_clock (S (S (clock w))) w)).
Proof.
  intros Q1 Q2 Hp Hfuel Hu. unfold audio_callback.
  rewrite audio_callback_running by assumption.
  rewrite Z.eqb_refl, Hu. reflexivity.
Qed.

(** X12. With the machine running and a clean status, the callback takes
    the oldest block of the queue and, when the block is not longer than
    the output buffer, writes it at the start of the buffer and fills the
    rest with zeros: the buffer keeps its length and the rest of the queue
    is untouched. *)
Theorem audio_callback_copies_and_pads (w : World F) (blocksize : Z)
    (status : CallbackFlags) (fuel : nat) (data : list F)
    (rest : list (list F)) :
  env_ctl env (clock w) = [] ->
  env_ctl env (S (clock w)) = [] ->
  playback_state w = PlaybackState.PLAYING ->
  fuel <> O ->
  flags_bool status = false ->
  q w = data :: rest ->
  (length data <= length (outdata w))%nat ->
  audio_callback env blocksize blocksize status fuel w
  = (Return tt,
     set_outdata (data ++ silence (length (outdata w) - length data))
       (set_q rest (set_clock (S (S (clock w))) w)))
  /\ length (data ++ silence (length (outdata w) - length data))
     = length (outdata w).
Proof.
  intros Q1 Q2 Hp Hfuel Hs Hq Hlen.
  assert (Hu : output_underflow status = false).
  { unfold flags_bool in Hs. destruct (input_underflow status),
      (input_overflow status), (output_underflow status); cbn in Hs;
      congruence. }
  split.
  - unfold audio_callback. rewrite audio_callback_running by assumption.
    rewrite Z.eqb_refl, Hu, Hs. cbn [negb].
    unfold bind at 1, try_except, q_get_nowait.
    change (q (set_clock _ _)) with (q w). rewrite Hq.
    unfold bind, gets, modify.
    change (outdata (set_q _ _)) with (outdata w).
    destruct (length data <? length (outdata w))%nat eqn:E; [reflexivity|].
    apply Nat.ltb_ge in E.
    assert (El : length data = length (outdata w)) by lia.
    rewrite El, Nat.eqb_refl, Nat.sub_diag. cbn [silence repeat].
    rewrite app_nil_r. reflexivity.
  - rewrite length_app. unfold silence. rewrite repeat_length. lia.
Qed.

(** X13. The callback of [record], with the recording machine not paused,
    puts the captured block at the end of the capture queue, which has no
    bound, whatever the status flags say; it never drops a block. *)
Theorem record_audio_callback_enqueues (w : World F) (indata : list F)
    (status : CallbackFlags) (fuel : nat) :
  env_ctl env (clock w) = [] ->
  recording_state w <> RecordingState.PAUSED ->
  fuel <> O ->
  q_maxsize w <= 0 ->
  exists w',
    record_audio_callback env indata status fuel w = (Return tt, w')
    /\ q w' = q w ++ [indata]
    /\ recording_state w' = recording_state w.
Proof.
  intros Q1 Hp Hfuel Hmax. unfold record_audio_callback.
  destruct fuel as [|n]; [congruence|].
  cbn [wait_while_recording_paused]. unfold bind at 1. unfold bind at 1.
  rewrite get_recording_state_eq, ctl_step_quiet by exact Q1.
  cbn [fst snd].
  change (recording_state (set_clock _ w)) with (recording_state w).
  assert (E : RecordingState.eqb (recording_state w) RecordingState.PAUSED
              = false) by (destruct (recording_state w); [reflexivity | reflexivity | congruence]).
  rewrite E. unfold ret at 1.
  assert (Hfull : forall w0 : World F, q_maxsize w0 = q_maxsize w ->
                                       q_full w0 = false).
  { intros w0 E0. unfold q_full. rewrite E0.
    destruct (0 <? q_maxsize w) eqn:E1; [apply Z.ltb_lt in E1; lia|].
    reflexivity. }
  destruct (flags_bool status); unfold log; unfold_monad;
    unfold q_put_nowait; cbv beta iota; rewrite Hfull by reflexivity;
    eexists; (split; [reflexivity|]); split; reflexivity.
Qed.

(** X14. The callback of [recordplay], with the recording machine not
    paused, leaves the output buffer equal to the input block, whatever the
    status flags say. *)
Theorem recordplay_audio_callback_passes_through (w : World F)
    (indata : list F) (status : CallbackFlags) (fuel : nat) :
  env_ctl env (clock w) = [] ->
  recording_state w <> RecordingState.PAUSED ->
  fuel <> O ->
  exists w',
    recordplay_audio_callback env indata status fuel w = (Return tt, w')
    /\ outdata w' = indata
    /\ q w' = q w.
Proof.
  intros Q1 Hp Hfuel. unfold recordplay_audio_callback.
  destruct fuel as [|n]; [congruence|].
  cbn [wait_while_recording_paused]. unfold bind at 1. unfold bind at 1.
  rewrite get_recording_state_eq, ctl_step_quiet by exact Q1.
  cbn [fst snd].
  change (recording_state (set_clock _ w)) with (recording_state w).
  assert (E : RecordingState.eqb (recording_state w) RecordingState.PAUSED
              = false) by (destruct (recording_state w); [reflexivity | reflexivity | congruence]).
  rewrite E. unfold ret at 1.
  destruct (flags_bool status); unfold log; unfold_monad; cbv beta iota;
    eexists; (split; [reflexivity|]); split; reflexivity.
Qed.

End Callbacks.

(** A stopped machine: the callback aborts and the stale buffer stays. *)
Lemma audio_callback_stopped_aborts_witness :
  audio_callback Fixtures.quiet 2 2 no_flags 10
    (set_outdata [1%R; 1%R] Fixtures.idle_world)
  = (Raise CallbackAbort,
     snd (ctl_step Fixtures.quiet (set_outdata [1%R; 1%R] Fixtures.idle_world)))
  /\ q (snd (ctl_step Fixtures.quiet
               (set_outdata [1%R; 1%R] Fixtures.idle_world))) = []
  /\ outdata (snd (ctl_step Fixtures.quiet
                     (set_outdata [1%R; 1%R] Fixtures.idle_world)))
     = [1%R; 1%R].
Proof.
  apply (audio_callback_stopped_aborts Fixtures.quiet
           (set_outdata [1%R; 1%R] Fixtures.idle_world) 2 2 no_flags 10).
  reflexivity.
Defined.

(** The driver asks for three frames where the block size is two. *)
Lemma audio_callback_wrong_frames_witness :
  audio_callback Fixtures.quiet 2 3 no_flags 10 Fixtures.playing_world
  = (Raise AssertionError, set_clock 2 Fixtures.playing_world).
Proof.
  apply (audio_callback_wrong_frames Fixtures.quiet Fixtures.playing_world
           2 3 no_flags 10);
    solve [reflexivity | discriminate].
Defined.

(** An underflow is reported while a block is waiting in the queue. *)
Lemma audio_callback_output_underflow_witness :
  audio_callback Fixtures.quiet 2
    2 (Build_CallbackFlags false false true false false) 10
    (set_q [[2%R; 2%R]] Fixtures.playing_world)
  = (Return tt,
     emit (Log "Output underflow: increase blocksize?")
       (set_clock 2 (set_q [[2%R; 2%R]] Fixtures.playing_world))).
Proof.
  apply (audio_callback_output_underflow Fixtures.quiet
           (set_q [[2%R; 2%R]] Fixtures.playing_world) 2
           (Build_CallbackFlags false false true false false) 10);
    solve [reflexivity | discriminate].
Defined.

(** A block of one sample for a buffer of two. *)
Lemma audio_callback_copies_and_pads_witness :
  audio_callback Fixtures.quiet 2 2 no_flags 10
    (set_q [[2%R]; [3%R; 3%R]] Fixtures.playing_world)
  = (Return tt,
     set_outdata ([2%R] ++ silence 1)
       (set_q [[3%R; 3%R]]
          (set_clock 2 (set_q [[2%R]; [3%R; 3%R]] Fixtures.playing_world))))
  /\ length ([2%R] ++ silence (F := R) 1) = 2%nat.
Proof.
  apply (audio_callback_copies_and_pads Fixtures.quiet
           (set_q [[2%R]; [3%R; 3%R]] Fixtures.playing_world) 2 no_flags 10
           [2%R] [[3%R; 3%R]]);
    solve [reflexivity | discriminate | cbn; lia].
Defined.

(** Two captured samples, reported with an input overflow. *)
Lemma record_audio_callback_enqueues_witness :
  exists w',
    record_audio_callback Fixtures.quiet [1%R; 0%R]
      (Build_CallbackFlags false true false false false) 10
      Fixtures.idle_world = (Return tt, w')
    /\ q w' = q Fixtures.idle_world ++ [[1%R; 0%R]]
    /\ recording_state w' = recording_state Fixtures.idle_world.
Proof.
  apply (record_audio_callback_enqueues Fixtures.quiet Fixtures.idle_world
           [1%R; 0%R] (Build_CallbackFlags false true false false false) 10);
    solve [reflexivity | discriminate | cbn; lia].
Defined.

Lemma recordplay_audio_callback_passes_through_witness :
  exists w',
    recordplay_audio_callback Fixtures.quiet [1%R; 0%R] no_flags 10
      Fixtures.playing_world = (Return tt, w')
    /\ outdata w' = [1%R; 0%R]
    /\ q w' = q Fixtures.playing_world.
Proof.
  apply (recordplay_audio_callback_passes_through Fixtures.quiet
           Fixtures.playing_world [1%R; 0%R] no_flags 10);
    solve [reflexivity | discriminate].
Defined.

Section CallbackBounds.
Context {F : Type} `{PyFloat F}.
Variable env : Env F.

(** X15. A block longer than the output buffer cannot be copied: the
    callback raises ValueError after it has taken the block from the queue,
    so the block is lost, and the output buffer is not written. *)
Theorem audio_callback_block_too_long (w : World F) (blocksize : Z)
    (status : CallbackFlags) (fuel : nat) (data : list F)
    (rest : list (list F)) :
  env_ctl env (clock w) = [] ->
  env_ctl env (S (clock w)) = [] ->
  playback_state w = PlaybackState.PLAYING ->
  fuel <> O ->
  flags_bool status = false ->
  q w = data :: rest ->
  (length (outdata w) < length data)%nat ->
  audio_callback env blocksize blocksize status fuel w
  = (Raise ValueError, set_q rest (set_clock (S (S (clock w))) w)).
Proof.
  intros Q1 Q2 Hp Hfuel Hs Hq Hlen.
  assert (Hu : output_underflow status = false).
  { unfold flags_bool in Hs. destruct (input_underflow status),
      (input_overflow status), (output_underflow status); cbn in Hs;
      congruence. }
  unfold audio_callback.
  rewrite (audio_callback_running env w fuel) by assumption.
  rewrite Z.eqb_refl, Hu, Hs. cbn [negb].
  unfold bind at 1, try_except, q_get_nowait.
  change (q (set_clock _ _)) with (q w). rewrite Hq.
  unfold bind, gets, modify.
  change (outdata (set_q _ _)) with (outdata w).
  destruct (length data <? length (outdata w))%nat eqn:E1;
    [apply Nat.ltb_lt in E1; lia|].
  destruct (length data =? length (outdata w))%nat eqn:E2;
    [apply Nat.eqb_eq in E2; lia|].
  reflexivity.
Qed.

End CallbackBounds.

(** A block of three samples for a buffer of two. *)
Lemma audio_callback_block_too_long_witness :
  audio_callback Fixtures.quiet 2 2 no_flags 10
    (set_q [[2%R; 2%R; 2%R]] Fixtures.playing_world)
  = (Raise ValueError,
     set_q [] (set_clock 2 (set_q [[2%R; 2%R; 2%R]] Fixtures.playing_world))).
Proof.
  apply (audio_callback_block_too_long Fixtures.quiet
           (set_q [[2%R; 2%R; 2%R]] Fixtures.playing_world) 2 no_flags 10
           [2%R; 2%R; 2%R] []);
    solve [reflexivity | discriminate | cbn; lia].
Defined.

(** * Invariants of the sessions *)

Section Keeps.
Context {F : Type}.
Variable I : World F -> Prop.
Variable E : exn -> Prop.

Lemma keeps_ret {A} (a : A) : keeps I E (ret a).
Proof. intros w Hw. apply post_ret. split; [exact Hw | discriminate]. Qed.

Lemma keeps_gets {A} (g : World F -> A) : keeps I E (gets g).
Proof. intros w Hw. apply post_gets. split; [exact Hw | discriminate]. Qed.

Lemma keeps_raise {A} (e : exn) : E e -> keeps I E (raise (A := A) e).
Proof.
  intros He w Hw. apply post_raise. split; [exact Hw|].
  intros e' [= <-]. exact He.
Qed.

Lemma keeps_out_of_fuel {A} : keeps I E (out_of_fuel (A := A)).
Proof. intros w Hw o w' Eq Hne. injection Eq as <- <-. congruence. Qed.

Lemma keeps_modify (g : World F -> World F) :
  (forall w, I w -> I (g w)) -> keeps I E (modify g).
Proof.
  intros Hg w Hw. apply post_modify. split; [auto | discriminate].
Qed.

Lemma keeps_bind {A B} (m : M F A) (k : A -> M F B) :
  keeps I E m -> (forall a, keeps I E (k a)) -> keeps I E (bind m k).
Proof.
  intros Hm Hk w Hw. apply post_bind.
  eapply post_conseq; [apply (Hm w Hw)|].
  intros o w1 _ [H1 He]. destruct o as [a|e|]; [| |exact Logic.I].
  - apply Hk. exact H1.
  - split; [exact H1|]. intros e' [= <-]. exact (He e eq_refl).
Qed.

Lemma keeps_try_except {A} (m : M F A) (c : exn -> bool) (h : M F A) :
  keeps I E m -> keeps I E h ->
  keeps I E (try_except m (fun e => if c e then Some h else None)).
Proof.
  intros Hm Hh w Hw o w' Eq Hne. unfold try_except in Eq.
  destruct (m w) as [[a|e|] w1] eqn:Em.
  - injection Eq as <- <-. exact (Hm w Hw _ _ Em ltac:(discriminate)).
  - destruct (Hm w Hw _ _ Em ltac:(discriminate)) as [H1 He].
    destruct (c e).
    + exact (Hh w1 H1 _ _ Eq Hne).
    + injection Eq as <- <-. auto.
  - injection Eq as <- <-. congruence.
Qed.

Lemma keeps_try_finally {A} (m : M F A) (fin : M F unit) :
  keeps I E m -> keeps I E fin -> keeps I E (try_finally m fin).
Proof.
  intros Hm Hf w Hw o w' Eq Hne. unfold try_finally in Eq.
  destruct (m w) as [[a|e|] w1] eqn:Em;
    [| |injection Eq as <- <-; congruence];
    destruct (Hm w Hw _ _ Em ltac:(discriminate)) as [H1 He];
    (destruct (fin w1) as [[[]|e'|] w2] eqn:Ef;
     [| |injection Eq as <- <-; congruence]);
    destruct (Hf w1 H1 _ _ Ef ltac:(discriminate)) as [H2 He2];
    injection Eq as <- <-; (split; [exact H2|]); intros e0 Ho;
    first [discriminate | injection Ho as <-; auto].
Qed.

Lemma keeps_world_if {A} (c : World F -> bool) (m1 m2 : M F A) :
  keeps I E m1 -> keeps I E m2 ->
  keeps I E (fun w => if c w then m1 w else m2 w).
Proof.
  intros H1 H2 w Hw o w' Eq Hne. destruct (c w).
  - exact (H1 w Hw _ _ Eq Hne).
  - exact (H2 w Hw _ _ Eq Hne).
Qed.

End Keeps.

Ltac keeps_step :=
  first
    [ assumption
    | apply keeps_ret
    | apply keeps_gets
    | apply keeps_out_of_fuel
    | apply keeps_bind; [|intros ?]
    | apply keeps_try_except
    | apply keeps_try_finally
    | match goal with
      | |- keeps _ _ (if ?c then _ else _) => destruct c
      | |- keeps _ _ (match ?x with _ => _ end) => destruct x
      end ].

Section KeepsPlugin.
Context {F : Type} `{PyFloat F}.
Variable env : Env F.
Variable I : World F -> Prop.
Variable E : exn -> Prop.
Hypothesis HI : stable I.
Hypothesis HIf : file_stable I.
Hypothesis HE : forall e, is_QueueFull e = false -> E e.
Hypothesis Hfault : forall k e, env_fault env k = Some e -> E e.

Lemma keeps_log (msg : string) : keeps I E (log msg).
Proof. apply keeps_modify. intros w. apply (st_emit I HI). Qed.

Lemma keeps_set_playback_state v :
  keeps I E (modify (set_playback_state v)).
Proof. apply keeps_modify. intros w. apply (st_playback_state I HI). Qed.

Lemma keeps_set_recording_state v :
  keeps I E (modify (set_recording_state v)).
Proof. apply keeps_modify. intros w. apply (st_recording_state I HI). Qed.

Lemma keeps_set_playback_paused_changed v :
  keeps I E (modify (set_playback_paused_changed v)).
Proof. apply keeps_modify. intros w. apply (st_playback_paused_changed I HI). Qed.

Lemma keeps_set_recording_paused_changed v :
  keeps I E (modify (set_recording_paused_changed v)).
Proof. apply keeps_modify. intros w. apply (st_recording_paused_changed I HI). Qed.

Lemma keeps_set_f v : keeps I E (modify (set_f v)).
Proof. apply keeps_modify. intros w. apply HIf. Qed.

Lemma keeps_set_outdata v : keeps I E (modify (set_outdata v)).
Proof. apply keeps_modify. intros w. apply (st_outdata I HI). Qed.

Lemma keeps_set_completed_callback_event v :
  keeps I E (modify (set_completed_callback_event v)).
Proof. apply keeps_modify. intros w. apply (st_completed_callback_event I HI). Qed.

Lemma keeps_emit e : keeps I E (modify (emit e)).
Proof. apply keeps_modify. intros w. apply (st_emit I HI). Qed.

Lemma keeps_other {A} (e : exn) :
  is_QueueFull e = false -> keeps I E (raise (A := A) e).
Proof. intros He. apply keeps_raise, HE, He. Qed.

Ltac keeps_prim :=
  first
    [ apply keeps_log
    | apply keeps_set_playback_state
    | apply keeps_set_recording_state
    | apply keeps_set_playback_paused_changed
    | apply keeps_set_recording_paused_changed
    | apply keeps_set_f
    | apply keeps_set_outdata
    | apply keeps_set_completed_callback_event
    | apply keeps_emit
    | apply keeps_other; reflexivity
    | keeps_step ].

Lemma keeps_start_playback : keeps I E (start_playback (F := F)).
Proof. unfold start_playback. keeps_prim. Qed.

Lemma keeps_stop_playback : keeps I E (stop_playback (F := F)).
Proof. unfold stop_playback. repeat keeps_prim. Qed.

Lemma keeps_pause_playback : keeps I E (pause_playback (F := F)).
Proof. unfold pause_playback. repeat keeps_prim. Qed.

Lemma keeps_start_recording : keeps I E (start_recording (F := F)).
Proof. unfold start_recording. keeps_prim. Qed.

Lemma keeps_stop_recording : keeps I E (stop_recording (F := F)).
Proof. unfold stop_recording. repeat keeps_prim. Qed.

Lemma keeps_pause_recording : keeps I E (pause_recording (F := F)).
Proof. unfold pause_recording. repeat keeps_prim. Qed.

Lemma keeps_run_ctl c : keeps I E (run_ctl (F := F) c).
Proof.
  destruct c; cbn [run_ctl];
    [ apply keeps_pause_playback | apply keeps_stop_playback
    | apply keeps_pause_recording | apply keeps_stop_recording ].
Qed.

Lemma keeps_run_ctls l : keeps I E (run_ctls (F := F) l).
Proof.
  induction l as [|c r IH]; cbn [run_ctls].
  - apply keeps_ret.
  - apply keeps_bind; [apply keeps_run_ctl | intros _; exact IH].
Qed.

Lemma keeps_ctl_step : keeps I E (ctl_step env).
Proof.
  intros w Hw o w' Eq Hne. unfold ctl_step in Eq.
  exact (keeps_run_ctls _ _ (st_clock I HI _ Hw) _ _ Eq Hne).
Qed.

Lemma keeps_get_playback_state : keeps I E (_get_playback_state env).
Proof. unfold _get_playback_state. apply keeps_bind; [apply keeps_ctl_step|]. intros _. apply keeps_gets. Qed.

Lemma keeps_get_recording_state : keeps I E (_get_recording_state env).
Proof. unfold _get_recording_state. apply keeps_bind; [apply keeps_ctl_step|]. intros _. apply keeps_gets. Qed.

Lemma keeps_collaborator : keeps I E (collaborator env).
Proof.
  intros w Hw o w' Eq Hne. unfold collaborator in Eq.
  destruct (env_fault env (clock w)) as [e|] eqn:Ef; injection Eq as <- <-;
    (split; [apply (st_clock I HI), Hw|]).
  - intros e' [= <-]. exact (Hfault _ _ Ef).
  - discriminate.
Qed.

Lemma keeps_event_wait (idle : M F unit) (flag : World F -> bool) fuel :
  keeps I E idle -> keeps I E (event_wait idle flag fuel).
Proof.
  intros Hidle. induction fuel as [|k IH]; cbn [event_wait].
  - apply (keeps_world_if I E flag (ret tt) out_of_fuel);
      [apply keeps_ret | apply keeps_out_of_fuel].
  - apply (keeps_world_if I E flag (ret tt) (idle;;; event_wait idle flag k));
      [apply keeps_ret|].
    apply keeps_bind; [exact Hidle | intros _; exact IH].
Qed.

Lemma keeps_wait_while_playback_paused (idle : M F unit) fuel n :
  keeps I E idle -> keeps I E (wait_while_playback_paused env idle fuel n).
Proof.
  intros Hidle. induction n as [|k IH]; cbn [wait_while_playback_paused].
  - apply keeps_out_of_fuel.
  - apply keeps_bind; [apply keeps_get_playback_state|]. intros st.
    destruct (PlaybackState.eqb st PlaybackState.PAUSED); [|apply keeps_ret].
    apply keeps_bind; [apply keeps_event_wait, Hidle | intros _; exact IH].
Qed.

Lemma keeps_wait_while_recording_paused (idle : M F unit) fuel n :
  keeps I E idle -> keeps I E (wait_while_recording_paused env idle fuel n).
Proof.
  intros Hidle. induction n as [|k IH]; cbn [wait_while_recording_paused].
  - apply keeps_out_of_fuel.
  - apply keeps_bind; [apply keeps_get_recording_state|]. intros st.
    destruct (RecordingState.eqb st RecordingState.PAUSED); [|apply keeps_ret].
    apply keeps_bind; [apply keeps_event_wait, Hidle | intros _; exact IH].
Qed.

Lemma keeps_q_get_nowait : keeps I E (q_get_nowait (F := F)).
Proof.
  intros w Hw o w' Eq Hne. unfold q_get_nowait in Eq.
  destruct (q w) as [|d r] eqn:Eq'; injection Eq as <- <-.
  - split; [exact Hw|]. intros e [= <-]. apply HE. reflexivity.
  - split; [exact (st_q_pop I HI d r w Eq' Hw) | discriminate].
Qed.

Lemma keeps_audio_callback blocksize frames status fuel :
  keeps I E (audio_callback env blocksize frames status fuel).
Proof.
  unfold audio_callback.
  apply keeps_bind; [apply keeps_get_playback_state|]. intros st.
  destruct (PlaybackState.eqb st PlaybackState.STOPPED);
    [apply keeps_other; reflexivity|].
  apply keeps_bind;
    [apply keeps_wait_while_playback_paused, keeps_ctl_step|]. intros _.
  destruct (negb (frames =? blocksize)); [apply keeps_other; reflexivity|].
  destruct (output_underflow status); [apply keeps_log|].
  destruct (flags_bool status); [apply keeps_other; reflexivity|].
  apply keeps_bind.
  - apply keeps_try_except; [apply keeps_q_get_nowait|].
    apply keeps_bind; [apply keeps_log|]. intros _.
    apply keeps_other; reflexivity.
  - intros data. apply keeps_bind; [apply keeps_gets|]. intros out.
    destruct (length data <? length out)%nat; [apply keeps_set_outdata|].
    destruct (length data =? length out)%nat; [apply keeps_set_outdata|].
    apply keeps_other; reflexivity.
Qed.

(** The PortAudio thread never lets an exception of the callback out. *)
Lemma keeps_driver_step blocksize fuel :
  keeps I (fun _ => False) (driver_step env blocksize fuel).
Proof.
  intros w Hw o w' Eq Hne. unfold driver_step in Eq.
  destruct (stream_active w);
    [|injection Eq as <- <-; split; [exact Hw | discriminate]].
  destruct (env_driver env (clock w)) as [c|];
    [|injection Eq as <- <-; split; [exact Hw | discriminate]].
  destruct (audio_callback env blocksize (dc_frames c) (dc_status c) fuel
              (set_outdata (dc_buffer c) w)) as [[[]|e|] w1] eqn:Ec;
    injection Eq as <- <-; [| |congruence];
    destruct (keeps_audio_callback _ _ _ _ _ (st_outdata I HI _ _ Hw) _ _ Ec
                ltac:(discriminate)) as [H1 _];
    (split; [|discriminate]).
  - apply (st_emit I HI), H1.
  - apply (st_completed_callback_event I HI), (st_stream_off I HI), H1.
Qed.

Lemma keeps_weaken {A} (m : M F A) :
  keeps I (fun _ => False) m -> keeps I E m.
Proof.
  intros Hm w Hw o w' Eq Hne. destruct (Hm w Hw _ _ Eq Hne) as [H1 He].
  split; [exact H1|]. intros e Ho. destruct (He e Ho).
Qed.

Lemma keeps_others blocksize fuel : keeps I E (others env blocksize fuel).
Proof.
  unfold others. apply keeps_bind; [apply keeps_ctl_step|]. intros _.
  apply keeps_weaken, keeps_driver_step.
Qed.

Lemma keeps_sleep ms : keeps I E (sleep env ms).
Proof.
  unfold sleep. apply keeps_bind; [apply keeps_emit|]. intros _.
  apply keeps_ctl_step.
Qed.

Lemma keeps_device_or_default given configured category :
  keeps I E (device_or_default env given configured category).
Proof.
  unfold device_or_default, _get_default_device.
  destruct given; [apply keeps_ret|]. destruct configured; [apply keeps_ret|].
  apply keeps_bind; [apply keeps_collaborator|]. intros _. apply keeps_ret.
Qed.

Lemma keeps_SoundFile_open name : keeps I E (SoundFile_open env name).
Proof.
  unfold SoundFile_open.
  apply keeps_bind; [apply keeps_collaborator|]. intros _.
  apply keeps_bind; [apply keeps_gets|]. intros files.
  destruct (files !! name) as [[a|]|];
    [|apply keeps_other; reflexivity|apply keeps_other; reflexivity].
  apply keeps_bind; [apply keeps_emit|]. intros _. apply keeps_set_f.
Qed.

Lemma keeps_buffer_read h blocksize : keeps I E (buffer_read env h blocksize).
Proof.
  unfold buffer_read.
  apply keeps_bind; [apply keeps_collaborator|]. intros _. cbn zeta.
  apply keeps_bind; [apply keeps_emit|]. intros _.
  apply keeps_bind; [apply keeps_set_f|]. intros _. apply keeps_ret.
Qed.

Lemma get_wave_raises (s : Sound F) t0 t1 sr e :
  get_wave s t0 t1 sr = inl e -> is_QueueFull e = false.
Proof.
  unfold get_wave, get_wave_x, py_int.
  destruct (f_int _) as [num|].
  - destruct (num <? 0); [intros [= <-]; reflexivity | discriminate].
  - destruct (f_isnan _); intros [= <-]; reflexivity.
Qed.

Lemma keeps_next_block sounds blocksize samplerate t :
  keeps I E (next_block env sounds blocksize samplerate t).
Proof.
  unfold next_block. apply keeps_bind; [apply keeps_gets|]. intros fh.
  destruct fh as [h|].
  - apply keeps_bind; [apply keeps_buffer_read|]. intros data.
    destruct (length data =? 0)%nat; apply keeps_ret.
  - destruct sounds as [|sound r]; [apply keeps_other; reflexivity|].
    cbn zeta.
    destruct (get_wave sound t _ samplerate) as [e|data] eqn:Eg.
    + apply keeps_other. exact (get_wave_raises _ _ _ _ _ Eg).
    + apply keeps_bind; [apply keeps_emit|]. intros _.
      destruct (duration sound) as [d|]; [|apply keeps_ret].
      destruct (f_le d _); apply keeps_ret.
Qed.

Lemma Sound_init_raises mn fr g d A e :
  Sound_init (F := F) mn fr g d A = inl e -> is_QueueFull e = false.
Proof.
  unfold Sound_init, note_to_freq, freq_to_note, py_int.
  destruct (truthy_int mn && truthy_float fr); [intros [= <-]; reflexivity|].
  destruct (truthy_int mn).
  - destruct mn as [n|]; [|intros [= <-]; reflexivity].
    destruct (f_pow _ _); [discriminate | intros [= <-]; reflexivity].
  - destruct (truthy_float fr); [|intros [= <-]; reflexivity].
    destruct fr as [v|]; [|intros [= <-]; reflexivity].
    destruct (f_bool A); [|intros [= <-]; reflexivity].
    destruct (f_log _ _); [|intros [= <-]; reflexivity].
    destruct (f_int _); [discriminate|].
    destruct (f_isnan _); intros [= <-]; reflexivity.
Qed.

Lemma keeps_Sound_of_item i : keeps I E (Sound_of_item i).
Proof.
  destruct i as [s|d]; cbn [Sound_of_item]; [apply keeps_ret|].
  destruct (Sound_init _ _ _ _ _) as [e|s] eqn:Ei; [|apply keeps_ret].
  apply keeps_raise, HE. exact (Sound_init_raises _ _ _ _ _ _ Ei).
Qed.

Lemma keeps_Sound_of_items l : keeps I E (Sound_of_items l).
Proof.
  induction l as [|i r IH]; cbn [Sound_of_items]; [apply keeps_ret|].
  apply keeps_bind; [apply keeps_Sound_of_item|]. intros s.
  apply keeps_bind; [exact IH|]. intros rest. apply keeps_ret.
Qed.

Lemma keeps_load_sounds sounds : keeps I E (load_sounds env sounds).
Proof.
  unfold load_sounds. destruct (truthy_sounds sounds); [|apply keeps_ret].
  destruct sounds as [[l|s]|]; [apply keeps_Sound_of_items| |apply keeps_ret].
  destruct (env_json_loads env s);
    [apply keeps_Sound_of_items | apply keeps_other; reflexivity].
Qed.

Lemma keeps_close_f : keeps I E (close_f (F := F)).
Proof.
  unfold close_f. apply keeps_bind; [apply keeps_gets|]. intros fh.
  destruct fh as [h|]; [|apply keeps_ret].
  destruct (sf_closed h); [apply keeps_ret|].
  apply keeps_bind; [apply keeps_emit|]. intros _. apply keeps_set_f.
Qed.

Lemma keeps_stop_before_play file : keeps I E (stop_before_play env file).
Proof.
  unfold stop_before_play.
  apply keeps_bind; [apply keeps_get_playback_state|]. intros st.
  destruct (negb _); [|apply keeps_ret].
  destruct (truthy_str file); [|apply keeps_ret].
  apply keeps_bind; [apply keeps_log|]. intros _.
  apply keeps_bind; [apply keeps_stop_playback|]. intros _.
  apply keeps_sleep.
Qed.

Lemma keeps_stop_before_record : keeps I E (stop_before_record env).
Proof.
  unfold stop_before_record.
  apply keeps_bind; [apply keeps_get_recording_state|]. intros st.
  destruct (negb _); [|apply keeps_ret].
  apply keeps_bind; [apply keeps_stop_recording|]. intros _.
  apply keeps_sleep.
Qed.

Lemma keeps_stop_playback_before_recordplay :
  keeps I E (stop_playback_before_recordplay env).
Proof.
  unfold stop_playback_before_recordplay.
  apply keeps_bind; [apply keeps_get_playback_state|]. intros st.
  destruct (negb _); [|apply keeps_ret].
  apply keeps_bind; [apply keeps_stop_playback|]. intros _.
  apply keeps_sleep.
Qed.

Lemma keeps_time_time : keeps I E (time_time env).
Proof. apply keeps_gets. Qed.

Lemma keeps_keep_recording dur started :
  keeps I E (keep_recording env dur started).
Proof.
  unfold keep_recording.
  apply keeps_bind; [apply keeps_get_recording_state|]. intros st.
  destruct (RecordingState.eqb _ _); [apply keeps_ret|].
  destruct dur; [|apply keeps_ret].
  apply keeps_bind; [apply keeps_time_time|]. intros now. apply keeps_ret.
Qed.

Lemma keeps_recordplay_audio_callback indata status fuel :
  keeps I E (recordplay_audio_callback env indata status fuel).
Proof.
  unfold recordplay_audio_callback.
  apply keeps_bind;
    [apply keeps_wait_while_recording_paused, keeps_ctl_step|]. intros _.
  apply keeps_bind; [|intros _; apply keeps_set_outdata].
  destruct (flags_bool status); [apply keeps_log | apply keeps_ret].
Qed.

Lemma keeps_recordplay_driver_step fuel :
  keeps I (fun _ => False) (recordplay_driver_step env fuel).
Proof.
  intros w Hw o w' Eq Hne. unfold recordplay_driver_step in Eq.
  destruct (stream_active w);
    [|injection Eq as <- <-; split; [exact Hw | discriminate]].
  destruct (env_driver env (clock w)) as [c|];
    [|injection Eq as <- <-; split; [exact Hw | discriminate]].
  destruct (recordplay_audio_callback env (dc_buffer c) (dc_status c) fuel w)
    as [[[]|e|] w1] eqn:Ec;
    injection Eq as <- <-; [| |congruence];
    destruct (keeps_recordplay_audio_callback _ _ _ _ Hw _ _ Ec
                ltac:(discriminate)) as [H1 _];
    (split; [|discriminate]).
  - apply (st_emit I HI), H1.
  - apply (st_stream_off I HI), H1.
Qed.

Lemma keeps_recordplay_others fuel : keeps I E (recordplay_others env fuel).
Proof.
  unfold recordplay_others. apply keeps_bind; [apply keeps_ctl_step|].
  intros _. apply keeps_weaken, keeps_recordplay_driver_step.
Qed.

Lemma keeps_recordplay_loop n dur started fuel :
  keeps I E (recordplay_loop env n dur started fuel).
Proof.
  induction n as [|k IH]; cbn [recordplay_loop]; [apply keeps_out_of_fuel|].
  apply keeps_bind; [apply keeps_keep_recording|]. intros go.
  destruct go; [|apply keeps_ret].
  apply keeps_bind;
    [apply keeps_wait_while_recording_paused, keeps_recordplay_others|].
  intros _. apply keeps_bind; [apply keeps_emit|]. intros _.
  apply keeps_bind; [apply keeps_recordplay_others|]. intros _. exact IH.
Qed.

(** *** With the queue *)

Section WithQueue.
Hypothesis HQ : queue_stable I.

Lemma keeps_q_put_nowait data :
  E QueueFull -> keeps I E (q_put_nowait data).
Proof.
  intros Hfull w Hw o w' Eq Hne. unfold q_put_nowait in Eq.
  destruct (q_full w); injection Eq as <- <-.
  - split; [exact Hw|]. intros e [= <-]. exact Hfull.
  - split; [|discriminate]. apply (st_emit I HI), (st_q I HQ), Hw.
Qed.

Lemma keeps_q_put idle data :
  E QueueFull -> keeps I E idle -> keeps I E (q_put idle data).
Proof.
  intros Hfull Hidle. unfold q_put.
  apply (keeps_world_if I E q_full (idle;;; q_put_nowait data)
           (q_put_nowait data)); [|apply keeps_q_put_nowait, Hfull].
  apply keeps_bind; [exact Hidle|]. intros _.
  apply keeps_q_put_nowait, Hfull.
Qed.

Lemma keeps_prefill n sounds blocksize samplerate t fuel :
  E QueueFull ->
  keeps I E (prefill env n sounds blocksize samplerate t fuel).
Proof.
  intros Hfull. revert t.
  induction n as [|k IH]; intros t; cbn [prefill]; [apply keeps_ret|].
  apply keeps_bind; [apply keeps_next_block|]. intros [[data|] t'];
    [|apply keeps_ret].
  apply keeps_bind;
    [apply keeps_wait_while_playback_paused, keeps_others|]. intros _.
  apply keeps_bind; [apply keeps_get_playback_state|]. intros st.
  destruct (PlaybackState.eqb st PlaybackState.STOPPED);
    [apply keeps_other; reflexivity|].
  apply keeps_bind; [apply keeps_q_put_nowait, Hfull|]. intros _. apply IH.
Qed.

Lemma keeps_producer_loop n sounds blocksize samplerate t fuel :
  E QueueFull ->
  keeps I E (producer_loop env n sounds blocksize samplerate t fuel).
Proof.
  intros Hfull. revert t.
  induction n as [|k IH]; intros t; cbn [producer_loop];
    [apply keeps_out_of_fuel|].
  apply keeps_bind;
    [apply keeps_wait_while_playback_paused, keeps_others|]. intros _.
  apply keeps_bind; [apply keeps_next_block|]. intros [[data|] t'];
    [|apply keeps_ret].
  apply keeps_bind; [apply keeps_get_playback_state|]. intros st.
  destruct (PlaybackState.eqb st PlaybackState.STOPPED);
    [apply keeps_other; reflexivity|].
  apply keeps_bind; [|intros _; apply IH].
  apply keeps_try_except; [apply keeps_q_put; [exact Hfull|apply keeps_others]|].
  apply keeps_bind; [apply keeps_get_playback_state|]. intros st'.
  destruct (negb _); [apply keeps_raise, Hfull | apply keeps_ret].
Qed.

Lemma keeps_q_get_timeout idle :
  keeps I E idle -> keeps I E (q_get_timeout idle).
Proof.
  intros Hidle w Hw o w' Eq Hne. unfold q_get_timeout in Eq.
  destruct (q w).
  - exact (keeps_bind I E idle (fun _ => q_get_nowait) Hidle
             (fun _ => keeps_q_get_nowait) w Hw _ _ Eq Hne).
  - exact (keeps_q_get_nowait w Hw _ _ Eq Hne).
Qed.

Lemma keeps_q_get idle fuel :
  keeps I E idle -> keeps I E (q_get idle fuel).
Proof.
  intros Hidle. induction fuel as [|k IH]; intros w Hw o w' Eq Hne;
    cbn [q_get] in Eq; destruct (q w) eqn:Eq'.
  - injection Eq as <- <-. congruence.
  - exact (keeps_q_get_nowait w Hw _ _ Eq Hne).
  - exact (keeps_bind I E idle (fun _ => q_get idle k) Hidle
             (fun _ => IH) w Hw _ _ Eq Hne).
  - exact (keeps_q_get_nowait w Hw _ _ Eq Hne).
Qed.

Lemma keeps_record_audio_callback indata status fuel :
  E QueueFull ->
  keeps I E (record_audio_callback env indata status fuel).
Proof.
  intros Hfull. unfold record_audio_callback.
  apply keeps_bind;
    [apply keeps_wait_while_recording_paused, keeps_ctl_step|]. intros _.
  apply keeps_bind; [|intros _; apply keeps_q_put_nowait, Hfull].
  destruct (flags_bool status); [apply keeps_log | apply keeps_ret].
Qed.

End WithQueue.

End KeepsPlugin.

Section KeepsSessions.
Context {F : Type} `{PyFloat F}.
Variable env : Env F.
Variable self : SoundPlugin.

(** [I] holds outside the [with stream] block, [J] inside it. *)
Variables I J : World F -> Prop.
Hypothesis HI : stable I.
Hypothesis HIf : file_stable I.
Hypothesis HQI : queue_stable I.
Hypothesis HJ : stable J.
Hypothesis HJf : file_stable J.
Hypothesis HQJ : queue_stable J.
Hypothesis Hon : forall w, I w -> J (set_stream_active true w).
Hypothesis Hoff : forall w, J w -> I (set_stream_active false w).

Lemma any_other : forall e, is_QueueFull e = false -> any_exn e.
Proof. intros; exact Logic.I. Qed.

Lemma any_fault : forall (k : nat) e, env_fault env k = Some e -> any_exn e.
Proof. intros; exact Logic.I. Qed.

Ltac side := first [assumption | exact any_other | exact any_fault
                    | exact Logic.I].
Ltac kp lem := apply lem; try solve [side].

Lemma keeps_with_stream {A} samplerate blocksize device channels
    (body : M F A) :
  keeps J any_exn body ->
  keeps I any_exn (with_stream env samplerate blocksize device channels body).
Proof.
  intros Hbody. unfold with_stream.
  apply keeps_bind; [kp @keeps_collaborator|].
  intros _.
  apply keeps_bind; [kp @keeps_emit|]. intros _.
  apply keeps_bind; [kp @keeps_collaborator|].
  intros _. intros w Hw o w' Eq Hne.
  unfold bind at 1, modify at 1, try_finally in Eq.
  destruct (body (set_stream_active true w)) as [[a|e|] w1] eqn:Eb;
    [| |injection Eq as <- <-; congruence];
    destruct (Hbody _ (Hon w Hw) _ _ Eb ltac:(discriminate)) as [H1 _];
    cbn in Eq; injection Eq as <- <-;
    (split; [apply (st_emit I HI), Hoff, H1 | intros; exact Logic.I]).
Qed.

Lemma keeps_play_try a file blocksize device fuel :
  keeps I any_exn (play_try env a file blocksize device fuel).
Proof.
  unfold play_try.
  apply keeps_bind.
  { destruct file as [name|]; [|apply keeps_ret].
    destruct (truthy_str (Some name)); [|apply keeps_ret].
    kp @keeps_SoundFile_open. }
  intros _. apply keeps_bind; [apply keeps_gets|]. intros fh. cbn zeta.
  apply keeps_bind; [kp @keeps_start_playback|]. intros _.
  apply keeps_bind; [kp @keeps_log|]. intros _.
  apply keeps_bind; [kp @keeps_load_sounds|].
  intros sounds.
  apply keeps_bind;
    [kp @keeps_prefill|].
  intros t. apply keeps_with_stream.
  apply keeps_bind;
    [kp @keeps_producer_loop|].
  intros _.
  apply keeps_event_wait. kp @keeps_others.
Qed.

Lemma keeps_play_setup a : keeps I any_exn (play_setup a).
Proof.
  unfold play_setup.
  apply keeps_bind; [kp @keeps_set_playback_paused_changed|].
  intros _.
  apply keeps_bind; [kp @keeps_set_completed_callback_event|].
  intros _.
  apply keeps_bind; [apply keeps_modify; intros w; apply (st_q I HQI)|].
  intros _.
  apply keeps_bind; [apply keeps_modify; intros w; apply (st_q_maxsize I HQI)|].
  intros _. kp @keeps_set_f.
Qed.

Lemma keeps_play_session a fuel :
  keeps I any_exn (play_session env self a fuel).
Proof.
  unfold play_session. cbn zeta.
  apply keeps_bind; [apply keeps_play_setup|]. intros _.
  apply keeps_bind;
    [kp @keeps_device_or_default|]. intros device.
  apply keeps_try_finally.
  - apply keeps_try_except; [apply keeps_play_try|].
    kp @keeps_log.
  - apply keeps_bind; [kp @keeps_close_f|]. intros _.
    kp @keeps_stop_playback.
Qed.

Lemma keeps_play a fuel : keeps I any_exn (play env self a fuel).
Proof.
  unfold play.
  destruct (negb (truthy_str (p_file a)) && negb (truthy_sounds (p_sounds a)));
    [apply keeps_raise; exact Logic.I|].
  apply keeps_bind;
    [kp @keeps_stop_before_play|]. intros _.
  apply keeps_play_session.
Qed.

Lemma keeps_sample_rate given device :
  keeps I any_exn (match given with
               | Some sr => ret sr
               | None => collaborator env;;;
                         ret (env_default_samplerate env device)
               end).
Proof.
  destruct given; [apply keeps_ret|].
  apply keeps_bind; [kp @keeps_collaborator|].
  intros _. apply keeps_ret.
Qed.

Lemma keeps_recordplay a fuel : keeps I any_exn (recordplay env self a fuel).
Proof.
  unfold recordplay.
  apply keeps_bind;
    [kp @keeps_stop_playback_before_recordplay|]. intros _.
  apply keeps_bind; [kp @keeps_stop_before_record|].
  intros _.
  apply keeps_bind; [kp @keeps_set_playback_paused_changed|].
  intros _.
  apply keeps_bind; [kp @keeps_set_recording_paused_changed|].
  intros _.
  apply keeps_bind;
    [kp @keeps_device_or_default|]. intros input.
  apply keeps_bind;
    [kp @keeps_device_or_default|]. intros output.
  apply keeps_bind; [apply keeps_sample_rate|]. intros sample_rate.
  cbn zeta. apply keeps_try_finally.
  - apply keeps_try_except; [|kp @keeps_log].
    apply keeps_with_stream.
    apply keeps_bind; [kp @keeps_start_recording|]. intros _.
    apply keeps_bind; [kp @keeps_start_playback|]. intros _.
    apply keeps_bind; [kp @keeps_log|]. intros _.
    apply keeps_bind; [apply keeps_gets|]. intros started.
    kp @keeps_recordplay_loop.
  - apply keeps_bind; [kp @keeps_stop_playback|]. intros _.
    kp @keeps_stop_recording.
Qed.

(** *** record: the disk changes, at one name *)

Variable name : string.
Hypothesis HfsI :
  forall g w, (forall k, k <> name -> g !! k = fs w !! k) ->
              I w -> I (set_fs g w).
Hypothesis HfsJ :
  forall g w, (forall k, k <> name -> g !! k = fs w !! k) ->
              J w -> J (set_fs g w).

Lemma keeps_unlink : keeps I any_exn (unlink name).
Proof.
  unfold unlink. apply keeps_bind; [kp @keeps_emit|]. intros _.
  apply keeps_modify. intros w Hw. apply HfsI; [|exact Hw].
  intros k Hk. apply lookup_delete_ne. congruence.
Qed.

Lemma keeps_SoundFile_create samplerate channels :
  keeps I any_exn (SoundFile_create env name samplerate channels).
Proof.
  unfold SoundFile_create.
  apply keeps_bind; [kp @keeps_collaborator|].
  intros _. apply keeps_bind; [apply keeps_gets|]. intros files.
  destruct (files !! name); [apply keeps_raise; exact Logic.I|].
  apply keeps_bind; [kp @keeps_emit|]. intros _.
  apply keeps_bind; [|intros _; kp @keeps_set_f].
  apply keeps_modify. intros w Hw. apply HfsI; [|exact Hw].
  intros k Hk. apply lookup_insert_ne. congruence.
Qed.

Lemma keeps_SoundFile_write data :
  keeps J any_exn (SoundFile_write env name data).
Proof.
  unfold SoundFile_write.
  apply keeps_bind; [kp @keeps_collaborator|].
  intros _. apply keeps_bind; [kp @keeps_emit|]. intros _.
  apply keeps_modify. intros w Hw.
  destruct (fs w !! name) as [[a|]|]; [|exact Hw|exact Hw].
  apply HfsJ; [|exact Hw].
  intros k Hk. apply lookup_insert_ne. congruence.
Qed.

Lemma keeps_record_driver_step fuel :
  keeps J (fun _ => False) (record_driver_step env fuel).
Proof.
  intros w Hw o w' Eq Hne. unfold record_driver_step in Eq.
  destruct (stream_active w);
    [|injection Eq as <- <-; split; [exact Hw | discriminate]].
  destruct (env_driver env (clock w)) as [c|];
    [|injection Eq as <- <-; split; [exact Hw | discriminate]].
  destruct (record_audio_callback env (dc_buffer c) (dc_status c) fuel w)
    as [[[]|e|] w1] eqn:Ec;
    injection Eq as <- <-; [| |congruence];
    destruct (keeps_record_audio_callback env J any_exn HJ HQJ _ _ _ Logic.I
                _ Hw _ _ Ec ltac:(discriminate)) as [H1 _];
    (split; [|discriminate]).
  - exact H1.
  - apply (st_stream_off J HJ), H1.
Qed.

Lemma keeps_record_others fuel : keeps J any_exn (record_others env fuel).
Proof.
  unfold record_others.
  apply keeps_bind; [kp @keeps_ctl_step|]. intros _.
  apply keeps_weaken, keeps_record_driver_step.
Qed.

Lemma keeps_record_loop n dur started fuel :
  keeps J any_exn (record_loop env n name dur started fuel).
Proof.
  induction n as [|k IH]; cbn [record_loop]; [apply keeps_out_of_fuel|].
  apply keeps_bind; [kp @keeps_keep_recording|]. intros go.
  destruct go; [|apply keeps_ret].
  apply keeps_bind;
    [kp @keeps_wait_while_recording_paused; apply keeps_record_others|].
  intros _.
  apply keeps_bind.
  - destruct dur.
    + kp @keeps_q_get_timeout; apply keeps_record_others.
    + kp @keeps_q_get; apply keeps_record_others.
  - intros data. apply keeps_bind; [apply keeps_SoundFile_write|].
    intros _. exact IH.
Qed.

Lemma keeps_record_session a fuel :
  keeps I any_exn (record_session env self a name fuel).
Proof.
  unfold record_session.
  apply keeps_bind;
    [kp @keeps_device_or_default|]. intros device.
  apply keeps_bind; [apply keeps_sample_rate|]. intros sample_rate.
  cbn zeta.
  apply keeps_bind; [apply keeps_modify; intros w; apply (st_q I HQI)|].
  intros _.
  apply keeps_bind; [apply keeps_modify; intros w; apply (st_q_maxsize I HQI)|].
  intros _.
  apply keeps_try_finally; [|kp @keeps_stop_recording].
  apply keeps_try_except; [|kp @keeps_log].
  unfold with_SoundFile.
  apply keeps_bind; [apply keeps_SoundFile_create|]. intros _.
  apply keeps_try_finally; [|kp @keeps_close_f].
  apply keeps_bind.
  - apply keeps_with_stream.
    apply keeps_bind; [kp @keeps_start_recording|]. intros _.
    apply keeps_bind; [kp @keeps_log|]. intros _.
    apply keeps_bind; [apply keeps_gets|]. intros started.
    apply keeps_record_loop.
  - intros _. unfold SoundFile_flush.
    apply keeps_bind; [kp @keeps_collaborator|].
    intros _. kp @keeps_emit.
Qed.

Lemma keeps_record_prepare a :
  name = record_file env a -> keeps I any_exn (record_prepare env a).
Proof.
  intros Hname. unfold record_prepare.
  apply keeps_bind; [kp @keeps_stop_before_record|]. intros _.
  apply keeps_bind; [kp @keeps_set_recording_paused_changed|].
  intros _. cbn zeta. fold (record_file env a). rewrite <- Hname.
  apply keeps_bind; [apply keeps_gets|]. intros files.
  apply keeps_bind; [|intros _; apply keeps_ret].
  destruct (isfile files name); [|apply keeps_ret].
  apply keeps_bind; [kp @keeps_log|]. intros _.
  apply keeps_unlink.
Qed.

Lemma record_prepare_name a (w : World F) :
  fst (record_prepare env a w) = Return (record_file env a).
Proof.
  unfold record_prepare.
  destruct (stop_before_record_returns env w) as (w1 & E1 & _).
  unfold bind at 1. rewrite E1. unfold_monad. cbn zeta.
  fold (record_file env a).
  match goal with |- context [isfile ?m ?n] => destruct (isfile m n) end;
    reflexivity.
Qed.

Lemma keeps_record a fuel :
  name = record_file env a -> keeps I any_exn (record env self a fuel).
Proof.
  intros Hname w Hw o w' Eq Hne. unfold record, bind in Eq.
  assert (Hn := record_prepare_name a w).
  destruct (record_prepare env a w) as [[n|e|] w1] eqn:Ep;
    cbn [fst] in Hn; try discriminate.
  injection Hn as ->. rewrite <- Hname in Eq.
  destruct (keeps_record_prepare a Hname w Hw _ _ Ep ltac:(discriminate))
    as [H1 _].
  exact (keeps_record_session a fuel w1 H1 _ _ Eq Hne).
Qed.

End KeepsSessions.

(** * play: the session that is still going (C2) and the arguments (C5) *)

Section PlayFirstSteps.
Context {F : Type} `{PyFloat F}.
Variable env : Env F.
Variable self : SoundPlugin.

(** The trace only grows. *)
Lemma stable_trace_from (t0 : list (Event F)) :
  stable (fun w : World F => exists l, trace w = t0 ++ l).
Proof.
  split; try (intros; assumption).
  intros e w [l El]. exists (l ++ [e]). cbn. rewrite El, app_assoc.
  reflexivity.
Qed.

Lemma queue_stable_trace_from (t0 : list (Event F)) :
  queue_stable (fun w : World F => exists l, trace w = t0 ++ l).
Proof. split; intros; assumption. Qed.

Lemma play_session_extends_trace (a : PlayArgs F) (fuel : nat)
    (w w' : World F) (o : outcome unit) :
  play_session env self a fuel w = (o, w') -> o <> OutOfFuel ->
  exists l, trace w' = trace w ++ l.
Proof.
  intros Eq Hne.
  assert (K : keeps (fun w0 : World F => exists l, trace w0 = trace w ++ l)
                any_exn (play_session env self a fuel)).
  { apply (keeps_play_session env self _
             (fun w0 : World F => exists l, trace w0 = trace w ++ l));
      first [ apply stable_trace_from | apply queue_stable_trace_from
            | unfold file_stable; intros; assumption
            | intros; assumption ]. }
  refine (proj1 (K w _ o w' Eq Hne)). exists []. symmetry. apply app_nil_r.
Qed.




(** C2, as amended: [play], called with a source while the state it reads
    is not STOPPED.  With a file, it stops the session and sleeps two
    seconds, and all the rest of the call, which opens the file and starts
    the playback, runs from the world after that sleep: the state is
    STOPPED there, and whatever the rest logs comes after the stop and the
    sleep.  Without a file (sounds only) it does neither: the rest of the
    call runs from the world the state was read in, the session still
    on. *)
Theorem play_stops_prior_session_only_for_file (a : PlayArgs F) (fuel : nat)
    (w : World F) :
  truthy_str (p_file a) = true \/ truthy_sounds (p_sounds a) = true ->
  playback_state (snd (ctl_step env w)) <> PlaybackState.STOPPED ->
  if truthy_str (p_file a) then
    exists w2 l,
      play env self a fuel w = play_session env self a fuel w2
      /\ playback_state w2 = PlaybackState.STOPPED
      /\ trace w2 = trace (snd (ctl_step env w))
                    ++ [Log "Stopping playback before playing";
                        Log "Playback stopped"; Sleep 2000] ++ l
      /\ forall o w', play env self a fuel w = (o, w') -> o <> OutOfFuel ->
                      exists l', trace w' = trace w2 ++ l'
  else
    play env self a fuel w
    = play_session env self a fuel (snd (ctl_step env w)).
Proof.
  intros Hv Hs.
  destruct (truthy_str (p_file a)) eqn:Tf.
  2:{ destruct Hv as [Hv | Hv]; [discriminate|].
      unfold play. rewrite Tf, Hv. cbn [negb andb]. unfold bind at 1.
      rewrite stop_before_play_eq. cbn zeta.
      rewrite (eqb_STOPPED_false _ Hs), Tf. reflexivity. }
  pose proof (stop_before_play_eq env (p_file a) w) as S. cbn zeta in S.
  rewrite (eqb_STOPPED_false _ Hs), Tf in S. cbn [negb andb] in S.
  match type of S with context [sleep env 2000 ?w0] =>
    destruct (sleep_frame env 2000 w0) as (w2 & E2 & Fr2 & (l & El)) end.
  rewrite E2 in S.
  assert (P : play env self a fuel w = play_session env self a fuel w2).
  { unfold play. rewrite Tf. cbn [negb andb]. unfold bind at 1.
    rewrite S. reflexivity. }
  rewrite P.
  exists w2, l. split; [reflexivity|]. split; [|split].
  - apply (frame_playback _ _ Fr2). reflexivity.
  - rewrite El. cbn. rewrite <- !app_assoc. reflexivity.
  - intros o w' Eq Hne. exact (play_session_extends_trace a fuel w2 w' o Eq Hne).
Qed.


End PlayFirstSteps.

(** A file, and sounds, played while a session is playing. *)
Lemma play_stops_prior_session_only_for_file_witness :
  exists w2 l,
    play Fixtures.driven Fixtures.plugin Fixtures.play_both 10
      Fixtures.playing_world_with_file
    = play_session Fixtures.driven Fixtures.plugin Fixtures.play_both 10 w2
    /\ playback_state w2 = PlaybackState.STOPPED
    /\ trace w2
       = trace (snd (ctl_step Fixtures.driven Fixtures.playing_world_with_file))
         ++ [Log "Stopping playback before playing";
             Log "Playback stopped"; Sleep 2000] ++ l
    /\ forall o w',
         play Fixtures.driven Fixtures.plugin Fixtures.play_both 10
           Fixtures.playing_world_with_file = (o, w') ->
         o <> OutOfFuel -> exists l', trace w' = trace w2 ++ l'.
Proof.
  apply (play_stops_prior_session_only_for_file Fixtures.driven
           Fixtures.plugin Fixtures.play_both 10
           Fixtures.playing_world_with_file).
  - left. reflexivity.
  - vm_compute. discriminate.
Defined.

(** C2, as stated, fails for a call with sounds only: the session goes on
    from the world the state was read in, still PLAYING, and the whole call
    logs "Started playback" with no stop and no sleep before it. *)
Lemma play_sounds_does_not_stop_prior_session :
  play Fixtures.quiet Fixtures.plugin Fixtures.play_bad_descriptor 10
    Fixtures.playing_world
  = play_session Fixtures.quiet Fixtures.plugin Fixtures.play_bad_descriptor
      10 (set_clock 1 Fixtures.playing_world)
  /\ playback_state (set_clock 1 Fixtures.playing_world)
     = PlaybackState.PLAYING
  /\ trace (snd (play Fixtures.quiet Fixtures.plugin
                   Fixtures.play_bad_descriptor 10 Fixtures.playing_world))
     = [Log "Started playback"; Log "Playback stopped"].
Proof. repeat split; vm_compute; reflexivity. Qed.



(** With both given the sounds are still converted: a bad descriptor makes
    the call raise RuntimeError as well, but late, after the running session
    was stopped and the file opened. *)
Example play_file_and_bad_sounds_raises_late :
  fst (play Fixtures.driven Fixtures.plugin Fixtures.play_file_and_bad_sounds
         10 Fixtures.playing_world_with_file) = Raise RuntimeError
  /\ trace (snd (play Fixtures.driven Fixtures.plugin
                   Fixtures.play_file_and_bad_sounds 10
                   Fixtures.playing_world_with_file))
     = [Log "Stopping playback before playing"; Log "Playback stopped";
        Sleep 2000; SoundFileOpen "a.wav" false; Log "Started playback";
        SoundFileClose "a.wav"; Log "Playback stopped"].
Proof. split; vm_compute; reflexivity. Qed.


Section SessionInvariants.
Context {F : Type} `{PyFloat F}.
Variable env : Env F.
Variable self : SoundPlugin.

Lemma keeps_run {A} (I : World F -> Prop) (E : exn -> Prop) (m : M F A)
    (w w' : World F) (o : outcome A) :
  keeps I E m -> I w -> m w = (o, w') -> o <> OutOfFuel -> I w'.
Proof. intros Hm Hw Eq Hne. exact (proj1 (Hm w Hw o w' Eq Hne)). Qed.

Lemma stable_fs (v : gmap string (FsNode F)) :
  stable (fun w : World F => fs w = v).
Proof. split; intros; assumption. Qed.

Lemma stable_same_but name (v : gmap string (FsNode F)) :
  stable (same_but name v).
Proof. split; intros; assumption. Qed.

Lemma same_but_set_fs name (v g : gmap string (FsNode F)) (w : World F) :
  (forall k, k <> name -> g !! k = fs w !! k) ->
  same_but name v w -> same_but name v (set_fs g w).
Proof.
  intros Hg Hw k Hk. cbn. rewrite (Hg k Hk). exact (Hw k Hk).
Qed.

Lemma stable_stream_off : stable (fun w : World F => stream_active w = false).
Proof. split; intros; solve [assumption | reflexivity]. Qed.

Lemma stable_True : stable (fun _ : World F => True).
Proof. split; intros; exact I. Qed.

Ltac invariant_side :=
  first [ apply stable_fs | apply stable_same_but | apply stable_stream_off
        | apply stable_True | apply same_but_set_fs
        | split; intros; solve [assumption | exact I]
        | unfold file_stable; intros; solve [assumption | reflexivity | exact I] ].

(** X16. [play] and [recordplay] never change the disk, on any exit and
    whatever the other threads and the collaborators do; [record] changes
    at most the entry of the file it records to. *)
Theorem sessions_and_the_disk (op : Operation F) (fuel : nat)
    (w w' : World F) (o : outcome unit) :
  run_operation env self op fuel w = (o, w') ->
  o <> OutOfFuel ->
  match op with
  | OpRecord a => same_but (record_file env a) (fs w) w'
  | _ => fs w' = fs w
  end.
Proof.
  intros Eq Hne. destruct op as [a|a|a]; cbn [run_operation] in Eq.
  - apply (keeps_run (fun w0 => fs w0 = fs w) any_exn
             (play env self a fuel) w w' o);
      [|reflexivity|exact Eq|exact Hne].
    apply (keeps_play env self _ (fun w0 => fs w0 = fs w)); invariant_side.
  - apply (keeps_run (same_but (record_file env a) (fs w)) any_exn
             (record env self a fuel) w w' o);
      [|intros k _; reflexivity|exact Eq|exact Hne].
    apply (keeps_record env self _ (same_but (record_file env a) (fs w)))
      with (name := record_file env a); invariant_side.
  - apply (keeps_run (fun w0 => fs w0 = fs w) any_exn
             (recordplay env self a fuel) w w' o);
      [|reflexivity|exact Eq|exact Hne].
    apply (keeps_recordplay env self _ (fun w0 => fs w0 = fs w));
      invariant_side.
Qed.

(** X17. A call that starts with no stream running ends with no stream
    running: on every exit of [play], [record] and [recordplay], normal or
    by an exception raised anywhere, a stream the call has started is
    running no more.  (A stream whose start failed is not spoken of: it was
    constructed, and the [with] statement, never entered, does not close
    it.) *)
Theorem sessions_leave_no_stream_running (op : Operation F) (fuel : nat)
    (w w' : World F) (o : outcome unit) :
  run_operation env self op fuel w = (o, w') ->
  o <> OutOfFuel ->
  stream_active w = false ->
  stream_active w' = false.
Proof.
  intros Eq Hne Hw. destruct op as [a|a|a]; cbn [run_operation] in Eq;
    eapply (keeps_run (fun w0 => stream_active w0 = false) any_exn _ w w' o);
    try eassumption.
  - apply (keeps_play env self _ (fun _ => True)); invariant_side.
  - apply (keeps_record env self _ (fun _ => True))
      with (name := record_file env a); invariant_side.
  - apply (keeps_recordplay env self _ (fun _ => True)); invariant_side.
Qed.

End SessionInvariants.

(** [record(file='rec.wav')] over an existing file. *)
Lemma sessions_and_the_disk_witness :
  same_but "rec.wav" (fs Fixtures.idle_world_with_file)
    (snd (record Fixtures.stopped_later Fixtures.plugin Fixtures.record_over
            20 Fixtures.idle_world_with_file)).
Proof.
  apply (sessions_and_the_disk Fixtures.stopped_later Fixtures.plugin
           (OpRecord Fixtures.record_over) 20 Fixtures.idle_world_with_file
           _ (fst (record Fixtures.stopped_later Fixtures.plugin
                     Fixtures.record_over 20 Fixtures.idle_world_with_file))).
  - apply surjective_pairing.
  - vm_compute. discriminate.
Defined.

(** A file played to the end. *)
Lemma sessions_leave_no_stream_running_witness :
  stream_active
    (snd (play Fixtures.driven Fixtures.plugin Fixtures.play_both 10
            Fixtures.playing_world_with_file)) = false.
Proof.
  apply (sessions_leave_no_stream_running Fixtures.driven Fixtures.plugin
           (OpPlay Fixtures.play_both) 10 Fixtures.playing_world_with_file
           _ (fst (play Fixtures.driven Fixtures.plugin Fixtures.play_both 10
                     Fixtures.playing_world_with_file))).
  - apply surjective_pairing.
  - vm_compute. discriminate.
  - reflexivity.
Defined.

(** The start of the stream fails: the stream was constructed and is never
    closed, and no stream is running. *)
Example failed_stream_start_leaves_stream_open :
  fst (play Fixtures.start_fails Fixtures.plugin Fixtures.play_both 10
         Fixtures.playing_world_with_file) = Raise (ExternalError 1)
  /\ stream_active
       (snd (play Fixtures.start_fails Fixtures.plugin Fixtures.play_both 10
               Fixtures.playing_world_with_file)) = false
  /\ trace (snd (play Fixtures.start_fails Fixtures.plugin Fixtures.play_both
                   10 Fixtures.playing_world_with_file))
     = [Log "Stopping playback before playing"; Log "Playback stopped";
        Sleep 2000; SoundFileOpen "a.wav" false; Log "Started playback";
        BufferRead 2; QueuePut 2; BufferRead 1; QueuePut 1; BufferRead 0;
        StreamOpen 8000 2 (Some 0) 1; SoundFileClose "a.wav";
        Log "Playback stopped"].
Proof. repeat split; vm_compute; reflexivity. Qed.

(** * The loops of play *)

Section Prefill.
Context {F : Type} `{PyFloat F}.
Variable env : Env F.

Lemma stable_queue_room n b : stable (queue_room (F := F) n b).
Proof.
  split; try (intros; assumption).
  intros d r w Hq [Hb Hr]. split; [exact Hb|].
  destruct Hr as [Hr|Hr]; [left; exact Hr|right].
  cbn [q set_q]. rewrite Hq in Hr. cbn [length] in Hr. lia.
Qed.

Lemma queue_room_le n k b (w : World F) :
  (k <= n)%nat -> queue_room n b w -> queue_room k b w.
Proof. intros Hk [Hb Hr]. split; [exact Hb|]. lia. Qed.

Lemma queue_room_not_full n b (w : World F) :
  queue_room (S n) b w -> q_full w = false.
Proof.
  intros [Hb Hr]. unfold q_full. rewrite Hb.
  destruct (0 <? b) eqn:E1; [|reflexivity].
  apply Z.ltb_lt in E1. cbn [andb]. apply Z.leb_gt. lia.
Qed.

Lemma queue_room_put n b data (w : World F) :
  queue_room (S n) b w ->
  queue_room n b (emit (QueuePut (length data)) (set_q (q w ++ [data]) w)).
Proof.
  intros [Hb Hr]. split; [exact Hb|].
  destruct Hr as [Hr|Hr]; [left; exact Hr|right].
  cbn [q emit set_q]. rewrite length_app. cbn [length]. lia.
Qed.

Hypothesis Hfault : forall k, env_fault env k <> Some QueueFull.

Lemma fault_not_QueueFull :
  forall (k : nat) e, env_fault env k = Some e -> not_QueueFull e.
Proof.
  intros k e Ek. destruct e; try reflexivity. destruct (Hfault k Ek).
Qed.

Lemma prefill_room b sounds blocksize samplerate fuel n :
  forall t (w : World F),
    queue_room n b w ->
    post (prefill env n sounds blocksize samplerate t fuel) w
         (fun o w' => queue_room 0 b w'
                      /\ forall e, o = Raise e -> not_QueueFull e).
Proof.
  induction n as [|k IH]; intros t w Hw; cbn [prefill].
  - apply post_ret. split; [exact Hw | discriminate].
  - apply post_bind. eapply post_conseq.
    { apply (keeps_next_block env _ not_QueueFull (stable_queue_room (S k) b)
               (fun _ _ Hx => Hx) (fun e He => He) fault_not_QueueFull
               _ _ _ _ w Hw). }
    intros o w1 _ [H1 He]. destruct o as [[[data|] t']|e|];
      [| |split; [eapply queue_room_le; [|exact H1]; lia|];
          intros e' [= <-]; exact (He e eq_refl)|exact I].
    2:{ apply post_ret. split; [|discriminate].
        eapply queue_room_le; [|exact H1]. lia. }
    apply post_bind. eapply post_conseq.
    { apply (keeps_wait_while_playback_paused env _ not_QueueFull
               (stable_queue_room (S k) b) _ _ _
               (keeps_others env _ not_QueueFull (stable_queue_room (S k) b)
                  (fun e He => He) _ _) w1 H1). }
    intros o w2 _ [H2 He2]. destruct o as [[]|e|];
      [|split; [eapply queue_room_le; [|exact H2]; lia|];
        intros e' [= <-]; exact (He2 e eq_refl)|exact I].
    apply post_bind. eapply post_conseq.
    { apply (keeps_get_playback_state env _ not_QueueFull
               (stable_queue_room (S k) b) w2 H2). }
    intros o w3 _ [H3 He3]. destruct o as [st|e|];
      [|split; [eapply queue_room_le; [|exact H3]; lia|];
        intros e' [= <-]; exact (He3 e eq_refl)|exact I].
    destruct (PlaybackState.eqb st PlaybackState.STOPPED).
    { apply post_raise. split; [eapply queue_room_le; [|exact H3]; lia|].
      intros e [= <-]. reflexivity. }
    apply post_bind. eapply post_eq.
    { unfold q_put_nowait. rewrite (queue_room_not_full k b w3 H3).
      reflexivity. }
    apply IH. apply queue_room_put. exact H3.
Qed.

(** X18. The pre-fill loop never overflows the queue: when the queue has no
    bound, or has room for as many blocks as the loop has iterations (as in
    [play], where the queue is made with [maxsize=bufsize] and the loop
    runs [bufsize] times), [queue.Full] is not raised, whatever the other
    threads do meanwhile. *)
Theorem prefill_never_overflows (n : nat) (sounds : list (Sound F))
    (blocksize samplerate : Z) (t : F) (fuel : nat) (w : World F) :
  q_maxsize w <= 0
  \/ Z.of_nat (length (q w)) + Z.of_nat n <= q_maxsize w ->
  fst (prefill env n sounds blocksize samplerate t fuel w) <> Raise QueueFull.
Proof.
  intros Hr Ho.
  destruct (prefill env n sounds blocksize samplerate t fuel w) as [o w']
    eqn:Ep. cbn [fst] in Ho. subst o.
  assert (Hw : queue_room n (q_maxsize w) w) by (split; [reflexivity|exact Hr]).
  destruct (prefill_room (q_maxsize w) sounds blocksize samplerate fuel n t w
              Hw _ _ Ep ltac:(discriminate)) as [_ He].
  specialize (He QueueFull eq_refl). discriminate.
Qed.

End Prefill.

(** [bufsize=2], as [play] sets the queue up, and a tone to synthesize. *)
Lemma prefill_never_overflows_witness :
  fst (prefill Fixtures.quiet 2 [Fixtures.a440] 2 8000 0%R 10
         (set_q_maxsize 2 Fixtures.playing_world)) <> Raise QueueFull.
Proof.
  apply (prefill_never_overflows Fixtures.quiet).
  - intros k. discriminate.
  - right. cbn. lia.
Defined.

Section SynthCursor.
Variable m : Binary64.Libm.
Variable env : Env PrimFloat.float.

Lemma SFcompare_refl (a b : SpecFloat.spec_float) (c : comparison) :
  SpecFloat.SFcompare a b = Some c -> SpecFloat.SFcompare a a = Some Eq.
Proof.
  destruct a as [sa|sa| |sa ma ea], b as [sb|sb| |sb mb eb]; cbn;
    try discriminate; try reflexivity; intros _;
    try (destruct sa; reflexivity);
    destruct sa; rewrite Z.compare_refl, Pos.compare_cont_refl; reflexivity.
Qed.

Lemma ltb_irrefl (d : PrimFloat.float) : PrimFloat.ltb d d = false.
Proof.
  rewrite FloatAxioms.ltb_spec. unfold SpecFloat.SFltb.
  destruct (SpecFloat.SFcompare (FloatOps.Prim2SF d) (FloatOps.Prim2SF d))
    as [c|] eqn:E; [|reflexivity].
  rewrite (SFcompare_refl _ _ _ E) in E. injection E as <-. reflexivity.
Qed.

Lemma ltb_leb (d x : PrimFloat.float) :
  PrimFloat.ltb d x = true ->
  PrimFloat.leb d x = true /\ PrimFloat.leb d d = true.
Proof.
  rewrite FloatAxioms.ltb_spec, !FloatAxioms.leb_spec.
  unfold SpecFloat.SFltb, SpecFloat.SFleb.
  destruct (SpecFloat.SFcompare (FloatOps.Prim2SF d) (FloatOps.Prim2SF x))
    as [c|] eqn:E; [|discriminate].
  rewrite (SFcompare_refl _ _ _ E). destruct c; try discriminate.
  split; reflexivity.
Qed.

(** One step of the loops of [play] in synthesis mode. *)
Lemma next_block_synth (sound : Sound PrimFloat.float)
    (rest : list (Sound PrimFloat.float)) (blocksize samplerate : Z)
    (t d : PrimFloat.float) (w : World PrimFloat.float) :
  f w = None ->
  duration sound = Some d ->
  let x := PrimFloat.add t (PrimFloat.div (Binary64.of_Z blocksize)
                              (Binary64.of_Z samplerate)) in
  let next_t := if PrimFloat.ltb d x then d else x in
  next_block (H := Binary64.ops m) env (sound :: rest) blocksize samplerate
    t w
  = match get_wave (H := Binary64.ops m) sound t next_t samplerate with
    | inl e => (Raise e, w)
    | inr data =>
        (Return (if PrimFloat.leb d x then None else Some data, next_t),
         emit (GetWave t next_t (length data)) w)
    end.
Proof.
  intros Hf Hd x next_t.
  unfold next_block. unfold bind at 1, gets at 1. rewrite Hf, Hd.
  cbn zeta. unfold py_min. cbn [f_add f_div f_of_int f_lt Binary64.ops].
  fold x. fold next_t.
  destruct (get_wave sound t next_t samplerate) as [e|data];
    [reflexivity|].
  unfold bind, modify, ret. cbn [f_le Binary64.ops].
  assert (E : PrimFloat.leb d next_t = PrimFloat.leb d x).
  { unfold next_t. destruct (PrimFloat.ltb d x) eqn:L; [|reflexivity].
    destruct (ltb_leb d x L) as [-> ->]. reflexivity. }
  rewrite E. destruct (PrimFloat.leb d x); reflexivity.
Qed.

(** X19. In synthesis mode, for a sound with a duration [d], one step of
    the loops of [play] moves the cursor to [min(t + blocktime, d)], which
    is never greater than [d].  The step raises what [get_wave] raises for
    the interval from the old cursor to the new one.  Otherwise the block
    is synthesized, and it is handed on unless [d <= t + blocktime]: the
    block that reaches [d] is dropped.  All arithmetic is binary64. *)
Theorem next_block_synth_cursor (sound : Sound PrimFloat.float)
    (rest : list (Sound PrimFloat.float)) (blocksize samplerate : Z)
    (t d : PrimFloat.float) (w : World PrimFloat.float) :
  f w = None ->
  duration sound = Some d ->
  let x := PrimFloat.add t (PrimFloat.div (Binary64.of_Z blocksize)
                              (Binary64.of_Z samplerate)) in
  let next_t := if PrimFloat.ltb d x then d else x in
  PrimFloat.ltb d next_t = false
  /\ next_block (H := Binary64.ops m) env (sound :: rest) blocksize
       samplerate t w
     = match get_wave (H := Binary64.ops m) sound t next_t samplerate with
       | inl e => (Raise e, w)
       | inr data =>
           (Return (if PrimFloat.leb d x then None else Some data, next_t),
            emit (GetWave t next_t (length data)) w)
       end.
Proof.
  intros Hf Hd x next_t. split.
  - unfold next_t. destruct (PrimFloat.ltb d x) eqn:L; [|exact L].
    apply ltb_irrefl.
  - exact (next_block_synth sound rest blocksize samplerate t d w Hf Hd).
Qed.

(** A sound of the duration -1/3 s at 3 samples per second: over the real
    numbers the step from the cursor 0 is short of one sample backwards;
    in binary64 it is -1.0 sample, and the step raises ValueError. *)
Example next_block_negative_duration (mn : Z) (fr g : PrimFloat.float)
    (rest : list (Sound PrimFloat.float)) (w : World PrimFloat.float) :
  f w = None ->
  next_block (H := Binary64.ops m) env
    (mkSound mn fr g
       (Some (PrimFloat.opp (PrimFloat.div (Binary64.of_Z 1)
                               (Binary64.of_Z 3)))) :: rest)
    1 3 (Binary64.of_Z 0) w
  = (Raise ValueError, w).
Proof.
  intros Hf.
  rewrite (next_block_synth
             (mkSound mn fr g
                (Some (PrimFloat.opp (PrimFloat.div (Binary64.of_Z 1)
                                        (Binary64.of_Z 3)))))
             rest 1 3 (Binary64.of_Z 0) _ w Hf eq_refl).
  reflexivity.
Qed.

End SynthCursor.

(** [Sound(midi_note=69, duration=1.0)] at the cursor 0, with a block of a
    quarter of a second. *)
Lemma next_block_synth_cursor_witness :
  let x := PrimFloat.add (Binary64.of_Z 0)
             (PrimFloat.div (Binary64.of_Z 2) (Binary64.of_Z 8)) in
  let next_t := if PrimFloat.ltb (Binary64.of_Z 1) x
                then Binary64.of_Z 1 else x in
  PrimFloat.ltb (Binary64.of_Z 1) next_t = false
  /\ next_block (H := Binary64.ops Fixtures.small_angle) Fixtures.quiet64
       [Fixtures.tone] 2 8 (Binary64.of_Z 0) Fixtures.idle_world64
     = match get_wave (H := Binary64.ops Fixtures.small_angle)
               Fixtures.tone (Binary64.of_Z 0) next_t 8 with
       | inl e => (Raise e, Fixtures.idle_world64)
       | inr data =>
           (Return (if PrimFloat.leb (Binary64.of_Z 1) x
                    then None else Some data, next_t),
            emit (GetWave (Binary64.of_Z 0) next_t (length data))
              Fixtures.idle_world64)
       end.
Proof.
  apply (next_block_synth_cursor Fixtures.small_angle Fixtures.quiet64
           Fixtures.tone [] 2 8 (Binary64.of_Z 0) (Binary64.of_Z 1)
           Fixtures.idle_world64);
    reflexivity.
Defined.

Section LoadSounds.
Context {F : Type} `{PyFloat F}.
Variable env : Env F.

(** What the conversion makes of one element. *)
Lemma Sound_of_item_eq (it : SoundItem F) (w : World F) :
  Sound_of_item it w
  = match it with
    | ItemSound s => (Return s, w)
    | ItemDict d =>
        match Sound_init (d_midi_note d) (d_frequency d)
                (default (f_of_int 1) (d_gain d)) (d_duration d)
                STANDARD_A_FREQUENCY with
        | inr s => (Return s, w)
        | inl e => (Raise e, w)
        end
    end.
Proof.
  destruct it as [s|d]; cbn [Sound_of_item]; [reflexivity|].
  destruct (Sound_init _ _ _ _ _); reflexivity.
Qed.

Lemma Sound_of_items_spec (items : list (SoundItem F)) (w : World F) :
  let init d := Sound_init (d_midi_note d) (d_frequency d)
                  (default (f_of_int 1) (d_gain d)) (d_duration d)
                  STANDARD_A_FREQUENCY in
  exists o,
    Sound_of_items items w = (o, w)
    /\ match o with
       | Return l =>
           Forall2 (fun it s => match it with
                                | ItemSound s0 => s = s0
                                | ItemDict d => init d = inr s
                                end) items l
       | Raise e =>
           exists i d,
             nth_error items i = Some (ItemDict d) /\ init d = inl e
             /\ forall j d', (j < i)%nat ->
                   nth_error items j = Some (ItemDict d') ->
                   exists s, init d' = inr s
       | OutOfFuel => False
       end.
Proof.
  intros init. induction items as [|it r IH]; cbn [Sound_of_items].
  - exists (Return []). split; [reflexivity|]. constructor.
  - destruct IH as (o2 & E2 & H2). unfold bind.
    rewrite Sound_of_item_eq.
    assert (Hcons : forall s,
              match it with
              | ItemSound s0 => s = s0
              | ItemDict d => init d = inr s
              end ->
              exists o,
                match Sound_of_items r w with
                | (Return b, w2) => ret (s :: b) w2
                | (Raise e, w2) => (Raise e, w2)
                | (OutOfFuel, w2) => (OutOfFuel, w2)
                end = (o, w)
                /\ match o with
                   | Return l =>
                       Forall2 (fun it s => match it with
                                            | ItemSound s0 => s = s0
                                            | ItemDict d => init d = inr s
                                            end) (it :: r) l
                   | Raise e =>
                       exists i d,
                         nth_error (it :: r) i = Some (ItemDict d)
                         /\ init d = inl e
                         /\ forall j d', (j < i)%nat ->
                               nth_error (it :: r) j = Some (ItemDict d') ->
                               exists s, init d' = inr s
                   | OutOfFuel => False
                   end).
    { intros s Hs. rewrite E2. destruct o2 as [rest|e|]; [| |contradiction].
      - exists (Return (s :: rest)). split; [reflexivity|].
        constructor; assumption.
      - exists (Raise e). split; [reflexivity|].
        destruct H2 as (i & d & Hi & He & Hj). exists (S i), d.
        split; [exact Hi|]. split; [exact He|].
        intros [|j] d' Hlt Hn; cbn in Hn.
        + injection Hn as ->. exists s. exact Hs.
        + apply (Hj j d'); [lia | exact Hn]. }
    destruct it as [s|d].
    + apply (Hcons s). reflexivity.
    + fold (init d). destruct (init d) as [e|s] eqn:Ei.
      * exists (Raise e). split; [reflexivity|]. exists O, d.
        split; [reflexivity|]. split; [exact Ei|]. intros j d' Hlt. lia.
      * apply (Hcons s). reflexivity.
Qed.

(** X20. The conversion of the [sounds] argument, given as a list, touches
    nothing of the plugin and always ends.  Either it returns one sound per
    element, in order: an element that is a [Sound] object already is handed
    on as it is, and a dict gives the sound its constructor makes of it.
    Or it raises the error of the constructor for the first dict the
    constructor refuses. *)
Theorem load_sounds_in_order (items : list (SoundItem F)) (w : World F) :
  let init d := Sound_init (d_midi_note d) (d_frequency d)
                  (default (f_of_int 1) (d_gain d)) (d_duration d)
                  STANDARD_A_FREQUENCY in
  exists o,
    load_sounds env (Some (SoundsList items)) w = (o, w)
    /\ match o with
       | Return l =>
           Forall2 (fun it s => match it with
                                | ItemSound s0 => s = s0
                                | ItemDict d => init d = inr s
                                end) items l
       | Raise e =>
           exists i d,
             nth_error items i = Some (ItemDict d) /\ init d = inl e
             /\ forall j d', (j < i)%nat ->
                   nth_error items j = Some (ItemDict d') ->
                   exists s, init d' = inr s
       | OutOfFuel => False
       end.
Proof.
  intros init. unfold load_sounds. cbn [truthy_sounds].
  destruct items as [|it r]; [|exact (Sound_of_items_spec (it :: r) w)].
  exists (Return []). split; [reflexivity|]. constructor.
Qed.

End LoadSounds.

Section FileMode.
Context {F : Type} `{PyFloat F}.
Variable env : Env F.
Hypothesis Hquiet : forall k, env_ctl env k = [].
Hypothesis Hsound : forall k, env_fault env k = None.

Lemma get_playback_state_quiet (w : World F) :
  _get_playback_state env w
  = (Return (playback_state w), set_clock (S (clock w)) w).
Proof.
  rewrite get_playback_state_eq, ctl_step_quiet by apply Hquiet. reflexivity.
Qed.

Lemma firstn_plus {A} (a c : nat) (l : list A) :
  firstn (a + c) l = firstn a l ++ firstn c (skipn a l).
Proof.
  revert l. induction a as [|a IH]; intros l; [reflexivity|].
  destruct l as [|x l]; cbn.
  - destruct c; reflexivity.
  - f_equal. apply IH.
Qed.

Lemma prefill_file (sounds : list (Sound F)) (blocksize samplerate : Z)
    (t : F) (fuel : nat) :
  0 < blocksize -> fuel <> O ->
  forall n (w : World F) (h : SoundFile F),
    playback_state w = PlaybackState.PLAYING ->
    f w = Some h ->
    q_maxsize w <= 0
    \/ Z.of_nat (length (q w)) + Z.of_nat n <= q_maxsize w ->
    exists w' h',
      prefill env n sounds blocksize samplerate t fuel w = (Return t, w')
      /\ concat (q w')
         = concat (q w) ++ firstn (n * Z.to_nat blocksize) (sf_unread h)
      /\ f w' = Some h'
      /\ sf_unread h' = skipn (n * Z.to_nat blocksize) (sf_unread h).
Proof.
  intros Hb Hfuel. induction n as [|k IH]; intros w h Hp Hf Hr.
  - exists w, h. cbn. rewrite app_nil_r. auto.
  - cbn [prefill]. unfold bind at 1. unfold next_block.
    unfold bind at 1, gets at 1. rewrite Hf.
    unfold buffer_read. unfold bind at 1, bind at 1, collaborator.
    rewrite Hsound. cbn zeta. unfold bind at 1, modify at 1.
    unfold bind at 1, modify at 1. unfold ret at 1.
    set (b := Z.to_nat blocksize).
    assert (Hb' : (0 < b)%nat) by (unfold b; lia).
    set (data := firstn b (sf_unread h)).
    set (h1 := Build_SoundFile (sf_name h) (sf_samplerate h) (sf_channels h)
                 (skipn b (sf_unread h)) (sf_closed h)).
    set (w1 := set_f (Some h1) (emit (BufferRead (length data))
                                  (set_clock (S (clock w)) w))).
    destruct (length data =? 0)%nat eqn:El.
    + (* the file is exhausted *)
      apply Nat.eqb_eq in El.
      assert (Hu : sf_unread h = []).
      { destruct (sf_unread h) as [|x l] eqn:Eu; [reflexivity|].
        subst data. destruct b; [lia|]. discriminate. }
      exists w1, h1. unfold ret. split; [reflexivity|].
      rewrite Hu, firstn_nil, app_nil_r. split; [reflexivity|].
      split; [reflexivity|]. cbn [sf_unread h1]. rewrite Hu.
      rewrite !skipn_nil. reflexivity.
    + unfold ret at 1. cbv iota beta.
      destruct fuel as [|m]; [congruence|].
      cbn [wait_while_playback_paused]. unfold bind at 1. unfold bind at 1.
      rewrite get_playback_state_quiet.
      change (playback_state w1) with (playback_state w). rewrite Hp.
      cbn [PlaybackState.eqb]. unfold ret at 1. unfold bind at 1.
      rewrite get_playback_state_quiet.
      change (playback_state (set_clock _ w1)) with (playback_state w).
      rewrite Hp. cbn [PlaybackState.eqb]. unfold bind at 1.
      set (w3 := set_clock _ (set_clock _ w1)).
      assert (Hfull : q_full w3 = false).
      { unfold q_full. change (q_maxsize w3) with (q_maxsize w).
        change (q w3) with (q w).
        destruct (0 <? q_maxsize w) eqn:E1; [|reflexivity].
        apply Z.ltb_lt in E1. cbn [andb]. apply Z.leb_gt. lia. }
      unfold q_put_nowait at 1. rewrite Hfull.
      set (w4 := emit _ (set_q _ w3)).
      destruct (IH w4 h1) as (w' & h' & E' & Hq' & Hf' & Hu').
      * exact Hp.
      * reflexivity.
      * change (q_maxsize w4) with (q_maxsize w).
        change (q w4) with (q w ++ [data]).
        rewrite length_app. cbn [length]. lia.
      * exists w', h'. split; [exact E'|]. split; [|split; [exact Hf'|]].
        -- rewrite Hq'. change (q w4) with (q w ++ [data]).
           rewrite concat_app. cbn [concat]. rewrite app_nil_r.
           rewrite <- !app_assoc. f_equal.
           change (S k * b)%nat with (b + k * b)%nat.
           rewrite firstn_plus. reflexivity.
        -- rewrite Hu'. cbn [sf_unread h1].
           change (S k * b)%nat with (b + k * b)%nat.
           rewrite skipn_skipn. f_equal. lia.
Qed.

(** X21. In file mode, with the playback running and nothing interfering,
    the pre-fill loop moves the next [n * blocksize] frames of the file to
    the queue: the blocks it puts, taken in order, are exactly those frames,
    none lost, repeated or reordered, and the file is left at the frame
    that follows them. *)
Theorem prefill_queues_the_file (sounds : list (Sound F))
    (blocksize samplerate : Z) (t : F) (fuel n : nat) (w : World F)
    (h : SoundFile F) :
  0 < blocksize -> fuel <> O ->
  playback_state w = PlaybackState.PLAYING ->
  f w = Some h ->
  q_maxsize w <= 0
  \/ Z.of_nat (length (q w)) + Z.of_nat n <= q_maxsize w ->
  exists w' h',
    prefill env n sounds blocksize samplerate t fuel w = (Return t, w')
    /\ concat (q w')
       = concat (q w) ++ firstn (n * Z.to_nat blocksize) (sf_unread h)
    /\ f w' = Some h'
    /\ sf_unread h' = skipn (n * Z.to_nat blocksize) (sf_unread h).
Proof.
  intros Hb Hfuel Hp Hf Hr.
  exact (prefill_file sounds blocksize samplerate t fuel Hb Hfuel n w h
           Hp Hf Hr).
Qed.

(** *** A paused playback *)

Lemma later_refl (w : World F) : later w w.
Proof. exists (clock w). destruct w; reflexivity. Qed.

Lemma event_wait_quiet (flag : World F -> bool) fuel :
  (forall c w, flag (set_clock c w) = flag w) ->
  forall w : World F,
    exists w', later w w'
      /\ (event_wait (ctl_step env) flag fuel w = (Return tt, w')
          \/ event_wait (ctl_step env) flag fuel w = (OutOfFuel, w')).
Proof.
  intros Hflag. induction fuel as [|k IH]; intros w; cbn [event_wait].
  - exists w. split; [apply later_refl|].
    destruct (flag w); [left | right]; reflexivity.
  - destruct (flag w) eqn:Ef.
    + exists w. split; [apply later_refl|]. left; reflexivity.
    + unfold bind. rewrite ctl_step_quiet by apply Hquiet.
      destruct (IH (set_clock (S (clock w)) w)) as (w' & [c ->] & Hw').
      exists (set_clock c w). split; [exists c; reflexivity|]. exact Hw'.
Qed.

Lemma wait_while_paused_quiet fuel n :
  forall w : World F,
    playback_state w = PlaybackState.PAUSED ->
    exists w', later w w'
      /\ wait_while_playback_paused env (ctl_step env) fuel n w
         = (OutOfFuel, w').
Proof.
  induction n as [|k IH]; intros w Hp; cbn [wait_while_playback_paused].
  - exists w. split; [apply later_refl | reflexivity].
  - unfold bind at 1. rewrite get_playback_state_quiet, Hp.
    cbn [PlaybackState.eqb]. unfold bind.
    destruct (event_wait_quiet playback_paused_changed fuel
                (fun _ _ => eq_refl) (set_clock (S (clock w)) w))
      as (w1 & [c ->] & [E1|E1]); rewrite E1.
    + destruct (IH (set_clock c w) Hp) as (w2 & [c2 ->] & E2).
      exists (set_clock c2 w). split; [exists c2; reflexivity|]. exact E2.
    + exists (set_clock c w). split; [exists c; reflexivity | reflexivity].
Qed.

(** X22. While the playback is paused and no other thread toggles or stops
    it, the callback does not return, however long it runs: it neither
    takes a block from the queue nor writes the output buffer. *)
Theorem audio_callback_blocks_while_paused (blocksize frames : Z)
    (status : CallbackFlags) (fuel : nat) (w : World F) :
  playback_state w = PlaybackState.PAUSED ->
  exists w',
    audio_callback env blocksize frames status fuel w = (OutOfFuel, w')
    /\ later w w'.
Proof.
  intros Hp. unfold audio_callback. unfold bind at 1.
  rewrite get_playback_state_quiet, Hp. cbn [PlaybackState.eqb].
  unfold bind.
  destruct (wait_while_paused_quiet fuel fuel (set_clock (S (clock w)) w) Hp)
    as (w' & [c ->] & E).
  rewrite E. eexists. split; [reflexivity|]. exists c. reflexivity.
Qed.

End FileMode.

(** A file of three frames, read two at a time. *)
Lemma prefill_queues_the_file_witness :
  exists w' h',
    prefill Fixtures.quiet 2 [] 2 8000 0%R 10
      (set_f (Some (Build_SoundFile "a.wav" 8000 1 [1%R; 2%R; 3%R] false))
         Fixtures.playing_world) = (Return 0%R, w')
    /\ concat (q w') = [] ++ firstn (2 * Z.to_nat 2) [1%R; 2%R; 3%R]
    /\ f w' = Some h'
    /\ sf_unread h' = skipn (2 * Z.to_nat 2) [1%R; 2%R; 3%R].
Proof.
  apply (prefill_queues_the_file Fixtures.quiet (fun _ => eq_refl)
           (fun _ => eq_refl) [] 2 8000 0%R 10 2
           (set_f (Some (Build_SoundFile "a.wav" 8000 1 [1%R; 2%R; 3%R] false))
              Fixtures.playing_world)
           (Build_SoundFile "a.wav" 8000 1 [1%R; 2%R; 3%R] false));
    solve [reflexivity | discriminate | lia | left; cbn; lia].
Defined.

(** A paused session, a block in the queue. *)
Lemma audio_callback_blocks_while_paused_witness :
  exists w',
    audio_callback Fixtures.quiet 2 2 no_flags 10
      (set_q [[2%R; 2%R]]
         (set_playback_state PlaybackState.PAUSED Fixtures.playing_world))
    = (OutOfFuel, w')
    /\ later (set_q [[2%R; 2%R]]
                (set_playback_state PlaybackState.PAUSED
                   Fixtures.playing_world)) w'.
Proof.
  apply (audio_callback_blocks_while_paused Fixtures.quiet (fun _ => eq_refl)).
  reflexivity.
Defined.

(** * What the loops wait for *)

Section Starvation.
Context {F : Type} `{PyFloat F}.
Variable env : Env F.

(** The driver never calls back. *)
Hypothesis Hsilent : forall k, env_driver env k = None.

Lemma record_others_silent fuel (w : World F) :
  exists w', record_others env fuel w = (Return tt, w') /\ q w' = q w.
Proof.
  unfold record_others, bind.
  destruct (ctl_step_frame env w) as (w1 & E1 & _).
  destruct (ctl_step_effect env w) as [C1 _]. rewrite E1 in C1 |- *.
  cbn [snd] in C1. exists w1. split; [|apply (ce_q _ _ C1)].
  unfold record_driver_step. rewrite Hsilent.
  destruct (stream_active w1); reflexivity.
Qed.

Lemma q_get_starves fuel n :
  forall w : World F,
    q w = [] -> fst (q_get (record_others env fuel) n w) = OutOfFuel.
Proof.
  induction n as [|k IH]; intros w Hq; cbn [q_get]; rewrite Hq;
    [reflexivity|].
  unfold bind. destruct (record_others_silent fuel w) as (w' & E & Hq').
  rewrite E. apply IH. congruence.
Qed.

(** X23. A recording without a duration waits for the next block with a
    [get] that has no timeout: if the driver delivers nothing, the loop of
    [record] never gets to look at the state again, so it does not end,
    whatever the other threads do from then on, [stop_recording]
    included. *)
Theorem record_loop_waits_for_the_driver (name : string) (started : F)
    (fuel n : nat) (w : World F) :
  env_ctl env (clock w) = [] ->
  env_ctl env (S (clock w)) = [] ->
  recording_state w = RecordingState.RECORDING ->
  q w = [] ->
  fst (record_loop env (S n) name None started fuel w) = OutOfFuel.
Proof.
  intros Q1 Q2 Hr Hq. cbn [record_loop]. unfold bind at 1.
  unfold keep_recording. unfold bind at 1.
  rewrite get_recording_state_eq, ctl_step_quiet by exact Q1.
  cbn [fst snd].
  change (recording_state (set_clock _ w)) with (recording_state w).
  rewrite Hr. cbn [RecordingState.eqb]. unfold ret at 1.
  unfold bind at 1.
  destruct fuel as [|m]; [reflexivity|].
  cbn [wait_while_recording_paused]. unfold bind at 1.
  rewrite get_recording_state_eq, ctl_step_quiet by exact Q2.
  cbn [fst snd].
  change (recording_state (set_clock _ _)) with (recording_state w).
  rewrite Hr. cbn [RecordingState.eqb]. unfold ret at 1.
  unfold bind at 1.
  match goal with |- context [q_get ?idle ?k ?w0] =>
    assert (Hs := q_get_starves (S m) k w0 Hq);
    destruct (q_get idle k w0) as [o w'] end.
  cbn [fst] in Hs. subst o. reflexivity.
Qed.

End Starvation.

(** Another thread calls [stop_recording] in slot 3; the driver is dead. *)
Lemma record_loop_waits_for_the_driver_witness :
  fst (record_loop
         (Build_Env R (fun n => if (n =? 3)%nat then [CtlStopRecording] else [])
            (fun _ => None) (fun _ => None) (fun s => s) "tmp.wav"
            (fun _ => Some 0) (fun _ => 44100) (fun _ => None)
            (fun n => INR n))
         (S 5) "rec.wav" None 0%R 50
         (set_recording_state RecordingState.RECORDING Fixtures.idle_world))
  = OutOfFuel.
Proof.
  apply (record_loop_waits_for_the_driver
           (Build_Env R
              (fun n => if (n =? 3)%nat then [CtlStopRecording] else [])
              (fun _ => None) (fun _ => None) (fun s => s) "tmp.wav"
              (fun _ => Some 0) (fun _ => 44100) (fun _ => None)
              (fun n => INR n))
           (fun _ => eq_refl)); reflexivity.
Defined.

Section OpenEnded.
Context {F : Type} `{PyFloat F}.
Variable env : Env F.

Lemma stable_no_file : stable (fun w : World F => f w = None).
Proof. split; intros; assumption. Qed.

Lemma queue_stable_no_file : queue_stable (fun w : World F => f w = None).
Proof. split; intros; assumption. Qed.

Lemma producer_loop_open_ended (sound : Sound F) (rest : list (Sound F))
    (blocksize samplerate : Z) (fuel : nat) :
  duration sound = None ->
  forall n t (w : World F),
    f w = None ->
    post (producer_loop env n (sound :: rest) blocksize samplerate t fuel) w
         (fun o _ => o <> Return tt).
Proof.
  intros Hd. induction n as [|k IH]; intros t w Hw; cbn [producer_loop].
  - intros o w' Eq Hne. injection Eq as <- <-. congruence.
  - apply post_bind. eapply post_conseq.
    { apply (keeps_wait_while_playback_paused env _ any_exn stable_no_file
               _ _ _ (keeps_others env _ any_exn stable_no_file
                        (fun _ _ => I) _ _) w Hw). }
    intros o w1 _ [H1 _]. destruct o as [[]|e|]; [|discriminate|exact I].
    apply post_bind. unfold next_block. apply post_bind, post_gets.
    rewrite H1, Hd. cbn zeta.
    destruct (get_wave sound t _ samplerate) as [e|data];
      [apply post_raise; discriminate|].
    apply post_bind, post_modify, post_ret.
    apply post_bind. eapply post_conseq.
    { apply (keeps_get_playback_state env _ any_exn stable_no_file).
      exact H1. }
    intros o w3 _ [H3 _]. destruct o as [st|e|]; [|discriminate|exact I].
    destruct (PlaybackState.eqb st PlaybackState.STOPPED);
      [apply post_raise; discriminate|].
    apply post_bind. eapply post_conseq.
    { apply (keeps_try_except (fun w0 : World F => f w0 = None) any_exn);
        [| |exact H3].
      - apply (keeps_q_put _ any_exn stable_no_file queue_stable_no_file
                 _ _ I).
        apply (keeps_others env _ any_exn stable_no_file (fun _ _ => I)).
      - apply keeps_bind;
          [apply (keeps_get_playback_state env _ any_exn stable_no_file)|].
        intros st'. destruct (negb _);
          [apply keeps_raise; exact I | apply keeps_ret]. }
    intros o w4 _ [H4 _]. destruct o as [[]|e|]; [|discriminate|exact I].
    apply IH. exact H4.
Qed.

(** X24. For a sound without a duration the producer loop of [play] has
    no normal end: it goes on until an exception ends it, CallbackAbort
    after a stop or [queue.Full] after a timeout. *)
Theorem producer_loop_without_duration (sound : Sound F)
    (rest : list (Sound F)) (blocksize samplerate : Z) (t : F)
    (fuel n : nat) (w : World F) :
  f w = None ->
  duration sound = None ->
  fst (producer_loop env n (sound :: rest) blocksize samplerate t fuel w)
  <> Return tt.
Proof.
  intros Hf Hd Ho.
  destruct (producer_loop env n (sound :: rest) blocksize samplerate t fuel w)
    as [o w'] eqn:Ep. cbn [fst] in Ho. subst o.
  exact (producer_loop_open_ended sound rest blocksize samplerate fuel Hd
           n t w Hf _ _ Ep ltac:(discriminate) eq_refl).
Qed.

End OpenEnded.

(** [Sound(frequency=1.0)], which has no duration. *)
Lemma producer_loop_without_duration_witness :
  fst (producer_loop Fixtures.driven 10 [Fixtures.one_hertz] 2 8 0%R 10
         Fixtures.playing_world) <> Return tt.
Proof.
  apply (producer_loop_without_duration Fixtures.driven Fixtures.one_hertz);
    reflexivity.
Defined.
